(** * NIP-DB document revisions over Nostr: the revision engine and its relay client

    A shallow embedding of [src/lib/nip-db.ts] (revision ids, conflict
    resolution, [DocumentStore]), of the changes-feed part of
    [src/hooks/use-nostr-relay.ts] and of [createDocument]/[updateDocument] of
    [src/hooks/use-nip-db.ts], followed by the properties of the specification
    that were checked against them.

    Conventions of the embedding.
    - A JavaScript string is a [string]: each [ascii] is one UTF-16 code unit
      in the range 0..255.  Relational operators on strings compare code
      units, which is what [String.ltb] does on this type.
    - A JavaScript number that holds a generation is a [number]: NaN, an
      infinity or an integer-valued double.  [parseInt] and [+ 1] never leave
      this set.
    - [undefined] and [null] are [None].
    - A mutable object is threaded through the functions that mutate it: a
      function returns the new value of what it mutated next to its result. *)

From Stdlib Require Import ZArith List Bool Ascii String Lia Permutation.
From Stdlib Require Import Numbers.DecimalString Numbers.DecimalPos Numbers.DecimalN.
From Stdlib Require Numbers.DecimalFacts Structures.OrderedTypeEx.
Import ListNotations.

Open Scope string_scope.
Open Scope Z_scope.

(** ** JavaScript numbers holding integers *)

Module JsNumber.

(** [Num z] stands for the double that holds the integer [z] exactly; the
    operations below only return such values.  The two zeros are one value
    here: the code never tells them apart ([===], [-], [+] and the template
    literal treat them alike). *)
Inductive number : Type :=
| NaN
| Infinity (negative : bool)
| Num (z : Z).

(** The Number value for a non-negative mathematical integer: round to the
    nearest binary64 value, ties to even; 2^1024 and above is infinite. *)
Definition roundNat (n : Z) : option Z :=
  if n <? 2 ^ 53 then Some n
  else
    let e := Z.log2 n - 52 in
    let q := Z.shiftr n e in
    let r := n - Z.shiftl q e in
    let half := Z.shiftl 1 (e - 1) in
    let q' := if (half <? r) || ((half =? r) && Z.odd q) then q + 1 else q in
    let v := Z.shiftl q' e in
    if 2 ^ 1024 <=? v then None else Some v.

Definition toDouble (z : Z) : number :=
  match roundNat (Z.abs z) with
  | Some v => Num (Z.sgn z * v)
  | None => Infinity (z <? 0)
  end.

(** [a === b] on numbers: NaN is equal to nothing, itself included. *)
Definition strictEq (a b : number) : bool :=
  match a, b with
  | Num x, Num y => x =? y
  | Infinity s, Infinity t => Bool.eqb s t
  | _, _ => false
  end.

(** [a - b]. *)
Definition sub (a b : number) : number :=
  match a, b with
  | NaN, _ | _, NaN => NaN
  | Infinity s, Infinity t => if Bool.eqb s t then NaN else Infinity s
  | Infinity s, Num _ => Infinity s
  | Num _, Infinity t => Infinity (negb t)
  | Num x, Num y => toDouble (x - y)
  end.

(** [a + b]. *)
Definition add (a b : number) : number :=
  match a, b with
  | NaN, _ | _, NaN => NaN
  | Infinity s, Infinity t => if Bool.eqb s t then Infinity s else NaN
  | Infinity s, Num _ => Infinity s
  | Num _, Infinity t => Infinity t
  | Num x, Num y => toDouble (x + y)
  end.

Definition decimal (n : Z) : string :=
  NilZero.string_of_uint (N.to_uint (Z.to_N n)).

(** The largest [p] such that a multiple of [10^p] rounds to the double
    [x], with the multiple chosen as Number::toString chooses its digits:
    the closest to [x], the even one on a tie. *)
Fixpoint shortest (fuel : nat) (x : Z) (p : Z) (best : Z) : Z * Z :=
  match fuel with
  | O => (best, p)
  | S fuel' =>
      let m := 10 ^ (p + 1) in
      let lo := (x / m) * m in
      let hi := lo + m in
      let okLo := match roundNat lo with Some v => (v =? x) && (0 <? lo) | None => false end in
      let okHi := match roundNat hi with Some v => v =? x | None => false end in
      let pick :=
        if okLo && okHi then
          if x - lo <? hi - x then Some lo
          else if hi - x <? x - lo then Some hi
          else if Z.even (lo / m) then Some lo else Some hi
        else if okLo then Some lo
        else if okHi then Some hi
        else None in
      match pick with
      | Some v => shortest fuel' x (p + 1) v
      | None => (best, p)
      end
  end.

Definition stripZeros (v p : Z) : Z := v / 10 ^ p.

(** Number::toString(x, 10) for a positive integer-valued double. *)
Definition positiveToString (x : Z) : string :=
  let '(v, p) := shortest 400 x 0 x in
  let all := decimal v in
  let n := Z.of_nat (String.length all) in
  if n <=? 21 then all
  else
    let s := decimal (stripZeros v p) in
    match s with
    | String d EmptyString => String d ("e+" ++ decimal (n - 1))
    | String d rest => String d ("." ++ rest ++ "e+" ++ decimal (n - 1))
    | EmptyString => EmptyString
    end.

(** [String(x)], as a template literal applies it. *)
Definition toString (x : number) : string :=
  match x with
  | NaN => "NaN"
  | Infinity false => "Infinity"
  | Infinity true => "-Infinity"
  | Num 0 => "0"
  | Num (Zpos p) => positiveToString (Zpos p)
  | Num (Zneg p) => "-" ++ positiveToString (Zpos p)
  end.

(** The sign that [Array.prototype.sort] reads off a comparator's result:
    NaN counts as zero. *)
Definition sign (x : number) : comparison :=
  match x with
  | NaN => Eq
  | Infinity true => Lt
  | Infinity false => Gt
  | Num z => z ?= 0
  end.

End JsNumber.
Export JsNumber.

(** ** JavaScript strings *)

Module JsString.

Definition code (c : ascii) : Z := Z.of_N (N_of_ascii c).
Definition fromCode (z : Z) : ascii := ascii_of_N (Z.to_N z).

(** [a > b] on strings. *)
Definition gt (a b : string) : bool := String.ltb b a.

(** [s.substring(0, n)]. *)
Definition prefix (n : nat) (s : string) : string := String.substring 0 n s.

(** [s.split(sep)] for a separator of one code unit: the pieces between
    the occurrences of [sep], in order; never the empty array. *)
Fixpoint split (sep : ascii) (s : string) : list string :=
  match s with
  | EmptyString => [EmptyString]
  | String c rest =>
      if Ascii.eqb c sep then EmptyString :: split sep rest
      else match split sep rest with
           | piece :: pieces => String c piece :: pieces
           | [] => [String c EmptyString]
           end
  end.

(** [s.includes(c)] for one code unit [c]. *)
Fixpoint includes (c : ascii) (s : string) : bool :=
  match s with
  | EmptyString => false
  | String c' rest => Ascii.eqb c' c || includes c rest
  end.

(** StrWhiteSpaceChar among the code units below 256: TAB, LF, VT, FF, CR,
    SP and NBSP. *)
Definition isWhiteSpace (c : ascii) : bool :=
  let n := code c in
  ((9 <=? n) && (n <=? 13)) || (n =? 32) || (n =? 160).

Fixpoint trimStart (s : string) : string :=
  match s with
  | String c rest => if isWhiteSpace c then trimStart rest else s
  | EmptyString => EmptyString
  end.

Definition digit (c : ascii) : option Z :=
  let n := code c in
  if (48 <=? n) && (n <=? 57) then Some (n - 48) else None.

(** The longest prefix of decimal digits, read as an integer; [None] when
    that prefix is empty. *)
Fixpoint digits (acc : option Z) (s : string) : option Z :=
  match s with
  | String c rest =>
      match digit c with
      | Some d => digits (Some (match acc with Some a => 10 * a + d | None => d end)) rest
      | None => acc
      end
  | EmptyString => acc
  end.

(** [parseInt(s, 10)]: leading white space, an optional sign, then the
    longest run of decimal digits; NaN when there is no digit. *)
Definition parseInt (s : string) : number :=
  let t := trimStart s in
  let '(negative, body) :=
    match t with
    | String "-" rest => (true, rest)
    | String "+" rest => (false, rest)
    | _ => (false, t)
    end in
  match digits None body with
  | None => NaN
  | Some m => toDouble (if negative then - m else m)
  end.

(** [new TextEncoder().encode(s)]: UTF-8.  A code unit below 128 is one
    byte, one from 128 to 255 is two. *)
Fixpoint utf8 (s : string) : list Z :=
  match s with
  | EmptyString => []
  | String c rest =>
      let n := code c in
      if n <? 128 then n :: utf8 rest
      else Z.lor 192 (Z.shiftr n 6) :: Z.lor 128 (Z.land n 63) :: utf8 rest
  end.

Definition hexDigit (n : Z) : ascii :=
  if n <? 10 then fromCode (48 + n) else fromCode (87 + n).

(** [bytesToHex]: two lowercase hexadecimal digits a byte. *)
Fixpoint bytesToHex (bytes : list Z) : string :=
  match bytes with
  | [] => EmptyString
  | b :: rest => String (hexDigit (Z.shiftr b 4)) (String (hexDigit (Z.land b 15)) (bytesToHex rest))
  end.

(** The character U+0022. *)
Definition quote : string := String (ascii_of_nat 34) EmptyString.

End JsString.

(** ** SHA-256 (FIPS 180-4), as [sha256] of @noble/hashes computes it *)

Module Sha256.

Definition word (x : Z) : Z := Z.land x 4294967295.
Definition rotr (n x : Z) : Z := Z.lor (Z.shiftr x n) (word (Z.shiftl x (32 - n))).
Definition plus (x y : Z) : Z := word (x + y).

Definition Ch (x y z : Z) : Z := Z.lxor (Z.land x y) (Z.land (Z.lxor x 4294967295) z).
Definition Maj (x y z : Z) : Z := Z.lxor (Z.lxor (Z.land x y) (Z.land x z)) (Z.land y z).
Definition Sigma0 (x : Z) : Z := Z.lxor (Z.lxor (rotr 2 x) (rotr 13 x)) (rotr 22 x).
Definition Sigma1 (x : Z) : Z := Z.lxor (Z.lxor (rotr 6 x) (rotr 11 x)) (rotr 25 x).
Definition sigma0 (x : Z) : Z := Z.lxor (Z.lxor (rotr 7 x) (rotr 18 x)) (Z.shiftr x 3).
Definition sigma1 (x : Z) : Z := Z.lxor (Z.lxor (rotr 17 x) (rotr 19 x)) (Z.shiftr x 10).

Definition isPrime (n : Z) : bool :=
  forallb (fun k => negb (n mod Z.of_nat k =? 0)) (seq 2 (Z.to_nat n - 2)).

(** The first 64 primes. *)
Definition primes : list Z :=
  Eval vm_compute in filter isPrime (map Z.of_nat (seq 2 310)).

(** The largest [r + k], [k] below [2 ^ bits], whose cube is at most [n]. *)
Fixpoint cubeRoot (bits : nat) (n r : Z) : Z :=
  match bits with
  | O => r
  | S bits' =>
      let c := r + 2 ^ Z.of_nat bits' in
      if c * c * c <=? n then cubeRoot bits' n c else cubeRoot bits' n r
  end.

(** The round constants: the first 32 bits of the fractional parts of the
    cube roots of the first 64 primes. *)
Definition K : list Z :=
  Eval vm_compute in map (fun p => word (cubeRoot 40 (p * 2 ^ 96) 0)) primes.

(** The initial hash value: the first 32 bits of the fractional parts of
    the square roots of the first 8 primes. *)
Definition H0 : list Z :=
  Eval vm_compute in map (fun p => word (Z.sqrt (p * 2 ^ 64))) (firstn 8 primes).

Definition bigEndian (count : nat) (x : Z) : list Z :=
  map (fun i => Z.land (Z.shiftr x (8 * Z.of_nat i)) 255) (rev (seq 0 count)).

(** The message followed by the bit 1, zeros up to 56 modulo 64 bytes, and
    the bit length on 8 bytes. *)
Definition pad (msg : list Z) : list Z :=
  let len := Z.of_nat (List.length msg) in
  let zeros := Z.to_nat ((55 - len) mod 64) in
  msg ++ [128] ++ repeat 0 zeros ++ bigEndian 8 (8 * len).

Fixpoint words (fuel : nat) (bytes : list Z) : list Z :=
  match fuel, bytes with
  | S fuel', a :: b :: c :: d :: rest =>
      Z.lor (Z.shiftl a 24) (Z.lor (Z.shiftl b 16) (Z.lor (Z.shiftl c 8) d)) :: words fuel' rest
  | _, _ => []
  end.

(** The message schedule, most recent word first. *)
Fixpoint schedule (n : nat) (w : list Z) : list Z :=
  match n with
  | O => w
  | S n' =>
      let next := plus (plus (sigma1 (nth 1 w 0)) (nth 6 w 0))
                       (plus (sigma0 (nth 14 w 0)) (nth 15 w 0)) in
      schedule n' (next :: w)
  end.

Definition round (st : list Z) (kw : Z * Z) : list Z :=
  match st with
  | [a; b; c; d; e; f; g; h] =>
      let t1 := plus (plus (plus h (Sigma1 e)) (plus (Ch e f g) (fst kw))) (snd kw) in
      let t2 := plus (Sigma0 a) (Maj a b c) in
      [plus t1 t2; a; b; c; plus d t1; e; f; g]
  | _ => st
  end.

Definition compress (h : list Z) (block : list Z) : list Z :=
  let w := rev (schedule 48 (rev (words 16 block))) in
  let st := fold_left round (combine K w) h in
  map (fun p => plus (fst p) (snd p)) (combine h st).

Fixpoint blocks (fuel : nat) (h : list Z) (bytes : list Z) : list Z :=
  match fuel with
  | O => h
  | S fuel' =>
      match bytes with
      | [] => h
      | _ => blocks fuel' (compress h (firstn 64 bytes)) (skipn 64 bytes)
      end
  end.

Definition sha256 (msg : list Z) : list Z :=
  let bytes := pad msg in
  flat_map (bigEndian 4) (blocks (List.length bytes) H0 bytes).

End Sha256.

(** ** [Map<string, V>]: keys in insertion order *)

Module JsMap.

Definition t (V : Type) : Type := list (string * V).

Definition empty {V : Type} : t V := [].

Fixpoint get {V : Type} (k : string) (m : t V) : option V :=
  match m with
  | [] => None
  | (k', v) :: rest => if String.eqb k' k then Some v else get k rest
  end.

Definition has {V : Type} (k : string) (m : t V) : bool :=
  match get k m with Some _ => true | None => false end.

(** [m.set(k, v)]: a key already present keeps its place. *)
Fixpoint set {V : Type} (k : string) (v : V) (m : t V) : t V :=
  match m with
  | [] => [(k, v)]
  | (k', v') :: rest =>
      if String.eqb k' k then (k, v) :: rest else (k', v') :: set k v rest
  end.

Definition values {V : Type} (m : t V) : list V := map snd m.

End JsMap.

(** ** [src/lib/nip-db.ts] *)

Module Event.
(** A signed Nostr event, as nostr-tools types it.  [kind] and
    [created_at] are integers. *)
Record t : Type := mk {
  id : string;
  pubkey : string;
  created_at : Z;
  kind : Z;
  tags : list (list string);
  content : string;
  sig : string
}.
End Event.

Module DocumentRevision.
(** [prevRevisionIds] holds the second element of every [v] tag, which is
    [undefined] for a tag of one element. *)
Record t : Type := mk {
  revisionId : string;
  content : string;
  prevRevisionIds : list (option string);
  createdAt : Z;
  eventId : string;
  deleted : bool
}.
End DocumentRevision.

Module Document.
Record t : Type := mk {
  id : string;
  content : string;
  revisionId : string;
  prevRevisionIds : list (option string);
  createdAt : Z;
  eventId : string;
  deleted : bool
}.
End Document.

Module NipDb.

Import JsString.

Record RevisionId : Type := { generation : number; hash : string }.

(** A string or [undefined]/[null] used as a condition. *)
Definition truthy (v : option string) : option string :=
  match v with
  | Some EmptyString | None => None
  | Some s => Some s
  end.

Definition parseRevisionId (revId : string) : RevisionId :=
  match split "-" revId with
  | genStr :: rest =>
      {| generation := parseInt genStr;
         hash := match truthy (nth_error rest 0) with Some h => h | None => "" end |}
  | [] => {| generation := NaN; hash := "" |}
  end.

Definition sha256Hex (s : string) : string :=
  bytesToHex (Sha256.sha256 (utf8 s)).

Definition computeRevisionHash (prevRev : option string) (content : string) : string :=
  let contentHash := sha256Hex content in
  match truthy prevRev with
  | None => prefix 32 contentHash
  | Some prev =>
      let combined := prev ++ ":" ++ contentHash in
      let fullHash := sha256Hex combined in
      prefix 32 fullHash
  end.

Definition createRevisionId (generation : number) (prevRev : option string)
    (content : string) : string :=
  let hash := computeRevisionHash prevRev content in
  toString generation ++ "-" ++ hash.

Definition optionEqb (a b : option string) : bool :=
  match a, b with
  | Some x, Some y => String.eqb x y
  | None, None => true
  | _, _ => false
  end.

(** A [Set] of strings (or [undefined]): members in insertion order. *)
Definition setHas (x : option string) (s : list (option string)) : bool :=
  existsb (optionEqb x) s.

Definition setAdd (s : list (option string)) (x : option string) : list (option string) :=
  if setHas x s then s else s ++ [x].

Definition areInConflict (rev1 rev2 : DocumentRevision.t) : bool :=
  match DocumentRevision.prevRevisionIds rev1, DocumentRevision.prevRevisionIds rev2 with
  | [], [] =>
      negb (String.eqb (DocumentRevision.revisionId rev1) (DocumentRevision.revisionId rev2))
  | parents1, parents2 =>
      let rev1Parents := fold_left setAdd parents1 [] in
      existsb (fun parent => setHas parent rev1Parents) parents2
  end.

(** [tags.find((t) => t[0] === name)?.[1]]. *)
Definition tagNamed (name : string) (t : list string) : bool :=
  match t with
  | t0 :: _ => String.eqb t0 name
  | [] => false
  end.

Definition findTagValue (name : string) (tags : list (list string)) : option string :=
  match find (tagNamed name) tags with
  | Some t => nth_error t 1
  | None => None
  end.

Definition eventToRevision (event : Event.t) : option DocumentRevision.t :=
  if (Event.kind event <? 40000) || (50000 <=? Event.kind event) then None
  else
    let dTag := findTagValue "d" (Event.tags event) in
    let iTag := findTagValue "i" (Event.tags event) in
    let vTags := map (fun t => nth_error t 1) (filter (tagNamed "v") (Event.tags event)) in
    let deleted := existsb (tagNamed "deleted") (Event.tags event) in
    match truthy dTag, truthy iTag with
    | Some _, Some iTag =>
        Some {| DocumentRevision.revisionId := iTag;
                DocumentRevision.content := Event.content event;
                DocumentRevision.prevRevisionIds := vTags;
                DocumentRevision.createdAt := Event.created_at event;
                DocumentRevision.eventId := Event.id event;
                DocumentRevision.deleted := deleted |}
    | _, _ => None
    end.

Definition createDocumentTags (docId revisionId : string) (prevRevisionIds : list string)
    (deleted : bool) : list (list string) :=
  [["d"; docId]; ["i"; revisionId]]
    ++ map (fun prevRev => ["v"; prevRev]) prevRevisionIds
    ++ (if deleted then [["deleted"; ""]] else []).

(** [Array.prototype.sort(comparefn)]: stable, [a] before [b] when
    [comparefn(a, b) < 0].  ECMAScript fixes the result only for a
    consistent comparator; the model is insertion from the right, which
    agrees with every stable sort on those.  The comparator of
    [selectWinningRevision] is consistent on revisions whose generations
    are numbers; when a generation parses to NaN it is not, and an engine
    may leave another order and another first element than this model: what
    is proved of the order below is proved for numeric generations. *)
Section Sort.
Context {A : Type} (comparefn : A -> A -> number).

Fixpoint insert (x : A) (sorted : list A) : list A :=
  match sorted with
  | [] => [x]
  | y :: rest =>
      match sign (comparefn x y) with
      | Gt => y :: insert x rest
      | _ => x :: sorted
      end
  end.

Definition sort (l : list A) : list A := fold_right insert [] l.
End Sort.

Record AddResult : Type := { accepted : bool; reason : option string }.

(** The fields of the class, and the calls it made.  A listener is a
    closure of the caller: the store only keeps it and calls it, so it is
    modelled by a name, and [invoked] lists the calls so far, oldest
    first. *)
Record DocumentStore : Type := {
  documents : JsMap.t Document.t;
  revisions : JsMap.t (list DocumentRevision.t);
  listeners : list nat;
  cachedDocuments : list Document.t;
  invoked : list nat
}.

(** [new DocumentStore()]. *)
Definition newStore : DocumentStore :=
  {| documents := JsMap.empty; revisions := JsMap.empty; listeners := [];
     cachedDocuments := []; invoked := [] |}.

Section Store.

(** [String.prototype.localeCompare] depends on the host's locale. *)
Variable localeCompare : string -> string -> number.

(** The comparator of [selectWinningRevision]. *)
Definition compareRevisions (a b : DocumentRevision.t) : number :=
  let parsedA := parseRevisionId (DocumentRevision.revisionId a) in
  let parsedB := parseRevisionId (DocumentRevision.revisionId b) in
  if negb (strictEq (generation parsedB) (generation parsedA))
  then sub (generation parsedB) (generation parsedA)
  else localeCompare (hash parsedB) (hash parsedA).

(** [revisions.sort(...)[0]].  The sort is in place: the second component
    is the array the caller passed, as the call leaves it. *)
Definition selectWinningRevision (revisions : list DocumentRevision.t)
    : option DocumentRevision.t * list DocumentRevision.t :=
  let sorted := sort compareRevisions revisions in
  (nth_error sorted 0, sorted).

Definition buildDocument (docId : string) (revisions : list DocumentRevision.t)
    : option Document.t * list DocumentRevision.t :=
  match revisions with
  | [] => (None, revisions)
  | _ =>
      match selectWinningRevision revisions with
      | (Some winning, revisions') =>
          (Some {| Document.id := docId;
                   Document.content := DocumentRevision.content winning;
                   Document.revisionId := DocumentRevision.revisionId winning;
                   Document.prevRevisionIds := DocumentRevision.prevRevisionIds winning;
                   Document.createdAt := DocumentRevision.createdAt winning;
                   Document.eventId := DocumentRevision.eventId winning;
                   Document.deleted := DocumentRevision.deleted winning |},
           revisions')
      | (None, revisions') => (None, revisions')
      end
  end.

(** The parents named by the history, then those of the new revision. *)
Definition referencedRevisions (docRevisions : list DocumentRevision.t)
    (revision : DocumentRevision.t) : list (option string) :=
  let fromHistory :=
    fold_left (fun acc existing =>
                 fold_left setAdd (DocumentRevision.prevRevisionIds existing) acc)
              docRevisions [] in
  fold_left setAdd (DocumentRevision.prevRevisionIds revision) fromHistory.

Definition chainReason (dTag : string) (generation : number) : string :=
  "Document " ++ quote ++ dTag ++ quote ++ " already has a revision at generation "
    ++ toString generation ++ " that is part of the revision chain".

Definition winningReason (dTag : string) (generation : number) : string :=
  "Document " ++ quote ++ dTag ++ quote ++ " already has a winning revision at generation "
    ++ toString generation.

(** The loop over the history that looks for a reason to reject: the
    first one found is returned. *)
Fixpoint conflictReason (dTag : string) (referenced : list (option string))
    (newParsed : RevisionId) (docRevisions : list DocumentRevision.t) : option string :=
  match docRevisions with
  | [] => None
  | existing :: rest =>
      let existingParsed := parseRevisionId (DocumentRevision.revisionId existing) in
      if strictEq (generation existingParsed) (generation newParsed) then
        if setHas (Some (DocumentRevision.revisionId existing)) referenced then
          Some (chainReason dTag (generation newParsed))
        else if gt (hash existingParsed) (hash newParsed) then
          Some (winningReason dTag (generation newParsed))
        else conflictReason dTag referenced newParsed rest
      else conflictReason dTag referenced newParsed rest
  end.

(** The predicate of the [filter] that drops the revisions the new one
    dominates. *)
Definition survives (referenced : list (option string)) (newParsed : RevisionId)
    (existing : DocumentRevision.t) : bool :=
  let existingParsed := parseRevisionId (DocumentRevision.revisionId existing) in
  if strictEq (generation existingParsed) (generation newParsed) then
    if setHas (Some (DocumentRevision.revisionId existing)) referenced then true
    else gt (hash existingParsed) (hash newParsed)
  else true.

Definition notifyListeners (s : DocumentStore) : DocumentStore :=
  {| documents := documents s;
     revisions := revisions s;
     listeners := listeners s;
     cachedDocuments :=
       filter (fun d => negb (Document.deleted d)) (JsMap.values (documents s));
     invoked := invoked s ++ listeners s |}.

Definition withRevisions (s : DocumentStore) (r : JsMap.t (list DocumentRevision.t))
    : DocumentStore :=
  {| documents := documents s; revisions := r; listeners := listeners s;
     cachedDocuments := cachedDocuments s; invoked := invoked s |}.

Definition withDocuments (s : DocumentStore) (d : JsMap.t Document.t) : DocumentStore :=
  {| documents := d; revisions := revisions s; listeners := listeners s;
     cachedDocuments := cachedDocuments s; invoked := invoked s |}.

Definition addRevision (event : Event.t) (s : DocumentStore) : AddResult * DocumentStore :=
  match eventToRevision event with
  | None => ({| accepted := false; reason := Some "Invalid event format" |}, s)
  | Some revision =>
      match truthy (findTagValue "d" (Event.tags event)) with
      | None => ({| accepted := false; reason := Some "Missing document ID (d tag)" |}, s)
      | Some dTag =>
          let s :=
            if JsMap.has dTag (revisions s) then s
            else withRevisions s (JsMap.set dTag [] (revisions s)) in
          let docRevisions :=
            match JsMap.get dTag (revisions s) with Some l => l | None => [] end in
          if existsb (fun r => String.eqb (DocumentRevision.eventId r) (Event.id event))
                     docRevisions
          then ({| accepted := true; reason := None |}, s)
          else
            let referenced := referencedRevisions docRevisions revision in
            let newParsed := parseRevisionId (DocumentRevision.revisionId revision) in
            match conflictReason dTag referenced newParsed docRevisions with
            | Some why => ({| accepted := false; reason := Some why |}, s)
            | None =>
                let filtered := filter (survives referenced newParsed) docRevisions in
                let filtered := (filtered ++ [revision])%list in
                (* [filtered] is stored, then sorted in place by
                   [buildDocument]: the map holds the sorted array. *)
                let '(doc, filtered) := buildDocument dTag filtered in
                let s := withRevisions s (JsMap.set dTag filtered (revisions s)) in
                let s :=
                  match doc with
                  | Some doc => withDocuments s (JsMap.set dTag doc (documents s))
                  | None => s
                  end in
                ({| accepted := true; reason := None |}, notifyListeners s)
            end
      end
  end.

Definition getDocument (docId : string) (s : DocumentStore) : option Document.t :=
  JsMap.get docId (documents s).

Definition getAllDocuments (s : DocumentStore) : list Document.t :=
  cachedDocuments s.

Definition getRevisions (docId : string) (s : DocumentStore) : list DocumentRevision.t :=
  match JsMap.get docId (revisions s) with Some l => l | None => [] end.

Definition subscribe (listener : nat) (s : DocumentStore) : DocumentStore :=
  {| documents := documents s; revisions := revisions s;
     listeners := if existsb (Nat.eqb listener) (listeners s) then listeners s
                  else listeners s ++ [listener];
     cachedDocuments := cachedDocuments s; invoked := invoked s |}.

Definition unsubscribe (listener : nat) (s : DocumentStore) : DocumentStore :=
  {| documents := documents s; revisions := revisions s;
     listeners := filter (fun l => negb (Nat.eqb listener l)) (listeners s);
     cachedDocuments := cachedDocuments s; invoked := invoked s |}.

Definition clear (s : DocumentStore) : DocumentStore :=
  notifyListeners (withRevisions (withDocuments s JsMap.empty) JsMap.empty).

End Store.

(** The store after [addRevision] was called on each event in turn and its
    answer dropped, as the sync loops of use-nip-db.ts call it on the
    changes they fetched. *)
Definition admitAll (localeCompare : string -> string -> number)
    (events : list Event.t) (s : DocumentStore) : DocumentStore :=
  fold_left (fun s event => snd (addRevision localeCompare event s)) events s.

(** The [Document] that [buildDocument] copies from the winning revision. *)
Definition documentOf (docId : string) (winning : DocumentRevision.t) : Document.t :=
  {| Document.id := docId;
     Document.content := DocumentRevision.content winning;
     Document.revisionId := DocumentRevision.revisionId winning;
     Document.prevRevisionIds := DocumentRevision.prevRevisionIds winning;
     Document.createdAt := DocumentRevision.createdAt winning;
     Document.eventId := DocumentRevision.eventId winning;
     Document.deleted := DocumentRevision.deleted winning |}.

End NipDb.

(** ** Calls that may throw *)

(** How a call ends: with a value, or with [throw new Error(message)].  For
    an [async] function the value is what its promise resolves to, or the
    promise itself when that is what the function returns. *)
Inductive outcome (A : Type) : Type :=
| Returned (a : A)
| Thrown (message : string).
Arguments Returned {A} a.
Arguments Thrown {A} message.

(** ** [src/hooks/use-nostr-relay.ts]: the changes feed *)

Module Relay.

Inductive ReadyState : Type := CONNECTING | OPEN | CLOSING | CLOSED.

Record ChangesOptions : Type := {
  since : option Z;
  limit : option Z;
  kinds : option (list Z);
  authors : option (list string)
}.

Record ChangeEntry : Type := { seq : Z; event : Event.t }.
Record ChangesResult : Type := { changes : list ChangeEntry; lastSeq : Z }.

(** What [ws.send] was given. *)
Inductive Outbound : Type :=
| SendChanges (options : ChangesOptions)
| SendLastSeq.

(** The relay messages that settle a pending query. *)
Inductive Inbound : Type :=
| CHANGES (result : ChangesResult)
| LASTSEQ (seq : Z).

Inductive PromiseState : Type :=
| Pending
| ResolvedChanges (result : ChangesResult)
| ResolvedSeq (seq : Z)
| Rejected (message : string).

(** A callback handed to [setTimeout], with the promise whose [reject] it
    closes over. *)
Inductive Timer : Type :=
| ChangesTimeout (promise : nat)
| LastSeqTimeout (promise : nat).

(** The refs of the hook.  A promise is its index in [promises]; a pending
    slot holds the [resolve]/[reject] pair of one promise, named by that
    index.  [ws] is [wsRef.current?.readyState]; [sent] and [timers] list
    what [ws.send] and [setTimeout] were given, oldest first. *)
Record Client : Type := {
  ws : option ReadyState;
  pendingChangesRef : option nat;
  pendingLastSeqRef : option nat;
  promises : list PromiseState;
  sent : list Outbound;
  timers : list (Z * Timer)
}.

Definition isOpen (c : Client) : bool :=
  match ws c with Some OPEN => true | _ => false end.

Definition promiseState (p : nat) (c : Client) : PromiseState :=
  nth p (promises c) Pending.

(** [resolve(v)] or [reject(e)]: only a pending promise changes. *)
Fixpoint settle (p : nat) (v : PromiseState) (ps : list PromiseState) : list PromiseState :=
  match ps, p with
  | [], _ => []
  | Pending :: rest, O => v :: rest
  | q :: rest, O => q :: rest
  | q :: rest, S p' => q :: settle p' v rest
  end.

(** [fetchChanges(options)]: the promise it returns, or the error it
    throws before creating one. *)
Definition fetchChanges (options : ChangesOptions) (c : Client) : outcome nat * Client :=
  if negb (isOpen c) then (Thrown "Not connected to relay", c)
  else
    let promise := List.length (promises c) in
    (Returned promise,
     {| ws := ws c;
        pendingChangesRef := Some promise;
        pendingLastSeqRef := pendingLastSeqRef c;
        promises := promises c ++ [Pending];
        sent := sent c ++ [SendChanges options];
        timers := timers c ++ [(30000, ChangesTimeout promise)] |}).

Definition getLastSeq (c : Client) : outcome nat * Client :=
  if negb (isOpen c) then (Thrown "Not connected to relay", c)
  else
    let promise := List.length (promises c) in
    (Returned promise,
     {| ws := ws c;
        pendingChangesRef := pendingChangesRef c;
        pendingLastSeqRef := Some promise;
        promises := promises c ++ [Pending];
        sent := sent c ++ [SendLastSeq];
        timers := timers c ++ [(10000, LastSeqTimeout promise)] |}).

(** The cases [CHANGES] and [LASTSEQ] of [handleMessage]. *)
Definition handleMessage (data : Inbound) (c : Client) : Client :=
  match data with
  | CHANGES result =>
      match pendingChangesRef c with
      | Some pending =>
          {| ws := ws c; pendingChangesRef := None;
             pendingLastSeqRef := pendingLastSeqRef c;
             promises := settle pending (ResolvedChanges result) (promises c);
             sent := sent c; timers := timers c |}
      | None => c
      end
  | LASTSEQ seq =>
      match pendingLastSeqRef c with
      | Some pending =>
          {| ws := ws c; pendingChangesRef := pendingChangesRef c;
             pendingLastSeqRef := None;
             promises := settle pending (ResolvedSeq seq) (promises c);
             sent := sent c; timers := timers c |}
      | None => c
      end
  end.

(** The body of a timeout callback, run when its delay has elapsed. *)
Definition runTimer (t : Timer) (c : Client) : Client :=
  match t with
  | ChangesTimeout promise =>
      match pendingChangesRef c with
      | Some _ =>
          {| ws := ws c; pendingChangesRef := None;
             pendingLastSeqRef := pendingLastSeqRef c;
             promises := settle promise (Rejected "Changes request timeout") (promises c);
             sent := sent c; timers := timers c |}
      | None => c
      end
  | LastSeqTimeout promise =>
      match pendingLastSeqRef c with
      | Some _ =>
          {| ws := ws c; pendingChangesRef := pendingChangesRef c;
             pendingLastSeqRef := None;
             promises := settle promise (Rejected "LastSeq request timeout") (promises c);
             sent := sent c; timers := timers c |}
      | None => c
      end
  end.

End Relay.

(** ** [src/hooks/use-nip-db.ts]: creating and updating a document *)

Module UseNipDb.

Import NipDb.

Definition DOC_KIND : Z := 40001.

(** What [publish] adds to the template it is given when the relay
    acknowledges the event: the fields [finalizeEvent] computes. *)
Record Signed : Type := {
  id : string;
  pubkey : string;
  created_at : Z;
  sig : string
}.

Definition finalizeEvent (kind : Z) (content : string) (tags : list (list string))
    (signed : Signed) : Event.t :=
  {| Event.id := id signed; Event.pubkey := pubkey signed;
     Event.created_at := created_at signed; Event.kind := kind;
     Event.tags := tags; Event.content := content; Event.sig := sig signed |}.

Section Hook.

Variable localeCompare : string -> string -> number.
(** [publicKey] of the key store. *)
Variable publicKey : option string.

(** [createDocument(docId, content)].  [published] is how the awaited
    [publish] call ends: with the signed event's new fields, or with an
    error.  No other callback touches the store while it is awaited. *)
Definition createDocument (docId content : string) (published : outcome Signed)
    (store : DocumentStore) : outcome (option Document.t) * DocumentStore :=
  match truthy publicKey with
  | None => (Thrown "No public key available", store)
  | Some _ =>
      let revisionId := createRevisionId (Num 1) None content in
      let tags := createDocumentTags docId revisionId [] false in
      match published with
      | Thrown e => (Thrown e, store)
      | Returned signed =>
          let event := finalizeEvent DOC_KIND content tags signed in
          let '(result, store) := addRevision localeCompare event store in
          if negb (accepted result) then
            (Thrown (match truthy (reason result) with
                     | Some why => why
                     | None => "Revision rejected"
                     end), store)
          else (Returned (getDocument docId store), store)
      end
  end.

(** [updateDocument(docId, content)], when no other callback touches the
    store while [publish] is awaited; [UseNipDbAwait.updateDocument] has the
    general case. *)
Definition updateDocument (docId content : string) (published : outcome Signed)
    (store : DocumentStore) : outcome (option Document.t) * DocumentStore :=
  match truthy publicKey with
  | None => (Thrown "No public key available", store)
  | Some _ =>
      match getDocument docId store with
      | None => (Thrown "Document not found", store)
      | Some currentDoc =>
          let currentRevision := parseRevisionId (Document.revisionId currentDoc) in
          let newGeneration := add (generation currentRevision) (Num 1) in
          let revisionId :=
            createRevisionId newGeneration (Some (Document.revisionId currentDoc)) content in
          let tags :=
            createDocumentTags docId revisionId [Document.revisionId currentDoc] false in
          match published with
          | Thrown e => (Thrown e, store)
          | Returned signed =>
              let event := finalizeEvent DOC_KIND content tags signed in
              let '(result, store) := addRevision localeCompare event store in
              if negb (accepted result) then
                (Thrown (match truthy (reason result) with
                         | Some why => why
                         | None => "Revision rejected"
                         end), store)
              else (Returned (getDocument docId store), store)
          end
      end
  end.

End Hook.

End UseNipDb.

(** ** Concrete data on which the properties are instantiated *)

Module Samples.

Import NipDb.

(** One consistent comparator for [localeCompare]: the order of code
    units. *)
Definition codeUnitCompare (a b : string) : number :=
  match String.compare a b with
  | Lt => Num (-1)
  | Eq => Num 0
  | Gt => Num 1
  end.

(** An event of kind [kind] for document ["doc"] with the given event id,
    revision id, parents and content. *)
Definition sampleEvent (kind : Z) (id revisionId : string) (parents : list string)
    (content : string) : Event.t :=
  {| Event.id := id; Event.pubkey := "npub"; Event.created_at := 1700000000;
     Event.kind := kind;
     Event.tags := createDocumentTags "doc" revisionId parents false;
     Event.content := content; Event.sig := "sig" |}.

Definition firstEvent : Event.t := sampleEvent 40001 "e1" "1-aaa" [] "one".
Definition secondEvent : Event.t := sampleEvent 40001 "e2" "2-bbb" ["1-aaa"] "two".
Definition rivalEvent : Event.t := sampleEvent 40001 "e3" "2-ccc" ["1-aaa"] "three".
Definition thirdEvent : Event.t := sampleEvent 40001 "e4" "3-ddd" ["2-bbb"] "four".
(** Well-formed tags, but a kind outside 40000..49999. *)
Definition textNote : Event.t := sampleEvent 1 "e5" "1-aaa" [] "note".

(** What the relay acknowledged for the two events of the scenario. *)
Definition signedHello : UseNipDb.Signed :=
  {| UseNipDb.id := "ea"; UseNipDb.pubkey := "npub";
     UseNipDb.created_at := 1700000000; UseNipDb.sig := "sig-a" |}.
Definition signedWorld : UseNipDb.Signed :=
  {| UseNipDb.id := "eb"; UseNipDb.pubkey := "npub";
     UseNipDb.created_at := 1700000060; UseNipDb.sig := "sig-b" |}.

(** A connected client with nothing pending. *)
Definition idleClient : Relay.Client :=
  {| Relay.ws := Some Relay.OPEN; Relay.pendingChangesRef := None;
     Relay.pendingLastSeqRef := None; Relay.promises := [];
     Relay.sent := []; Relay.timers := [] |}.

Definition fromStart : Relay.ChangesOptions :=
  {| Relay.since := Some 0; Relay.limit := None;
     Relay.kinds := Some [40001]; Relay.authors := Some ["npub"] |}.
Definition fromSeven : Relay.ChangesOptions :=
  {| Relay.since := Some 7; Relay.limit := None;
     Relay.kinds := Some [40001]; Relay.authors := Some ["npub"] |}.

End Samples.

(** ** Lowercase hexadecimal strings *)

Module Hex.

(** One of [0-9a-f]. *)
Definition isHexDigit (c : ascii) : bool :=
  let n := JsString.code c in
  ((48 <=? n) && (n <=? 57)) || ((97 <=? n) && (n <=? 102)).

Fixpoint allHex (s : string) : bool :=
  match s with
  | EmptyString => true
  | String c rest => isHexDigit c && allHex rest
  end.

End Hex.

(** ** [src/hooks/use-nip-db.ts]: deleting a document *)

Module UseNipDbDelete.

Import NipDb UseNipDb.

Section Hook.

Variable localeCompare : string -> string -> number.
Variable publicKey : option string.

(** [deleteDocument(docId)]: a tombstone, published and admitted as an
    update with empty content is.  [published] is how the awaited [publish]
    call ends.  This is the call when no other callback touches the store
    while [publish] is awaited; [UseNipDbAwait.deleteDocument] has the
    general case. *)
Definition deleteDocument (docId : string) (published : outcome Signed)
    (store : DocumentStore) : outcome unit * DocumentStore :=
  match truthy publicKey with
  | None => (Thrown "No public key available", store)
  | Some _ =>
      match getDocument docId store with
      | None => (Thrown "Document not found", store)
      | Some currentDoc =>
          let currentRevision := parseRevisionId (Document.revisionId currentDoc) in
          let newGeneration := add (generation currentRevision) (Num 1) in
          let revisionId :=
            createRevisionId newGeneration (Some (Document.revisionId currentDoc)) "" in
          let tags :=
            createDocumentTags docId revisionId [Document.revisionId currentDoc] true in
          match published with
          | Thrown e => (Thrown e, store)
          | Returned signed =>
              let event := finalizeEvent DOC_KIND "" tags signed in
              let '(result, store) := addRevision localeCompare event store in
              if negb (accepted result) then
                (Thrown (match truthy (reason result) with
                         | Some why => why
                         | None => "Revision rejected"
                         end), store)
              else (Returned tt, store)
          end
      end
  end.

End Hook.

End UseNipDbDelete.

(** ** [src/hooks/use-nip-db.ts]: updating and deleting across the await *)

(** [updateDocument] and [deleteDocument] read the store, then await
    [publish], then write the store.  The store is one object, but other
    callbacks may have changed it while [publish] was awaited: [store] is
    its state when the call is made, [resumed] its state when the awaited
    [publish] settles.  An error thrown before the await leaves [store];
    after it, the state returned is that of the resumed store. *)
Module UseNipDbAwait.

Import NipDb UseNipDb.

Section Hook.

Variable localeCompare : string -> string -> number.
Variable publicKey : option string.

Definition updateDocument (docId content : string) (published : outcome Signed)
    (store resumed : DocumentStore) : outcome (option Document.t) * DocumentStore :=
  match truthy publicKey with
  | None => (Thrown "No public key available", store)
  | Some _ =>
      match getDocument docId store with
      | None => (Thrown "Document not found", store)
      | Some currentDoc =>
          let currentRevision := parseRevisionId (Document.revisionId currentDoc) in
          let newGeneration := add (generation currentRevision) (Num 1) in
          let revisionId :=
            createRevisionId newGeneration (Some (Document.revisionId currentDoc)) content in
          let tags :=
            createDocumentTags docId revisionId [Document.revisionId currentDoc] false in
          match published with
          | Thrown e => (Thrown e, resumed)
          | Returned signed =>
              let event := finalizeEvent DOC_KIND content tags signed in
              let '(result, resumed) := addRevision localeCompare event resumed in
              if negb (accepted result) then
                (Thrown (match truthy (reason result) with
                         | Some why => why
                         | None => "Revision rejected"
                         end), resumed)
              else (Returned (getDocument docId resumed), resumed)
          end
      end
  end.

Definition deleteDocument (docId : string) (published : outcome Signed)
    (store resumed : DocumentStore) : outcome unit * DocumentStore :=
  match truthy publicKey with
  | None => (Thrown "No public key available", store)
  | Some _ =>
      match getDocument docId store with
      | None => (Thrown "Document not found", store)
      | Some currentDoc =>
          let currentRevision := parseRevisionId (Document.revisionId currentDoc) in
          let newGeneration := add (generation currentRevision) (Num 1) in
          let revisionId :=
            createRevisionId newGeneration (Some (Document.revisionId currentDoc)) "" in
          let tags :=
            createDocumentTags docId revisionId [Document.revisionId currentDoc] true in
          match published with
          | Thrown e => (Thrown e, resumed)
          | Returned signed =>
              let event := finalizeEvent DOC_KIND "" tags signed in
              let '(result, resumed) := addRevision localeCompare event resumed in
              if negb (accepted result) then
                (Thrown (match truthy (reason result) with
                         | Some why => why
                         | None => "Revision rejected"
                         end), resumed)
              else (Returned tt, resumed)
          end
      end
  end.

End Hook.

End UseNipDbAwait.

(** ** Sequences of calls on a [DocumentStore] *)

Module StoreCalls.

Import NipDb.

(** One call of a public method that changes the store; for [subscribe],
    [Unsubscribe] is the call of the function it returned. *)
Inductive Call : Type :=
| AddRevision (event : Event.t)
| Subscribe (listener : nat)
| Unsubscribe (listener : nat)
| Clear.

Definition call (localeCompare : string -> string -> number) (c : Call)
    (s : DocumentStore) : DocumentStore :=
  match c with
  | AddRevision event => snd (addRevision localeCompare event s)
  | Subscribe listener => subscribe listener s
  | Unsubscribe listener => unsubscribe listener s
  | Clear => clear s
  end.

(** The store after the calls of [cs], first to last. *)
Definition calls (localeCompare : string -> string -> number) (cs : list Call)
    (s : DocumentStore) : DocumentStore :=
  fold_left (fun s c => call localeCompare c s) cs s.

(** What the fields of a store owe each other: each document is the copy of
    the first revision of its history, the snapshot lists the documents
    that are not deleted, a history has no event twice, and at most one
    revision of a generation. *)
Definition consistent (s : DocumentStore) : Prop :=
  (forall docId,
     getDocument docId s
     = match getRevisions docId s with
       | [] => None
       | winning :: _ => Some (documentOf docId winning)
       end) /\
  cachedDocuments s
  = filter (fun d => negb (Document.deleted d)) (JsMap.values (documents s)) /\
  NoDup (map fst (documents s)) /\
  (forall docId, NoDup (map DocumentRevision.eventId (getRevisions docId s))) /\
  (forall docId a b, In a (getRevisions docId s) -> In b (getRevisions docId s) ->
     strictEq (generation (parseRevisionId (DocumentRevision.revisionId a)))
              (generation (parseRevisionId (DocumentRevision.revisionId b))) = true ->
     a = b).

End StoreCalls.

(** ** [src/hooks/use-nostr-relay.ts]: sockets, subscriptions and publishing *)

Module RelaySession.

(** A subscription of [subscriptionsRef].  The hook passes filters on and
    never looks into them: they are of any type.  A callback is a closure
    of the caller, modelled by a name, as the listeners of the store are. *)
Module Subscription.
Record t {Filter : Type} : Type := mk {
  id : string;
  filters : list Filter;
  onEvent : nat;
  onEose : option nat
}.
Arguments t : clear implicits.
Arguments mk {Filter}.
End Subscription.

Module ChangesSubscription.
Record t : Type := mk {
  id : string;
  onEvent : nat;
  onEose : option nat
}.
End ChangesSubscription.

(** The options of [subscribeChanges]. *)
Record ChangesSubOptions : Type := {
  since : option Z;
  kinds : option (list Z);
  authors : option (list string)
}.

(** The argument of [publish]. *)
Record EventTemplate : Type := {
  kind : Z;
  content : string;
  tags : list (list string);
  created_at : option Z
}.

(** What nostr-tools' [finalizeEvent] computes with the secret key. *)
Record Signature : Type := {
  id : string;
  pubkey : string;
  sig : string
}.

(** [finalizeEvent({...eventTemplate, created_at: eventTemplate.created_at
    ?? Math.floor(Date.now() / 1000)}, sk)], for the clock [now] in
    milliseconds. *)
Definition finalizeEvent (eventTemplate : EventTemplate) (now : Z)
    (signature : Signature) : Event.t :=
  {| Event.id := id signature;
     Event.pubkey := pubkey signature;
     Event.created_at :=
       match created_at eventTemplate with
       | Some t => t
       | None => now / 1000
       end;
     Event.kind := kind eventTemplate;
     Event.tags := tags eventTemplate;
     Event.content := content eventTemplate;
     Event.sig := sig signature |}.

(** What [ws.send] was given, before [JSON.stringify]. *)
Inductive Frame {Filter : Type} : Type :=
| REQ (subId : string) (filters : list Filter)
| CLOSE (subId : string)
| EVENT (event : Event.t)
| CHANGES_SUB (subId : string) (options : ChangesSubOptions)
| CHANGES_UNSUB (subId : string).
Arguments Frame : clear implicits.

(** The relay messages of [handleMessage] other than [CHANGES] and
    [LASTSEQ], which [Relay.handleMessage] has. *)
Module Message.
Inductive t : Type :=
| EVENT (subId : string) (event : Event.t)
| OK (eventId : string) (success : bool) (message : string)
| EOSE (subId : string)
| CLOSED (subId : string) (message : string)
| NOTICE (message : string)
| CHANGES_EVENT (subId : string) (change : Relay.ChangeEntry)
| CHANGES_EOSE (subId : string) (lastSeq : Z).
End Message.

(** A call of a subscriber's callback. *)
Inductive Callback : Type :=
| OnEvent (callback : nat) (event : Event.t)
| OnEose (callback : nat)
| OnChange (callback : nat) (change : Relay.ChangeEntry)
| OnChangesEose (callback : nat) (lastSeq : Z).

Inductive ConnectionState : Type := disconnected | connecting | connected.

(** The refs and the state of the hook.  [sockets] holds the ready state
    of every [WebSocket] the hook created, [wsRef] the index of the current
    one.  A promise of [publish] is its index in [promises]: [None] while
    pending.  [pendingPublishRef] keeps, under the event id, the promise
    and the event that its [resolve] closes over.  [sent], [timers] and
    [called] list what [ws.send], [setTimeout] and the subscribers were
    given, oldest first; [isConnected] is the flag of the key store. *)
Record Session {Filter : Type} : Type := {
  sockets : list Relay.ReadyState;
  wsRef : option nat;
  subscriptionsRef : JsMap.t (Subscription.t Filter);
  changesSubscriptionsRef : JsMap.t ChangesSubscription.t;
  pendingPublishRef : JsMap.t (nat * Event.t);
  promises : list (option (outcome Event.t));
  sent : list (nat * Frame Filter);
  timers : list (Z * (string * nat));
  called : list Callback;
  connectionState : ConnectionState;
  isConnected : bool
}.
Arguments Session : clear implicits.

(** [m.delete(k)] *)
Definition delete {V : Type} (k : string) (m : JsMap.t V) : JsMap.t V :=
  filter (fun entry => negb (String.eqb (fst entry) k)) m.

(** [resolve(v)] or [reject(e)]: only a pending promise changes. *)
Fixpoint settle (p : nat) (v : outcome Event.t) (ps : list (option (outcome Event.t)))
    : list (option (outcome Event.t)) :=
  match ps, p with
  | [], _ => []
  | None :: rest, O => Some v :: rest
  | q :: rest, O => q :: rest
  | q :: rest, S p' => q :: settle p' v rest
  end.

(** The ready state of a socket becomes [state]. *)
Fixpoint setReadyState (i : nat) (state : Relay.ReadyState) (l : list Relay.ReadyState)
    : list Relay.ReadyState :=
  match l, i with
  | [], _ => []
  | _ :: rest, O => state :: rest
  | x :: rest, S i' => x :: setReadyState i' state rest
  end.

Section Hook.

Context {Filter : Type}.

Definition initial : Session Filter :=
  {| sockets := []; wsRef := None; subscriptionsRef := JsMap.empty;
     changesSubscriptionsRef := JsMap.empty; pendingPublishRef := JsMap.empty;
     promises := []; sent := []; timers := []; called := [];
     connectionState := disconnected; isConnected := false |}.

Definition withSockets (s : Session Filter) (l : list Relay.ReadyState) (current : option nat)
    : Session Filter :=
  {| sockets := l; wsRef := current; subscriptionsRef := subscriptionsRef s;
     changesSubscriptionsRef := changesSubscriptionsRef s;
     pendingPublishRef := pendingPublishRef s; promises := promises s;
     sent := sent s; timers := timers s; called := called s;
     connectionState := connectionState s; isConnected := isConnected s |}.

Definition withSubscriptions (s : Session Filter) (m : JsMap.t (Subscription.t Filter))
    : Session Filter :=
  {| sockets := sockets s; wsRef := wsRef s; subscriptionsRef := m;
     changesSubscriptionsRef := changesSubscriptionsRef s;
     pendingPublishRef := pendingPublishRef s; promises := promises s;
     sent := sent s; timers := timers s; called := called s;
     connectionState := connectionState s; isConnected := isConnected s |}.

Definition withChangesSubscriptions (s : Session Filter) (m : JsMap.t ChangesSubscription.t)
    : Session Filter :=
  {| sockets := sockets s; wsRef := wsRef s; subscriptionsRef := subscriptionsRef s;
     changesSubscriptionsRef := m;
     pendingPublishRef := pendingPublishRef s; promises := promises s;
     sent := sent s; timers := timers s; called := called s;
     connectionState := connectionState s; isConnected := isConnected s |}.

Definition withPublishes (s : Session Filter) (m : JsMap.t (nat * Event.t))
    (ps : list (option (outcome Event.t))) : Session Filter :=
  {| sockets := sockets s; wsRef := wsRef s; subscriptionsRef := subscriptionsRef s;
     changesSubscriptionsRef := changesSubscriptionsRef s;
     pendingPublishRef := m; promises := ps;
     sent := sent s; timers := timers s; called := called s;
     connectionState := connectionState s; isConnected := isConnected s |}.

Definition withSent (s : Session Filter) (frames : list (nat * Frame Filter)) : Session Filter :=
  {| sockets := sockets s; wsRef := wsRef s; subscriptionsRef := subscriptionsRef s;
     changesSubscriptionsRef := changesSubscriptionsRef s;
     pendingPublishRef := pendingPublishRef s; promises := promises s;
     sent := frames; timers := timers s; called := called s;
     connectionState := connectionState s; isConnected := isConnected s |}.

Definition withTimers (s : Session Filter) (l : list (Z * (string * nat))) : Session Filter :=
  {| sockets := sockets s; wsRef := wsRef s; subscriptionsRef := subscriptionsRef s;
     changesSubscriptionsRef := changesSubscriptionsRef s;
     pendingPublishRef := pendingPublishRef s; promises := promises s;
     sent := sent s; timers := l; called := called s;
     connectionState := connectionState s; isConnected := isConnected s |}.

Definition withCalled (s : Session Filter) (l : list Callback) : Session Filter :=
  {| sockets := sockets s; wsRef := wsRef s; subscriptionsRef := subscriptionsRef s;
     changesSubscriptionsRef := changesSubscriptionsRef s;
     pendingPublishRef := pendingPublishRef s; promises := promises s;
     sent := sent s; timers := timers s; called := l;
     connectionState := connectionState s; isConnected := isConnected s |}.

Definition withConnection (s : Session Filter) (state : ConnectionState) (flag : bool)
    : Session Filter :=
  {| sockets := sockets s; wsRef := wsRef s; subscriptionsRef := subscriptionsRef s;
     changesSubscriptionsRef := changesSubscriptionsRef s;
     pendingPublishRef := pendingPublishRef s; promises := promises s;
     sent := sent s; timers := timers s; called := called s;
     connectionState := state; isConnected := flag |}.

(** [wsRef.current?.readyState === WebSocket.OPEN] *)
Definition isOpen (s : Session Filter) : bool :=
  match wsRef s with
  | Some i =>
      match nth_error (sockets s) i with
      | Some Relay.OPEN => true
      | _ => false
      end
  | None => false
  end.

(** [wsRef.current.send(frame)] *)
Definition send (frame : Frame Filter) (s : Session Filter) : Session Filter :=
  match wsRef s with
  | Some i => withSent s (sent s ++ [(i, frame)])
  | None => s
  end.

(** [connect()]: a new socket unless the current one is open; a socket
    that is still connecting is left as it is and replaced. *)
Definition connect (s : Session Filter) : Session Filter :=
  if isOpen s then s
  else
    let s := withConnection s connecting (isConnected s) in
    withSockets s (sockets s ++ [Relay.CONNECTING]) (Some (List.length (sockets s))).

(** [ws.onopen] of the socket [i]: the requests go to that socket. *)
Definition onopen (i : nat) (s : Session Filter) : Session Filter :=
  let s := withConnection s connected true in
  withSent s
    (sent s ++ map (fun sub => (i, REQ (Subscription.id sub) (Subscription.filters sub)))
                   (JsMap.values (subscriptionsRef s))).

(** [ws.onclose] *)
Definition onclose (s : Session Filter) : Session Filter :=
  withConnection s disconnected false.

(** [ws.close()] on the socket [i]. *)
Definition close (i : nat) (l : list Relay.ReadyState) : list Relay.ReadyState :=
  match nth_error l i with
  | Some Relay.CONNECTING | Some Relay.OPEN => setReadyState i Relay.CLOSING l
  | _ => l
  end.

Definition disconnect (s : Session Filter) : Session Filter :=
  match wsRef s with
  | Some i => withSockets s (close i (sockets s)) None
  | None => s
  end.

Definition subscribe (subId : string) (filters : list Filter) (onEvent : nat)
    (onEose : option nat) (s : Session Filter) : Session Filter :=
  let sub := Subscription.mk subId filters onEvent onEose in
  let s := withSubscriptions s (JsMap.set subId sub (subscriptionsRef s)) in
  if isOpen s then send (REQ subId filters) s else s.

(** The function that [subscribe] returned. *)
Definition unsubscribe (subId : string) (s : Session Filter) : Session Filter :=
  let s := withSubscriptions s (delete subId (subscriptionsRef s)) in
  if isOpen s then send (CLOSE subId) s else s.

Definition subscribeChanges (subId : string) (options : ChangesSubOptions) (onEvent : nat)
    (onEose : option nat) (s : Session Filter) : Session Filter :=
  let sub := ChangesSubscription.mk subId onEvent onEose in
  let s := withChangesSubscriptions s (JsMap.set subId sub (changesSubscriptionsRef s)) in
  if isOpen s then send (CHANGES_SUB subId options) s else s.

(** The function that [subscribeChanges] returned. *)
Definition unsubscribeChanges (subId : string) (s : Session Filter) : Session Filter :=
  let s := withChangesSubscriptions s (delete subId (changesSubscriptionsRef s)) in
  if isOpen s then send (CHANGES_UNSUB subId) s else s.

(** [publish(eventTemplate)]: the promise it returns, or the error it
    throws before creating one.  [sk] is what [getSecretKeyBytes()]
    returns. *)
Definition publish (eventTemplate : EventTemplate) (sk : option (list Z)) (now : Z)
    (signature : Signature) (s : Session Filter) : outcome nat * Session Filter :=
  match sk with
  | None => (Thrown "No secret key available", s)
  | Some _ =>
      let event := finalizeEvent eventTemplate now signature in
      if negb (isOpen s) then (Thrown "Not connected to relay", s)
      else
        let promise := List.length (promises s) in
        let s :=
          withPublishes s
            (JsMap.set (Event.id event) (promise, event) (pendingPublishRef s))
            (promises s ++ [None]) in
        let s := send (EVENT event) s in
        (Returned promise,
         withTimers s (timers s ++ [(10000, (Event.id event, promise))]))
  end.

(** The callback that [publish] gave to [setTimeout]. *)
Definition publishTimeout (eventId : string) (promise : nat) (s : Session Filter)
    : Session Filter :=
  if JsMap.has eventId (pendingPublishRef s) then
    withPublishes s (delete eventId (pendingPublishRef s))
      (settle promise (Thrown "Publish timeout") (promises s))
  else s.

Definition handleMessage (data : Message.t) (s : Session Filter) : Session Filter :=
  match data with
  | Message.EVENT subId event =>
      match JsMap.get subId (subscriptionsRef s) with
      | Some sub => withCalled s (called s ++ [OnEvent (Subscription.onEvent sub) event])
      | None => s
      end
  | Message.OK eventId success message =>
      match JsMap.get eventId (pendingPublishRef s) with
      | Some (promise, event) =>
          withPublishes s (delete eventId (pendingPublishRef s))
            (settle promise (if success then Returned event else Thrown message)
                    (promises s))
      | None => s
      end
  | Message.EOSE subId =>
      match JsMap.get subId (subscriptionsRef s) with
      | Some sub =>
          match Subscription.onEose sub with
          | Some callback => withCalled s (called s ++ [OnEose callback])
          | None => s
          end
      | None => s
      end
  | Message.CLOSED subId _ =>
      withSubscriptions s (delete subId (subscriptionsRef s))
  | Message.NOTICE _ => s
  | Message.CHANGES_EVENT subId change =>
      match JsMap.get subId (changesSubscriptionsRef s) with
      | Some sub =>
          withCalled s (called s ++ [OnChange (ChangesSubscription.onEvent sub) change])
      | None => s
      end
  | Message.CHANGES_EOSE subId lastSeq =>
      match JsMap.get subId (changesSubscriptionsRef s) with
      | Some sub =>
          match ChangesSubscription.onEose sub with
          | Some callback => withCalled s (called s ++ [OnChangesEose callback lastSeq])
          | None => s
          end
      | None => s
      end
  end.

(** What happens to a session: a call of the hook's functions, or an
    event of the browser.  A socket opens only while it is connecting, a
    message arrives only on an open socket, a socket closes once, and a
    timeout fires only when [setTimeout] was given it. *)
Inductive Action : Type :=
| Connect
| Disconnect
| Subscribe (subId : string) (filters : list Filter) (onEvent : nat) (onEose : option nat)
| Unsubscribe (subId : string)
| SubscribeChanges (subId : string) (options : ChangesSubOptions) (onEvent : nat)
    (onEose : option nat)
| UnsubscribeChanges (subId : string)
| Publish (eventTemplate : EventTemplate) (sk : option (list Z)) (now : Z)
    (signature : Signature)
| Opened (socket : nat)
| Closed (socket : nat)
| Received (socket : nat) (data : Message.t)
| TimedOut (eventId : string) (promise : nat).

Definition step (a : Action) (s : Session Filter) : Session Filter :=
  match a with
  | Connect => connect s
  | Disconnect => disconnect s
  | Subscribe subId filters onEvent onEose => subscribe subId filters onEvent onEose s
  | Unsubscribe subId => unsubscribe subId s
  | SubscribeChanges subId options onEvent onEose =>
      subscribeChanges subId options onEvent onEose s
  | UnsubscribeChanges subId => unsubscribeChanges subId s
  | Publish eventTemplate sk now signature =>
      snd (publish eventTemplate sk now signature s)
  | Opened i =>
      match nth_error (sockets s) i with
      | Some Relay.CONNECTING =>
          onopen i (withSockets s (setReadyState i Relay.OPEN (sockets s)) (wsRef s))
      | _ => s
      end
  | Closed i =>
      match nth_error (sockets s) i with
      | Some Relay.CLOSED | None => s
      | Some _ =>
          onclose (withSockets s (setReadyState i Relay.CLOSED (sockets s)) (wsRef s))
      end
  | Received i data =>
      match nth_error (sockets s) i with
      | Some Relay.OPEN => handleMessage data s
      | _ => s
      end
  | TimedOut eventId promise =>
      if existsb (fun t => String.eqb (fst (snd t)) eventId && Nat.eqb (snd (snd t)) promise)
                 (timers s)
      then publishTimeout eventId promise s
      else s
  end.

(** The session after the actions of [actions], first to last. *)
Definition run (actions : list Action) (s : Session Filter) : Session Filter :=
  fold_left (fun s a => step a s) actions s.

End Hook.

End RelaySession.

(** * Properties *)

Import JsString NipDb.

(** ** The primitives on known values *)

Example sha256_of_abc :
  sha256Hex "abc" = "ba7816bf8f01cfea414140de5dae2223b00361a396177a9cb410ff61f20015ad".
Proof. vm_compute. reflexivity. Qed.

Example sha256_of_two_blocks :
  sha256Hex "abcdbcdecdefdefgefghfghighijhijkijkljklmklmnlmnomnopnopq"
  = "248d6a61d20638b8e5c026930c3e6039a33ce45964ff2167f6ecedd419db06c1".
Proof. vm_compute. reflexivity. Qed.

Example sha256_of_hello :
  sha256Hex "hello" = "2cf24dba5fb0a30e26e83b2ac5b9e29e1b161e5c1fa7425e73043362938b9824".
Proof. vm_compute. reflexivity. Qed.

Example parseInt_samples :
  map parseInt ["12"; " 12"; "+12x"; "-12"; "x12"; ""; "0012"; "9007199254740993"]
  = [Num 12; Num 12; Num 12; Num (-12); NaN; NaN; Num 12; Num 9007199254740992].
Proof. vm_compute. reflexivity. Qed.

Example toString_samples :
  map toString [Num 40001; Num (-7); NaN; Num (2 ^ 60); Num (2 ^ 70); toDouble (10 ^ 21)]
  = ["40001"; "-7"; "NaN"; "1152921504606847000"; "1.1805916207174113e+21"; "1e+21"].
Proof. vm_compute. reflexivity. Qed.

Example split_samples :
  map (split "-") ["2-ab-cd"; ""; "-5-abc"; "abc"]
  = [["2"; "ab"; "cd"]; [""]; [""; "5"; "abc"]; ["abc"]].
Proof. vm_compute. reflexivity. Qed.

(** ** Maps *)

Lemma get_set_same {V : Type} (k : string) (v : V) (m : JsMap.t V) :
  JsMap.get k (JsMap.set k v m) = Some v.
Proof.
  induction m as [| [k' v'] rest IH]; simpl.
  - now rewrite String.eqb_refl.
  - destruct (String.eqb k' k) eqn:E; simpl.
    + now rewrite String.eqb_refl.
    + now rewrite E.
Qed.

Lemma get_set_other {V : Type} (k k0 : string) (v : V) (m : JsMap.t V) :
  k0 <> k -> JsMap.get k0 (JsMap.set k v m) = JsMap.get k0 m.
Proof.
  intros Hne.
  induction m as [| [k' v'] rest IH]; simpl.
  - destruct (String.eqb k k0) eqn:E; [| reflexivity].
    apply String.eqb_eq in E. congruence.
  - destruct (String.eqb k' k) eqn:E; simpl.
    + apply String.eqb_eq in E. subst k'.
      destruct (String.eqb k k0) eqn:E0; [| reflexivity].
      apply String.eqb_eq in E0. congruence.
    + now rewrite IH.
Qed.

Lemma set_set {V : Type} (k : string) (v w : V) (m : JsMap.t V) :
  JsMap.set k w (JsMap.set k v m) = JsMap.set k w m.
Proof.
  induction m as [| [k' v'] rest IH]; simpl.
  - now rewrite String.eqb_refl.
  - destruct (String.eqb k' k) eqn:E; simpl.
    + now rewrite String.eqb_refl.
    + now rewrite E, IH.
Qed.

(** ** Sorting keeps the elements *)

Lemma insert_perm {A : Type} (cmp : A -> A -> number) (x : A) (l : list A) :
  Permutation (x :: l) (insert cmp x l).
Proof.
  induction l as [| y rest IH]; simpl; [reflexivity |].
  destruct (sign (cmp x y)); try reflexivity.
  rewrite perm_swap. now constructor.
Qed.

Lemma sort_perm {A : Type} (cmp : A -> A -> number) (l : list A) :
  Permutation l (sort cmp l).
Proof.
  induction l as [| x rest IH]; simpl; [constructor |].
  rewrite <- insert_perm. now constructor.
Qed.

Lemma sort_in {A : Type} (cmp : A -> A -> number) (l : list A) (x : A) :
  In x l -> In x (sort cmp l).
Proof. apply Permutation_in, sort_perm. Qed.

(** ** The three ways [addRevision] ends for a well-formed event *)

Section Admission.

Variable localeCompare : string -> string -> number.

Variables (event : Event.t) (revision : DocumentRevision.t) (dTag : string)
          (s : DocumentStore).
Hypothesis Hrevision : eventToRevision event = Some revision.
Hypothesis HdTag : truthy (findTagValue "d" (Event.tags event)) = Some dTag.

Let history := getRevisions dTag s.
Let known :=
  existsb (fun r => String.eqb (DocumentRevision.eventId r) (Event.id event)) history.
Let referenced := referencedRevisions history revision.
Let newParsed := parseRevisionId (DocumentRevision.revisionId revision).

Lemma addRevision_known :
  known = true ->
  addRevision localeCompare event s = ({| accepted := true; reason := None |}, s).
Proof.
  subst known history. unfold getRevisions, addRevision, JsMap.has.
  rewrite Hrevision, HdTag.
  destruct (JsMap.get dTag (revisions s)) as [l |] eqn:G; simpl.
  - rewrite G. now intros ->.
  - discriminate.
Qed.

Lemma addRevision_rejected (why : string) :
  known = false ->
  conflictReason dTag referenced newParsed history = Some why ->
  addRevision localeCompare event s = ({| accepted := false; reason := Some why |}, s).
Proof.
  subst known referenced newParsed history. unfold getRevisions, addRevision, JsMap.has.
  rewrite Hrevision, HdTag.
  destruct (JsMap.get dTag (revisions s)) as [l |] eqn:G; simpl.
  - rewrite G. now intros -> ->.
  - discriminate.
Qed.

Lemma addRevision_admitted :
  known = false ->
  conflictReason dTag referenced newParsed history = None ->
  let filtered :=
    sort (compareRevisions localeCompare)
         (filter (survives referenced newParsed) history ++ [revision]) in
  exists winning rest s',
    filtered = winning :: rest /\
    addRevision localeCompare event s = ({| accepted := true; reason := None |}, s') /\
    revisions s' = JsMap.set dTag filtered (revisions s) /\
    documents s' = JsMap.set dTag (documentOf dTag winning) (documents s) /\
    listeners s' = listeners s /\
    cachedDocuments s' =
      filter (fun d => negb (Document.deleted d)) (JsMap.values (documents s')) /\
    invoked s' = (invoked s ++ listeners s)%list.
Proof.
  intros Hk Hc filtered.
  assert (Hne : exists winning rest, filtered = winning :: rest).
  { destruct filtered as [| w r] eqn:E; [| now eauto].
    exfalso. subst filtered.
    assert (Hin : In revision []).
    { rewrite <- E. apply sort_in, in_or_app. right. now left. }
    destruct Hin. }
  destruct Hne as (winning & rest & Hf).
  exists winning, rest.
  subst known referenced newParsed history. unfold getRevisions in *.
  unfold addRevision, JsMap.has. rewrite Hrevision, HdTag.
  destruct (JsMap.get dTag (revisions s)) as [l |] eqn:G; simpl.
  - rewrite G, Hk, Hc. unfold buildDocument, selectWinningRevision.
    fold filtered. rewrite Hf.
    destruct (filter _ l ++ [revision])%list eqn:E.
    { now destruct (filter (survives (referencedRevisions l revision)
                       (parseRevisionId (DocumentRevision.revisionId revision))) l). }
    simpl. eexists. repeat split.
  - rewrite get_set_same. subst filtered. simpl in *.
    injection Hf as <- <-.
    eexists. repeat split. simpl. now rewrite set_set.
Qed.

End Admission.

Lemma eventToRevision_eventId (event : Event.t) (revision : DocumentRevision.t) :
  eventToRevision event = Some revision ->
  DocumentRevision.eventId revision = Event.id event.
Proof.
  unfold eventToRevision.
  destruct ((Event.kind event <? 40000) || (50000 <=? Event.kind event)); [discriminate |].
  destruct (truthy (findTagValue "d" (Event.tags event))); [| discriminate].
  destruct (truthy (findTagValue "i" (Event.tags event))); [| discriminate].
  now intros [= <-].
Qed.

(** The rejection by the conflict loop needs a history: an empty one rejects
    nothing. *)
Lemma addRevision_cases (lc : string -> string -> number) (event : Event.t)
    (s : DocumentStore) :
  (exists why, addRevision lc event s = ({| accepted := false; reason := Some why |}, s))
  \/ addRevision lc event s = ({| accepted := true; reason := None |}, s)
  \/ (exists revision dTag s',
        eventToRevision event = Some revision /\
        truthy (findTagValue "d" (Event.tags event)) = Some dTag /\
        addRevision lc event s = ({| accepted := true; reason := None |}, s') /\
        In revision (getRevisions dTag s') /\
        invoked s' = (invoked s ++ listeners s)%list).
Proof.
  destruct (eventToRevision event) as [revision |] eqn:Hrev.
  2: { left. exists "Invalid event format". unfold addRevision. now rewrite Hrev. }
  destruct (truthy (findTagValue "d" (Event.tags event))) as [dTag |] eqn:Hd.
  2: { left. exists "Missing document ID (d tag)". unfold addRevision. now rewrite Hrev, Hd. }
  destruct (existsb (fun r => String.eqb (DocumentRevision.eventId r) (Event.id event))
                    (getRevisions dTag s)) eqn:Hk.
  { right. left. now apply (addRevision_known lc event revision dTag s). }
  destruct (conflictReason dTag (referencedRevisions (getRevisions dTag s) revision)
              (parseRevisionId (DocumentRevision.revisionId revision))
              (getRevisions dTag s)) as [why |] eqn:Hc.
  { left. exists why. now apply (addRevision_rejected lc event revision dTag s). }
  right. right.
  destruct (addRevision_admitted lc event revision dTag s Hrev Hd Hk Hc)
    as (winning & rest & s' & Hf & Hadd & Hrevs & _ & _ & _ & Hinv).
  exists revision, dTag, s'. repeat split; trivial.
  unfold getRevisions. rewrite Hrevs, get_set_same.
  apply sort_in, in_or_app. right. now left.
Qed.

(** ** Admission *)

(** C10. [addRevision] rejects every event whose kind is below 40000 or at
    least 50000 with the reason "Invalid event format" and returns the store
    as it was, whatever the tags of the event are. *)
Theorem kind_out_of_range_is_rejected :
  forall (lc : string -> string -> number) (event : Event.t) (s : DocumentStore),
    Event.kind event < 40000 \/ 50000 <= Event.kind event ->
    addRevision lc event s
    = ({| accepted := false; reason := Some "Invalid event format" |}, s).
Proof.
  intros lc event s Hkind. unfold addRevision, eventToRevision.
  replace ((Event.kind event <? 40000) || (50000 <=? Event.kind event)) with true;
    [reflexivity |].
  symmetry. apply orb_true_iff.
  destruct Hkind; [left; now apply Z.ltb_lt | right; now apply Z.leb_le].
Qed.

Lemma kind_out_of_range_is_rejected_witness :
  (Event.kind Samples.textNote < 40000 \/ 50000 <= Event.kind Samples.textNote) /\
  findTagValue "d" (Event.tags Samples.textNote) = Some "doc" /\
  findTagValue "i" (Event.tags Samples.textNote) = Some "1-aaa" /\
  addRevision Samples.codeUnitCompare Samples.textNote newStore
  = ({| accepted := false; reason := Some "Invalid event format" |}, newStore).
Proof.
  assert (H : Event.kind Samples.textNote < 40000 \/ 50000 <= Event.kind Samples.textNote)
    by (left; reflexivity).
  split; [exact H |]. split; [reflexivity |]. split; [reflexivity |].
  exact (kind_out_of_range_is_rejected _ _ _ H).
Defined.

(** C6. When [addRevision] answers [accepted: false] the store is the one it
    was given: every document and every history reads as before, no listener
    was called, and the rejection is a returned value with its reason. *)
Theorem rejection_leaves_store_untouched :
  forall (lc : string -> string -> number) (event : Event.t) (s s' : DocumentStore)
         (result : AddResult),
    addRevision lc event s = (result, s') ->
    accepted result = false ->
    s' = s /\
    (forall docId, getDocument docId s' = getDocument docId s /\
                   getRevisions docId s' = getRevisions docId s) /\
    invoked s' = invoked s /\
    cachedDocuments s' = cachedDocuments s /\
    exists why, reason result = Some why.
Proof.
  intros lc event s s' result Hadd Hrej.
  assert (Hs : s' = s /\ exists why, reason result = Some why).
  { destruct (addRevision_cases lc event s)
      as [[why H] | [H | (revision & dTag & s1 & _ & _ & H & _)]];
      rewrite H in Hadd; injection Hadd as <- <-; simpl in *;
      try discriminate.
    split; [reflexivity | now exists why]. }
  destruct Hs as [-> Hwhy]. repeat split; trivial.
Qed.

Lemma rejection_leaves_store_untouched_witness :
  let lc := Samples.codeUnitCompare in
  let s := admitAll lc [Samples.firstEvent; Samples.rivalEvent] newStore in
  let answer := addRevision lc Samples.secondEvent s in
  accepted (fst answer) = false /\
  snd answer = s /\
  getRevisions "doc" (snd answer) = getRevisions "doc" s /\
  invoked (snd answer) = invoked s.
Proof.
  intros lc s answer.
  assert (Hrej : accepted (fst answer) = false) by reflexivity.
  destruct (rejection_leaves_store_untouched lc Samples.secondEvent s
              (snd answer) (fst answer) (surjective_pairing answer) Hrej)
    as (Hsame & Hread & Hcalls & _).
  split; [exact Hrej |]. split; [exact Hsame |].
  split; [exact (proj2 (Hread "doc")) | exact Hcalls].
Defined.

(** C3, as the code has it. Giving the same event to [addRevision] twice
    leaves the store (documents, histories, snapshot, listener calls) as the
    first call left it.  When the first call accepted the event, the second
    finds its event id in the history and answers [accepted: true] without
    touching anything; when the first call rejected it, the second rejects it
    again with the same reason. *)
Theorem addRevision_twice :
  forall (lc : string -> string -> number) (event : Event.t) (s : DocumentStore),
    let first := addRevision lc event s in
    let second := addRevision lc event (snd first) in
    snd second = snd first /\
    (accepted (fst first) = true ->
       fst second = {| accepted := true; reason := None |} /\
       existsb (fun r => String.eqb (DocumentRevision.eventId r) (Event.id event))
               (match truthy (findTagValue "d" (Event.tags event)) with
                | Some dTag => getRevisions dTag (snd first)
                | None => []
                end) = true) /\
    (accepted (fst first) = false -> fst second = fst first).
Proof.
  intros lc event s first second. subst second first.
  destruct (addRevision_cases lc event s)
    as [[why H] | [H | (revision & dTag & s1 & Hrev & Hd & H & Hin & _)]].
  - rewrite H. simpl. rewrite H. simpl. repeat split; discriminate || trivial.
  - rewrite H. simpl. rewrite H. simpl. split; [reflexivity |].
    split; [| discriminate]. intros _. split; [reflexivity |].
    (* accepted without a change: the event was known already *)
    unfold addRevision in H.
    destruct (eventToRevision event) as [revision |] eqn:Hrev; [| discriminate].
    destruct (truthy (findTagValue "d" (Event.tags event))) as [dTag |] eqn:Hd;
      [| discriminate].
    destruct (existsb (fun r => String.eqb (DocumentRevision.eventId r) (Event.id event))
                      (getRevisions dTag s)) eqn:Hk; [reflexivity |].
    exfalso.
    destruct (conflictReason dTag (referencedRevisions (getRevisions dTag s) revision)
                (parseRevisionId (DocumentRevision.revisionId revision))
                (getRevisions dTag s)) as [why |] eqn:Hc.
    + pose proof (addRevision_rejected lc event revision dTag s Hrev Hd why Hk Hc) as R.
      unfold addRevision in R. rewrite Hrev, Hd in R. rewrite R in H. discriminate.
    + destruct (addRevision_admitted lc event revision dTag s Hrev Hd Hk Hc)
        as (winning & rest & s' & Hf & Hadd & Hrevs & _ & _ & _ & _).
      unfold addRevision in Hadd. rewrite Hrev, Hd in Hadd. rewrite Hadd in H.
      injection H as ->.
      unfold getRevisions in Hk. rewrite Hrevs, get_set_same in Hk.
      fold (getRevisions dTag s) in Hk.
      assert (Hin : In revision
                (sort (compareRevisions lc)
                   (filter (survives (referencedRevisions (getRevisions dTag s) revision)
                              (parseRevisionId (DocumentRevision.revisionId revision)))
                           (getRevisions dTag s) ++ [revision]))).
      { apply sort_in, in_or_app. right. now left. }
      assert (Hex : existsb
                (fun r => String.eqb (DocumentRevision.eventId r) (Event.id event))
                (sort (compareRevisions lc)
                   (filter (survives (referencedRevisions (getRevisions dTag s) revision)
                              (parseRevisionId (DocumentRevision.revisionId revision)))
                           (getRevisions dTag s) ++ [revision])) = true).
      { apply existsb_exists. exists revision. split; [exact Hin |].
        rewrite (eventToRevision_eventId _ _ Hrev). apply String.eqb_refl. }
      congruence.
  - rewrite H. simpl.
    assert (Hk : existsb
              (fun r => String.eqb (DocumentRevision.eventId r) (Event.id event))
              (getRevisions dTag s1) = true).
    { apply existsb_exists. exists revision. split; [exact Hin |].
      rewrite (eventToRevision_eventId _ _ Hrev). apply String.eqb_refl. }
    rewrite (addRevision_known lc event revision dTag s1 Hrev Hd Hk). simpl.
    rewrite Hd. split; [reflexivity |]. split; [| discriminate].
    intros _. split; [reflexivity | exact Hk].
Qed.

(** C3, as stated, fails on an event that [addRevision] rejects: the second
    call is rejected as the first was, under every collation. *)
Lemma second_call_of_rejected_event_is_rejected :
  ~ exists lc : string -> string -> number,
      accepted (fst (addRevision lc Samples.textNote
                       (snd (addRevision lc Samples.textNote newStore)))) = true.
Proof. intros [lc H]. vm_compute in H. discriminate. Qed.

Lemma addRevision_twice_witness :
  let lc := Samples.codeUnitCompare in
  let first := addRevision lc Samples.firstEvent newStore in
  let second := addRevision lc Samples.firstEvent (snd first) in
  accepted (fst first) = true /\
  snd second = snd first /\
  fst second = {| accepted := true; reason := None |} /\
  List.length (getRevisions "doc" (snd second)) = 1%nat.
Proof.
  intros lc first second.
  destruct (addRevision_twice lc Samples.firstEvent newStore) as (Hsame & Hacc & _).
  fold first in Hsame, Hacc. fold second in Hsame, Hacc.
  split; [reflexivity |]. split; [exact Hsame |].
  split; [exact (proj1 (Hacc eq_refl)) |].
  rewrite Hsame. reflexivity.
Defined.

(** ** The referenced set *)

Lemma optionEqb_eq (a b : option string) : optionEqb a b = true <-> a = b.
Proof.
  destruct a as [x |], b as [y |]; simpl; split; try congruence; try reflexivity.
  - intros H. apply String.eqb_eq in H. now subst.
  - intros [= ->]. apply String.eqb_refl.
Qed.

Lemma setHas_in (x : option string) (l : list (option string)) :
  setHas x l = true <-> In x l.
Proof.
  unfold setHas. rewrite existsb_exists. split.
  - intros (y & Hin & Heq). apply optionEqb_eq in Heq. now subst.
  - intros Hin. exists x. split; [exact Hin | now apply optionEqb_eq].
Qed.

Lemma in_setAdd (x y : option string) (l : list (option string)) :
  In x (setAdd l y) <-> In x l \/ x = y.
Proof.
  unfold setAdd. destruct (setHas y l) eqn:E.
  - apply setHas_in in E. split; [now left | intros [H | ->]; trivial].
  - rewrite in_app_iff. simpl. intuition congruence.
Qed.

Lemma in_fold_setAdd (x : option string) (l acc : list (option string)) :
  In x (fold_left setAdd l acc) <-> In x acc \/ In x l.
Proof.
  revert acc. induction l as [| y rest IH]; intros acc; simpl.
  - intuition.
  - rewrite IH, in_setAdd. intuition congruence.
Qed.

Lemma in_referencedRevisions (x : option string) (history : list DocumentRevision.t)
    (revision : DocumentRevision.t) :
  In x (referencedRevisions history revision) <->
  (exists existing, In existing history /\
                    In x (DocumentRevision.prevRevisionIds existing))
  \/ In x (DocumentRevision.prevRevisionIds revision).
Proof.
  unfold referencedRevisions. rewrite in_fold_setAdd.
  assert (H : forall acc,
             In x (fold_left
                     (fun acc existing =>
                        fold_left setAdd (DocumentRevision.prevRevisionIds existing) acc)
                     history acc) <->
             In x acc \/
             exists existing, In existing history /\
                              In x (DocumentRevision.prevRevisionIds existing)).
  { induction history as [| e rest IH]; intros acc; simpl.
    - split; [now left | intros [H | (e & [] & _)]; exact H].
    - rewrite IH, in_fold_setAdd. split.
      + intros [[H | H] | (c & Hc & Hx)]; [now left | right; exists e; auto |].
        right. exists c. auto.
      + intros [H | (c & [-> | Hc] & Hx)]; [left; now left | left; now right |].
        right. exists c. auto. }
  rewrite H. simpl. intuition.
Qed.

(** A generation-mate that is referenced makes the conflict loop return a
    reason, whatever the hashes are. *)
Lemma conflictReason_referenced (dTag : string) (referenced : list (option string))
    (newParsed : RevisionId) (history : list DocumentRevision.t)
    (existing : DocumentRevision.t) :
  In existing history ->
  strictEq (generation (parseRevisionId (DocumentRevision.revisionId existing)))
           (generation newParsed) = true ->
  setHas (Some (DocumentRevision.revisionId existing)) referenced = true ->
  exists why, conflictReason dTag referenced newParsed history = Some why.
Proof.
  intros Hin Hgen Href.
  induction history as [| e rest IH]; [destruct Hin |].
  simpl. destruct Hin as [-> | Hin].
  - rewrite Hgen, Href. eauto.
  - destruct (strictEq (generation (parseRevisionId (DocumentRevision.revisionId e)))
                       (generation newParsed)); [| now apply IH].
    destruct (setHas (Some (DocumentRevision.revisionId e)) referenced); [eauto |].
    destruct (gt (hash (parseRevisionId (DocumentRevision.revisionId e)))
                 (hash newParsed)); [eauto | now apply IH].
Qed.

(** C2, as the code has it. An event that is new to the history of its
    document (no stored revision has its event id) is rejected, and the store
    is left as it was, as soon as the history holds a revision of the same
    generation whose revision id is a parent of a stored revision or of the
    new revision; the hashes play no part.  So once the history holds R2 and
    a generation-3 revision citing R2, every new generation-2 event is
    rejected. *)
Theorem referenced_generation_mate_rejects :
  forall (lc : string -> string -> number) (event : Event.t) (s : DocumentStore)
         (n e : DocumentRevision.t) (dTag : string),
    eventToRevision event = Some n ->
    truthy (findTagValue "d" (Event.tags event)) = Some dTag ->
    existsb (fun r => String.eqb (DocumentRevision.eventId r) (Event.id event))
            (getRevisions dTag s) = false ->
    In e (getRevisions dTag s) ->
    strictEq (generation (parseRevisionId (DocumentRevision.revisionId e)))
             (generation (parseRevisionId (DocumentRevision.revisionId n))) = true ->
    ((exists child, In child (getRevisions dTag s) /\
                    In (Some (DocumentRevision.revisionId e))
                       (DocumentRevision.prevRevisionIds child))
     \/ In (Some (DocumentRevision.revisionId e)) (DocumentRevision.prevRevisionIds n)) ->
    exists why,
      addRevision lc event s = ({| accepted := false; reason := Some why |}, s).
Proof.
  intros lc event s n e dTag Hrev Hd Hnew Hin Hgen Href.
  apply in_referencedRevisions, setHas_in in Href.
  destruct (conflictReason_referenced dTag _ _ _ e Hin Hgen Href) as [why Hwhy].
  exists why. now apply (addRevision_rejected lc event n dTag s).
Qed.

Lemma referenced_generation_mate_rejects_witness :
  let lc := Samples.codeUnitCompare in
  let s := admitAll lc
             [Samples.firstEvent; Samples.secondEvent; Samples.thirdEvent] newStore in
  map DocumentRevision.revisionId (getRevisions "doc" s) = ["3-ddd"; "2-bbb"; "1-aaa"] /\
  gt "ccc" "bbb" = true /\
  exists why,
    addRevision lc Samples.rivalEvent s = ({| accepted := false; reason := Some why |}, s).
Proof.
  intros lc s. split; [reflexivity |]. split; [reflexivity |].
  eapply (referenced_generation_mate_rejects lc Samples.rivalEvent s _ _ "doc").
  - vm_compute. reflexivity.
  - reflexivity.
  - reflexivity.
  - vm_compute. right. left. reflexivity.
  - reflexivity.
  - left. eexists. split.
    + vm_compute. left. reflexivity.
    + vm_compute. left. reflexivity.
Defined.

(** C2, as stated, fails in two ways.  A referenced revision that is
    delivered again meets itself in the history, at its own generation and
    referenced, and is accepted as a duplicate.  And a generation-3 revision
    citing R2 protects R2 only while R2 is in the history: admitted before R2
    has arrived, it does not keep a rival of R2 out. *)
Lemma referenced_generation_mate_does_not_always_reject :
  let lc := Samples.codeUnitCompare in
  let s := admitAll lc
             [Samples.firstEvent; Samples.secondEvent; Samples.thirdEvent] newStore in
  let early := admitAll lc [Samples.thirdEvent] newStore in
  (exists n e,
     eventToRevision Samples.secondEvent = Some n /\
     In e (getRevisions "doc" s) /\
     strictEq (generation (parseRevisionId (DocumentRevision.revisionId e)))
              (generation (parseRevisionId (DocumentRevision.revisionId n))) = true /\
     setHas (Some (DocumentRevision.revisionId e))
            (referencedRevisions (getRevisions "doc" s) n) = true /\
     accepted (fst (addRevision lc Samples.secondEvent s)) = true) /\
  (map DocumentRevision.prevRevisionIds (getRevisions "doc" early) = [[Some "2-bbb"]] /\
   gt "ccc" "bbb" = true /\
   accepted (fst (addRevision lc Samples.rivalEvent early)) = true).
Proof.
  intros lc s early. split.
  - eexists. eexists. split; [vm_compute; reflexivity |].
    split; [vm_compute; right; left; reflexivity |].
    repeat split; reflexivity.
  - repeat split; reflexivity.
Qed.

Lemma permutation_of_three {A : Type} (a b c : A) (l : list A) :
  Permutation l [a; b; c] ->
  l = [a; b; c] \/ l = [a; c; b] \/ l = [b; a; c] \/
  l = [b; c; a] \/ l = [c; a; b] \/ l = [c; b; a].
Proof.
  intros HP.
  pose proof (Permutation_length HP) as Hlen.
  destruct l as [| x [| y [| z [| ? ?]]]]; try discriminate.
  assert (Hx : In x [a; b; c]) by (apply (Permutation_in _ HP); now left).
  destruct Hx as [<- | [<- | [<- | []]]].
  - apply Permutation_cons_inv, Permutation_sym, Permutation_length_2_inv in HP.
    destruct HP as [[= -> ->] | [= -> ->]]; auto.
  - apply (Permutation_cons_app_inv [a] [c]), Permutation_sym in HP.
    apply Permutation_length_2_inv in HP.
    destruct HP as [[= -> ->] | [= -> ->]]; auto 6.
  - apply (Permutation_cons_app_inv [a; b] []), Permutation_sym in HP.
    apply Permutation_length_2_inv in HP.
    destruct HP as [[= -> ->] | [= -> ->]]; auto 7.
Qed.

Lemma gt_asymmetric (a b : string) : gt a b = true -> gt b a = false.
Proof.
  unfold gt, String.ltb. rewrite (String.compare_antisym a b).
  now destruct (String.compare b a).
Qed.

Lemma gt_total (a b : string) : a <> b -> gt a b = false -> gt b a = true.
Proof.
  unfold gt, String.ltb. intros Hne. rewrite (String.compare_antisym a b).
  destruct (String.compare b a) eqn:E; try easy.
  apply String.compare_eq_iff in E. congruence.
Qed.

(** ** Three revisions in every order of arrival *)

Section ThreeRevisions.

Variable lc : string -> string -> number.
Variables (d : string) (s0 : DocumentStore).
Variables (E1 EL EW : Event.t) (R1 L W : DocumentRevision.t) (h1 hL hW : string).

Hypothesis Hfresh : getRevisions d s0 = [].
Hypothesis HE1 : eventToRevision E1 = Some R1.
Hypothesis HEL : eventToRevision EL = Some L.
Hypothesis HEW : eventToRevision EW = Some W.
Hypothesis Hd1 : truthy (findTagValue "d" (Event.tags E1)) = Some d.
Hypothesis HdL : truthy (findTagValue "d" (Event.tags EL)) = Some d.
Hypothesis HdW : truthy (findTagValue "d" (Event.tags EW)) = Some d.
Hypothesis HP1 :
  parseRevisionId (DocumentRevision.revisionId R1) = {| generation := Num 1; hash := h1 |}.
Hypothesis HPL :
  parseRevisionId (DocumentRevision.revisionId L) = {| generation := Num 2; hash := hL |}.
Hypothesis HPW :
  parseRevisionId (DocumentRevision.revisionId W) = {| generation := Num 2; hash := hW |}.
Hypothesis Hprev1 : DocumentRevision.prevRevisionIds R1 = [].
Hypothesis HprevL :
  DocumentRevision.prevRevisionIds L = [Some (DocumentRevision.revisionId R1)].
Hypothesis HprevW :
  DocumentRevision.prevRevisionIds W = [Some (DocumentRevision.revisionId R1)].
Hypothesis Hwins : gt hW hL = true.
Hypothesis Hloses : gt hL hW = false.
Hypothesis Hid1L : Event.id E1 <> Event.id EL.
Hypothesis Hid1W : Event.id E1 <> Event.id EW.
Hypothesis HidLW : Event.id EL <> Event.id EW.

(** What the store holds for [d] once a first revision was admitted. *)
Let holds (s : DocumentStore) (history : list DocumentRevision.t) : Prop :=
  revisions s = JsMap.set d history (revisions s0) /\
  documents s =
    match history with
    | winning :: _ => JsMap.set d (documentOf d winning) (documents s0)
    | [] => documents s0
    end /\
  listeners s = listeners s0 /\
  cachedDocuments s =
    filter (fun doc => negb (Document.deleted doc)) (JsMap.values (documents s)).

Lemma holds_history (s : DocumentStore) (history : list DocumentRevision.t) :
  holds s history -> getRevisions d s = history.
Proof. intros (H & _). unfold getRevisions. now rewrite H, get_set_same. Qed.

Lemma first_admission (event : Event.t) (r : DocumentRevision.t) :
  eventToRevision event = Some r ->
  truthy (findTagValue "d" (Event.tags event)) = Some d ->
  holds (snd (addRevision lc event s0)) [r].
Proof.
  intros Hr Hd.
  destruct (addRevision_admitted lc event r d s0 Hr Hd)
    as (winning & rest & s' & Hf & Hadd & Hrevs & Hdocs & Hl & Hc & _);
    try (rewrite Hfresh; reflexivity).
  rewrite Hfresh in Hf, Hrevs. simpl in Hf, Hrevs. injection Hf as <- <-.
  rewrite Hadd. simpl. repeat split; assumption.
Qed.

Lemma next_admission (s : DocumentStore) (history : list DocumentRevision.t)
    (event : Event.t) (r winning : DocumentRevision.t) (rest : list DocumentRevision.t) :
  holds s history ->
  eventToRevision event = Some r ->
  truthy (findTagValue "d" (Event.tags event)) = Some d ->
  existsb (fun x => String.eqb (DocumentRevision.eventId x) (Event.id event)) history
    = false ->
  conflictReason d (referencedRevisions history r)
    (parseRevisionId (DocumentRevision.revisionId r)) history = None ->
  sort (compareRevisions lc)
    (filter (survives (referencedRevisions history r)
               (parseRevisionId (DocumentRevision.revisionId r))) history ++ [r])
    = winning :: rest ->
  holds (snd (addRevision lc event s)) (winning :: rest).
Proof.
  intros Hs Hr Hd Hk Hc Hsort.
  pose proof (holds_history s history Hs) as Hh.
  destruct Hs as (Hrevs0 & Hdocs0 & Hl0 & _).
  destruct (addRevision_admitted lc event r d s Hr Hd)
    as (w & t & s' & Hf & Hadd & Hrevs & Hdocs & Hl & Hcache & _);
    try (rewrite Hh; assumption).
  rewrite Hh in Hf, Hrevs. rewrite Hsort in Hf, Hrevs. injection Hf as <- <-.
  rewrite Hadd. simpl. repeat split.
  - now rewrite Hrevs, Hrevs0, set_set.
  - rewrite Hdocs, Hdocs0. destruct history; [reflexivity | apply set_set].
  - congruence.
  - assumption.
Qed.

Lemma next_rejection (s : DocumentStore) (history : list DocumentRevision.t)
    (event : Event.t) (r : DocumentRevision.t) (why : string) :
  holds s history ->
  eventToRevision event = Some r ->
  truthy (findTagValue "d" (Event.tags event)) = Some d ->
  existsb (fun x => String.eqb (DocumentRevision.eventId x) (Event.id event)) history
    = false ->
  conflictReason d (referencedRevisions history r)
    (parseRevisionId (DocumentRevision.revisionId r)) history = Some why ->
  snd (addRevision lc event s) = s.
Proof.
  intros Hs Hr Hd Hk Hc.
  pose proof (holds_history s history Hs) as Hh.
  rewrite (addRevision_rejected lc event r d s Hr Hd why); rewrite ?Hh; trivial.
Qed.

(** *** What the hypotheses say of the comparisons the code makes *)

Let family (r : DocumentRevision.t) : Prop := r = R1 \/ r = L \/ r = W.

Lemma family_parents (r : DocumentRevision.t) (p : option string) :
  family r -> In p (DocumentRevision.prevRevisionIds r) ->
  p = Some (DocumentRevision.revisionId R1).
Proof.
  intros [-> | [-> | ->]]; rewrite ?Hprev1, ?HprevL, ?HprevW; simpl; intuition.
Qed.

Lemma second_generation_not_referenced (x r : DocumentRevision.t)
    (history : list DocumentRevision.t) :
  x = L \/ x = W -> Forall family history -> family r ->
  setHas (Some (DocumentRevision.revisionId x)) (referencedRevisions history r) = false.
Proof.
  intros Hx Hhist Hr.
  destruct (setHas _ _) eqn:E; [| reflexivity]. exfalso.
  apply setHas_in, in_referencedRevisions in E.
  assert (Hp : Some (DocumentRevision.revisionId x)
               = Some (DocumentRevision.revisionId R1)).
  { destruct E as [(c & Hc & Hin) | Hin].
    - rewrite Forall_forall in Hhist.
      apply (family_parents c); [now apply Hhist | exact Hin].
    - now apply (family_parents r). }
  injection Hp as Hp.
  assert (Hg : generation (parseRevisionId (DocumentRevision.revisionId x)) = Num 1)
    by now rewrite Hp, HP1.
  destruct Hx as [-> | ->]; rewrite ?HPL, ?HPW in Hg; discriminate.
Qed.

Lemma id_R1 : DocumentRevision.eventId R1 = Event.id E1.
Proof. now apply eventToRevision_eventId. Qed.
Lemma id_L : DocumentRevision.eventId L = Event.id EL.
Proof. now apply eventToRevision_eventId. Qed.
Lemma id_W : DocumentRevision.eventId W = Event.id EW.
Proof. now apply eventToRevision_eventId. Qed.

Lemma distinct_ids :
  String.eqb (Event.id E1) (Event.id EL) = false /\
  String.eqb (Event.id EL) (Event.id E1) = false /\
  String.eqb (Event.id E1) (Event.id EW) = false /\
  String.eqb (Event.id EW) (Event.id E1) = false /\
  String.eqb (Event.id EL) (Event.id EW) = false /\
  String.eqb (Event.id EW) (Event.id EL) = false.
Proof. repeat split; apply String.eqb_neq; congruence. Qed.

Lemma later_generation_first (a b : DocumentRevision.t) (ha hb : string) :
  parseRevisionId (DocumentRevision.revisionId a) = {| generation := Num 1; hash := ha |} ->
  parseRevisionId (DocumentRevision.revisionId b) = {| generation := Num 2; hash := hb |} ->
  sign (compareRevisions lc a b) = Gt /\ sign (compareRevisions lc b a) = Lt.
Proof.
  intros Ha Hb. unfold compareRevisions. rewrite Ha, Hb. split; reflexivity.
Qed.

Ltac known_tac :=
  simpl; rewrite ?id_R1, ?id_L, ?id_W;
  destruct distinct_ids as (I1 & I2 & I3 & I4 & I5 & I6);
  rewrite ?I1, ?I2, ?I3, ?I4, ?I5, ?I6; reflexivity.

Ltac family_tac :=
  repeat constructor; unfold family; auto.

Ltac conflict_tac :=
  simpl; rewrite ?HP1, ?HPL, ?HPW; simpl;
  rewrite ?(second_generation_not_referenced L), ?(second_generation_not_referenced W)
    by (auto || family_tac);
  rewrite ?Hwins, ?Hloses; simpl; try reflexivity.

Ltac sort_tac :=
  unfold survives, sort;
  repeat (progress
    (simpl; rewrite ?HP1, ?HPL, ?HPW; simpl;
     rewrite ?(second_generation_not_referenced L), ?(second_generation_not_referenced W)
       by (auto || family_tac);
     rewrite ?Hwins, ?Hloses; simpl;
     rewrite ?(proj1 (later_generation_first R1 L h1 hL HP1 HPL)),
             ?(proj2 (later_generation_first R1 L h1 hL HP1 HPL)),
             ?(proj1 (later_generation_first R1 W h1 hW HP1 HPW)),
             ?(proj2 (later_generation_first R1 W h1 hW HP1 HPW))));
  try reflexivity.

Ltac admit_tac H r :=
  eapply (next_admission _ _ _ r); [exact H | assumption | assumption
                                   | known_tac | conflict_tac | sort_tac].

Lemma from_R1_L (s : DocumentStore) :
  holds s [R1] -> holds (snd (addRevision lc EL s)) [L; R1].
Proof. intros H. admit_tac H L. Qed.

Lemma from_R1_W (s : DocumentStore) :
  holds s [R1] -> holds (snd (addRevision lc EW s)) [W; R1].
Proof. intros H. admit_tac H W. Qed.

Lemma from_L_R1 (s : DocumentStore) :
  holds s [L] -> holds (snd (addRevision lc E1 s)) [L; R1].
Proof. intros H. admit_tac H R1. Qed.

Lemma from_W_R1 (s : DocumentStore) :
  holds s [W] -> holds (snd (addRevision lc E1 s)) [W; R1].
Proof. intros H. admit_tac H R1. Qed.

(** The winner prunes the loser. *)
Lemma from_L_W (s : DocumentStore) :
  holds s [L] -> holds (snd (addRevision lc EW s)) [W].
Proof. intros H. admit_tac H W. Qed.

Lemma from_LR1_W (s : DocumentStore) :
  holds s [L; R1] -> holds (snd (addRevision lc EW s)) [W; R1].
Proof. intros H. admit_tac H W. Qed.

(** The loser is turned away by the winner. *)
Lemma from_W_L (s : DocumentStore) :
  holds s [W] -> snd (addRevision lc EL s) = s.
Proof.
  intros H. eapply (next_rejection _ _ _ L); [exact H | assumption | assumption
                                             | known_tac | conflict_tac].
Qed.

Lemma from_WR1_L (s : DocumentStore) :
  holds s [W; R1] -> snd (addRevision lc EL s) = s.
Proof.
  intros H. eapply (next_rejection _ _ _ L); [exact H | assumption | assumption
                                             | known_tac | conflict_tac].
Qed.

Lemma winner_in_every_order (order : list Event.t) :
  Permutation order [E1; EL; EW] ->
  holds (admitAll lc order s0) [W; R1].
Proof.
  intros HP.
  destruct (permutation_of_three _ _ _ _ HP) as [-> | [-> | [-> | [-> | [-> | ->]]]]];
    unfold admitAll; simpl.
  - apply from_LR1_W, from_R1_L, first_admission; assumption.
  - rewrite from_WR1_L; apply from_R1_W, first_admission; assumption.
  - apply from_LR1_W, from_L_R1, first_admission; assumption.
  - apply from_W_R1, from_L_W, first_admission; assumption.
  - rewrite from_WR1_L; apply from_W_R1, first_admission; assumption.
  - rewrite from_W_L; [apply from_W_R1 |]; apply first_admission; assumption.
Qed.

Lemma loser_differs : L <> W /\ L <> R1.
Proof.
  split; intros Heq.
  - apply HidLW. rewrite <- id_L, <- id_W. now rewrite Heq.
  - apply Hid1L. rewrite <- id_L, <- id_R1. now rewrite Heq.
Qed.

End ThreeRevisions.

(** C1. From a store with no history for document [d], three events that
    carry R1 (generation 1, no parent), R2 and R3 (generation 2, sole parent
    R1, different hashes) leave the same store in each of their six orders
    of arrival: the document is the one of R2 and R3 with the greater hash,
    the history is that winner followed by R1, the loser is not in it, and
    the other documents are as they were. *)
Theorem arrival_order_does_not_matter :
  forall (lc : string -> string -> number) (d : string) (s : DocumentStore)
         (E1 E2 E3 : Event.t) (R1 R2 R3 : DocumentRevision.t) (h1 h2 h3 : string),
    getRevisions d s = [] ->
    eventToRevision E1 = Some R1 ->
    eventToRevision E2 = Some R2 ->
    eventToRevision E3 = Some R3 ->
    truthy (findTagValue "d" (Event.tags E1)) = Some d ->
    truthy (findTagValue "d" (Event.tags E2)) = Some d ->
    truthy (findTagValue "d" (Event.tags E3)) = Some d ->
    parseRevisionId (DocumentRevision.revisionId R1) = {| generation := Num 1; hash := h1 |} ->
    parseRevisionId (DocumentRevision.revisionId R2) = {| generation := Num 2; hash := h2 |} ->
    parseRevisionId (DocumentRevision.revisionId R3) = {| generation := Num 2; hash := h3 |} ->
    DocumentRevision.prevRevisionIds R1 = [] ->
    DocumentRevision.prevRevisionIds R2 = [Some (DocumentRevision.revisionId R1)] ->
    DocumentRevision.prevRevisionIds R3 = [Some (DocumentRevision.revisionId R1)] ->
    h2 <> h3 ->
    Event.id E1 <> Event.id E2 ->
    Event.id E1 <> Event.id E3 ->
    Event.id E2 <> Event.id E3 ->
    forall order : list Event.t,
      Permutation order [E1; E2; E3] ->
      let final := admitAll lc order s in
      let winner := if gt h2 h3 then R2 else R3 in
      let loser := if gt h2 h3 then R3 else R2 in
      getDocument d final = Some (documentOf d winner) /\
      getRevisions d final = [winner; R1] /\
      ~ In loser (getRevisions d final) /\
      revisions final = JsMap.set d [winner; R1] (revisions s) /\
      documents final = JsMap.set d (documentOf d winner) (documents s) /\
      cachedDocuments final =
        filter (fun doc => negb (Document.deleted doc)) (JsMap.values (documents final)) /\
      listeners final = listeners s /\
      forall other, other <> d ->
        getDocument other final = getDocument other s /\
        getRevisions other final = getRevisions other s.
Proof.
  intros lc d s E1 E2 E3 R1 R2 R3 h1 h2 h3 Hfresh HE1 HE2 HE3 Hd1 Hd2 Hd3
         HP1 HP2 HP3 Hp1 Hp2 Hp3 Hh H12 H13 H23 order HP final winner loser.
  assert (Hgoal : forall EL EW L W hL hW,
             eventToRevision EL = Some L -> eventToRevision EW = Some W ->
             truthy (findTagValue "d" (Event.tags EL)) = Some d ->
             truthy (findTagValue "d" (Event.tags EW)) = Some d ->
             parseRevisionId (DocumentRevision.revisionId L)
               = {| generation := Num 2; hash := hL |} ->
             parseRevisionId (DocumentRevision.revisionId W)
               = {| generation := Num 2; hash := hW |} ->
             DocumentRevision.prevRevisionIds L = [Some (DocumentRevision.revisionId R1)] ->
             DocumentRevision.prevRevisionIds W = [Some (DocumentRevision.revisionId R1)] ->
             gt hW hL = true -> gt hL hW = false ->
             Event.id E1 <> Event.id EL -> Event.id E1 <> Event.id EW ->
             Event.id EL <> Event.id EW ->
             Permutation order [E1; EL; EW] ->
             getDocument d final = Some (documentOf d W) /\
             getRevisions d final = [W; R1] /\
             ~ In L (getRevisions d final) /\
             revisions final = JsMap.set d [W; R1] (revisions s) /\
             documents final = JsMap.set d (documentOf d W) (documents s) /\
             cachedDocuments final =
               filter (fun doc => negb (Document.deleted doc))
                      (JsMap.values (documents final)) /\
             listeners final = listeners s /\
             forall other, other <> d ->
               getDocument other final = getDocument other s /\
               getRevisions other final = getRevisions other s).
  { intros EL EW L W hL hW HEL HEW HdL HdW HPL HPW HpL HpW Hw Hl Hi1 Hi2 Hi3 HPerm.
    destruct (winner_in_every_order lc d s E1 EL EW R1 L W h1 hL hW
                Hfresh HE1 HEL HEW Hd1 HdL HdW HP1 HPL HPW Hp1 HpL HpW Hw Hl
                Hi1 Hi2 Hi3 order HPerm) as (Hrevs & Hdocs & Hlis & Hcache).
    fold final in Hrevs, Hdocs, Hlis, Hcache.
    assert (Hhist : getRevisions d final = [W; R1])
      by (unfold getRevisions; now rewrite Hrevs, get_set_same).
    destruct (loser_differs E1 EL EW R1 L W HE1 HEL HEW Hi1 Hi3) as [HLW HL1].
    split; [unfold getDocument; now rewrite Hdocs, get_set_same |].
    split; [exact Hhist |].
    split; [rewrite Hhist; simpl; intuition congruence |].
    split; [exact Hrevs |]. split; [exact Hdocs |].
    split; [exact Hcache |]. split; [exact Hlis |].
    intros other Hother. unfold getDocument, getRevisions.
    now rewrite Hdocs, Hrevs, !get_set_other. }
  subst winner loser. destruct (gt h2 h3) eqn:G.
  - apply (Hgoal E3 E2 R3 R2 h3 h2); auto using gt_asymmetric.
    rewrite HP. apply perm_skip, perm_swap.
  - apply (Hgoal E2 E3 R2 R3 h2 h3); auto using gt_total.
Qed.

Lemma arrival_order_does_not_matter_witness :
  let lc := Samples.codeUnitCompare in
  exists R1 R3,
    eventToRevision Samples.firstEvent = Some R1 /\
    eventToRevision Samples.rivalEvent = Some R3 /\
    gt "bbb" "ccc" = false /\
    forall order,
      In order [[Samples.firstEvent; Samples.secondEvent; Samples.rivalEvent];
                [Samples.rivalEvent; Samples.secondEvent; Samples.firstEvent];
                [Samples.secondEvent; Samples.rivalEvent; Samples.firstEvent]] ->
      getDocument "doc" (admitAll lc order newStore) = Some (documentOf "doc" R3) /\
      getRevisions "doc" (admitAll lc order newStore) = [R3; R1].
Proof.
  intros lc. eexists. eexists.
  split; [vm_compute; reflexivity |]. split; [vm_compute; reflexivity |].
  split; [reflexivity |].
  intros order Horder.
  assert (HP : Permutation order
                 [Samples.firstEvent; Samples.secondEvent; Samples.rivalEvent]).
  { destruct Horder as [<- | [<- | [<- | []]]].
    - apply Permutation_refl.
    - apply Permutation_rev.
    - apply perm_trans with [Samples.secondEvent; Samples.firstEvent; Samples.rivalEvent].
      + apply perm_skip, perm_swap.
      + apply perm_swap. }
  destruct (arrival_order_does_not_matter lc "doc" newStore
              Samples.firstEvent Samples.secondEvent Samples.rivalEvent
              _ _ _ "aaa" "bbb" "ccc"
              eq_refl eq_refl eq_refl eq_refl eq_refl eq_refl eq_refl
              eq_refl eq_refl eq_refl eq_refl eq_refl eq_refl
              ltac:(discriminate) ltac:(discriminate) ltac:(discriminate)
              ltac:(discriminate) order HP)
    as (Hdoc & Hhist & _).
  split; [exact Hdoc | exact Hhist].
Defined.

Import UseNipDb.

(** ** Creating and updating a document *)

Lemma first_revision_id :
  createRevisionId (Num 1) None "hello" = "1-2cf24dba5fb0a30e26e83b2ac5b9e29e".
Proof. vm_compute. reflexivity. Qed.

Lemma second_revision_id :
  createRevisionId (Num 2) (Some "1-2cf24dba5fb0a30e26e83b2ac5b9e29e") "world"
  = "2-21e1870b9fc3bf1417fe353e5cede6ad".
Proof. vm_compute. reflexivity. Qed.

(** C4, as the code has it. Creating "doc-1" with content "hello" gives the
    revision id "1-" followed by the first 32 hexadecimal digits of
    SHA-256("hello"); updating it to "world" gives "2-" followed by the first
    32 digits of SHA-256 of the whole first revision id (its "1-" included),
    a colon and the 64 digits of SHA-256("world"), with the first revision
    id as sole parent; the document then reads "world" and its history has
    two entries. *)
Theorem create_then_update :
  forall (lc : string -> string -> number) (publicKey : option string)
         (first second : Signed) (s : DocumentStore),
    truthy publicKey <> None ->
    getRevisions "doc-1" s = [] ->
    id first <> id second ->
    let rev1 := createRevisionId (Num 1) None "hello" in
    let rev2 := createRevisionId (Num 2) (Some rev1) "world" in
    let created := createDocument lc publicKey "doc-1" "hello" (Returned first) s in
    let updated := updateDocument lc publicKey "doc-1" "world" (Returned second) (snd created) in
    rev1 = "1-" ++ prefix 32 (sha256Hex "hello") /\
    rev2 = "2-" ++ prefix 32 (sha256Hex (rev1 ++ ":" ++ sha256Hex "world")) /\
    (exists doc, fst created = Returned (Some doc) /\
                 Document.revisionId doc = rev1 /\
                 Document.prevRevisionIds doc = []) /\
    (exists doc, fst updated = Returned (Some doc) /\
                 getDocument "doc-1" (snd updated) = Some doc /\
                 Document.revisionId doc = rev2 /\
                 Document.prevRevisionIds doc = [Some rev1] /\
                 Document.content doc = "world") /\
    map DocumentRevision.revisionId (getRevisions "doc-1" (snd updated)) = [rev2; rev1] /\
    List.length (getRevisions "doc-1" (snd updated)) = 2%nat.
Proof.
  intros lc publicKey first second s Hkey Hfresh Hids rev1 rev2 created updated.
  split; [vm_compute; reflexivity |]. split; [vm_compute; reflexivity |].
  subst updated created rev2 rev1.
  unfold createDocument, updateDocument.
  destruct (truthy publicKey) as [key |]; [clear Hkey | congruence].
  rewrite first_revision_id.
  set (E1 := finalizeEvent DOC_KIND "hello" _ first).
  set (R1 := {| DocumentRevision.revisionId := "1-2cf24dba5fb0a30e26e83b2ac5b9e29e";
                DocumentRevision.content := "hello";
                DocumentRevision.prevRevisionIds := [];
                DocumentRevision.createdAt := created_at first;
                DocumentRevision.eventId := id first;
                DocumentRevision.deleted := false |}).
  destruct (addRevision_admitted lc E1 R1 "doc-1" s eq_refl eq_refl)
    as (w1 & t1 & s1 & Hf1 & Hadd1 & Hrevs1 & Hdocs1 & _);
    try (rewrite Hfresh; reflexivity).
  rewrite Hfresh in Hf1, Hrevs1. simpl in Hf1, Hrevs1. injection Hf1 as <- <-.
  assert (Hget1 : getDocument "doc-1" s1 = Some (documentOf "doc-1" R1))
    by (unfold getDocument; now rewrite Hdocs1, get_set_same).
  assert (Hhist : getRevisions "doc-1" s1 = [R1])
    by (unfold getRevisions; now rewrite Hrevs1, get_set_same).
  rewrite Hadd1. cbn [fst snd accepted negb]. rewrite Hget1.
  change (Document.revisionId (documentOf "doc-1" R1))
    with "1-2cf24dba5fb0a30e26e83b2ac5b9e29e".
  change (add (generation (parseRevisionId "1-2cf24dba5fb0a30e26e83b2ac5b9e29e")) (Num 1))
    with (Num 2).
  rewrite second_revision_id.
  set (E2 := finalizeEvent DOC_KIND "world" _ second).
  set (R2 := {| DocumentRevision.revisionId := "2-21e1870b9fc3bf1417fe353e5cede6ad";
                DocumentRevision.content := "world";
                DocumentRevision.prevRevisionIds := [Some "1-2cf24dba5fb0a30e26e83b2ac5b9e29e"];
                DocumentRevision.createdAt := created_at second;
                DocumentRevision.eventId := id second;
                DocumentRevision.deleted := false |}).
  destruct (addRevision_admitted lc E2 R2 "doc-1" s1 eq_refl eq_refl)
    as (w2 & t2 & s2 & Hf2 & Hadd2 & Hrevs2 & Hdocs2 & _).
  { rewrite Hhist. simpl. apply String.eqb_neq in Hids. now rewrite Hids. }
  { rewrite Hhist. reflexivity. }
  rewrite Hhist in Hf2, Hrevs2.
  change (sort (compareRevisions lc)
            (filter (survives (referencedRevisions [R1] R2)
                       (parseRevisionId (DocumentRevision.revisionId R2))) [R1] ++ [R2]))
    with [R2; R1] in Hf2, Hrevs2.
  injection Hf2 as <- <-.
  assert (Hget2 : getDocument "doc-1" s2 = Some (documentOf "doc-1" R2))
    by (unfold getDocument; now rewrite Hdocs2, get_set_same).
  rewrite Hadd2. cbn [fst snd accepted negb]. rewrite Hget2.
  split.
  { exists (documentOf "doc-1" R1). repeat split; reflexivity. }
  split.
  { exists (documentOf "doc-1" R2). repeat split; reflexivity. }
  unfold getRevisions. rewrite Hrevs2, get_set_same. split; reflexivity.
Qed.

Lemma create_then_update_witness :
  let lc := Samples.codeUnitCompare in
  let created :=
    createDocument lc (Some "npub") "doc-1" "hello" (Returned Samples.signedHello) newStore in
  let updated :=
    updateDocument lc (Some "npub") "doc-1" "world" (Returned Samples.signedWorld)
                   (snd created) in
  map DocumentRevision.revisionId (getRevisions "doc-1" (snd updated))
  = ["2-21e1870b9fc3bf1417fe353e5cede6ad"; "1-2cf24dba5fb0a30e26e83b2ac5b9e29e"] /\
  List.length (getRevisions "doc-1" (snd updated)) = 2%nat.
Proof.
  intros lc created updated.
  destruct (create_then_update lc (Some "npub") Samples.signedHello Samples.signedWorld
              newStore ltac:(discriminate) eq_refl ltac:(discriminate))
    as (H1 & H2 & _ & _ & Hhist & Hlen).
  split; [| exact Hlen].
  fold lc in Hhist. fold created in Hhist. fold updated in Hhist.
  rewrite Hhist, first_revision_id, second_revision_id. reflexivity.
Defined.

(** C4, as stated, takes the hash of the first revision for the prefix that
    is hashed with the new content.  The code hashes the whole revision id:
    the id of the update is not the one the claim computes, whether the
    hashes in it are read as the 32 digits kept in a revision id or as the
    64 digits of SHA-256. *)
Lemma update_does_not_chain_on_the_bare_hash :
  let lc := Samples.codeUnitCompare in
  let created :=
    createDocument lc (Some "npub") "doc-1" "hello" (Returned Samples.signedHello) newStore in
  let updated :=
    updateDocument lc (Some "npub") "doc-1" "world" (Returned Samples.signedWorld)
                   (snd created) in
  let hash1 := computeRevisionHash None "hello" in
  let claimed prev inner := Some ("2-" ++ prefix 32 (sha256Hex (prev ++ ":" ++ inner))) in
  let actual := option_map Document.revisionId (getDocument "doc-1" (snd updated)) in
  actual <> Some ("2-" ++ computeRevisionHash (Some hash1) "world") /\
  actual <> claimed hash1 (sha256Hex "world") /\
  actual <> claimed hash1 (prefix 32 (sha256Hex "world")) /\
  actual <> claimed (sha256Hex "hello") (sha256Hex "world") /\
  actual <> claimed (sha256Hex "hello") (prefix 32 (sha256Hex "world")).
Proof. repeat split; vm_compute; discriminate. Qed.

(** ** The hash of a revision *)

Lemma bytesToHex_length (bytes : list Z) :
  String.length (bytesToHex bytes) = (2 * List.length bytes)%nat.
Proof. induction bytes as [| b rest IH]; simpl; [reflexivity | rewrite IH; lia]. Qed.

Lemma round_length (st : list Z) (kw : Z * Z) :
  List.length st = 8%nat -> List.length (Sha256.round st kw) = 8%nat.
Proof.
  intros H. unfold Sha256.round.
  destruct st as [| a [| b [| c [| d [| e [| f [| g [| h [| ? ?]]]]]]]]]; try discriminate.
  reflexivity.
Qed.

Lemma rounds_length (kws : list (Z * Z)) (st : list Z) :
  List.length st = 8%nat -> List.length (fold_left Sha256.round kws st) = 8%nat.
Proof.
  revert st. induction kws as [| kw rest IH]; intros st H; simpl; [exact H |].
  apply IH, round_length, H.
Qed.

Lemma compress_length (h block : list Z) :
  List.length h = 8%nat -> List.length (Sha256.compress h block) = 8%nat.
Proof.
  intros H. unfold Sha256.compress.
  rewrite length_map, length_combine, rounds_length, H; trivial.
Qed.

Lemma blocks_length (fuel : nat) (h bytes : list Z) :
  List.length h = 8%nat -> List.length (Sha256.blocks fuel h bytes) = 8%nat.
Proof.
  revert h bytes. induction fuel as [| fuel IH]; intros h bytes H; simpl; [exact H |].
  destruct bytes; [exact H |]. apply IH, compress_length, H.
Qed.

Lemma sha256_length (msg : list Z) : List.length (Sha256.sha256 msg) = 32%nat.
Proof.
  unfold Sha256.sha256.
  pose proof (blocks_length (List.length (Sha256.pad msg)) Sha256.H0 (Sha256.pad msg) eq_refl) as H.
  destruct (Sha256.blocks _ _ _) as [| a [| b [| c [| d [| e [| f [| g [| h [| ? ?]]]]]]]]];
    try discriminate.
  reflexivity.
Qed.

Lemma sha256Hex_length (s : string) : String.length (sha256Hex s) = 64%nat.
Proof. unfold sha256Hex. now rewrite bytesToHex_length, sha256_length. Qed.

Lemma prefix_length (n : nat) (s : string) :
  (n <= String.length s)%nat -> String.length (prefix n s) = n.
Proof.
  unfold prefix. revert s. induction n as [| n IH]; intros s H.
  - destruct s; reflexivity.
  - destruct s as [| c rest]; simpl in *; [lia |]. rewrite IH; [reflexivity | lia].
Qed.

Lemma truthy_nonempty (p : string) : p <> "" -> truthy (Some p) = Some p.
Proof. destruct p; [congruence | reflexivity]. Qed.

(** C5, as the code has it. Without a previous revision, and also with the
    empty string for one, the hash is the first 32 hexadecimal digits of
    SHA-256(content); with a non-empty previous revision [p] it is the first
    32 digits of SHA-256 of [p], a colon and the 64 digits of
    SHA-256(content).  It has 32 characters in every case. *)
Theorem computeRevisionHash_cases :
  (forall c, computeRevisionHash None c = prefix 32 (sha256Hex c)) /\
  (forall p c, p <> "" ->
     computeRevisionHash (Some p) c = prefix 32 (sha256Hex (p ++ ":" ++ sha256Hex c))) /\
  (forall c, computeRevisionHash (Some "") c = prefix 32 (sha256Hex c)) /\
  (forall p c, String.length (computeRevisionHash p c) = 32%nat).
Proof.
  split; [reflexivity |]. split.
  { intros p c Hp. unfold computeRevisionHash. now rewrite truthy_nonempty. }
  split; [reflexivity |].
  intros p c. unfold computeRevisionHash.
  destruct (truthy p); apply prefix_length; rewrite sha256Hex_length; lia.
Qed.

Lemma computeRevisionHash_cases_witness :
  computeRevisionHash (Some "1-2cf24dba5fb0a30e26e83b2ac5b9e29e") "world"
  = prefix 32 (sha256Hex ("1-2cf24dba5fb0a30e26e83b2ac5b9e29e" ++ ":" ++ sha256Hex "world")).
Proof.
  apply (proj1 (proj2 computeRevisionHash_cases)). discriminate.
Defined.

(** C5, as stated, fails for the empty string, which is not null: the code
    treats it as no previous revision. *)
Lemma empty_previous_revision_is_ignored :
  computeRevisionHash (Some "") "hello"
  <> prefix 32 (sha256Hex ("" ++ ":" ++ sha256Hex "hello")).
Proof. vm_compute. discriminate. Qed.

(** ** Parsing a revision id *)

Lemma split_without_separator (s : string) :
  includes "-" s = false -> split "-" s = [s].
Proof.
  induction s as [| c rest IH]; simpl; [reflexivity |].
  destruct (Ascii.eqb c "-"); [discriminate |].
  intros H. now rewrite IH.
Qed.

Lemma split_at_first_separator (g h : string) :
  includes "-" g = false -> split "-" (g ++ "-" ++ h) = g :: split "-" h.
Proof.
  induction g as [| c rest IH]; simpl in *; [reflexivity |].
  destruct (Ascii.eqb c "-"); [discriminate |].
  intros H. now rewrite IH.
Qed.

Lemma split_nonempty (sep : ascii) (s : string) : split sep s <> [].
Proof.
  induction s as [| c rest IH]; simpl; [discriminate |].
  destruct (Ascii.eqb c sep); [discriminate |].
  destruct (split sep rest); [contradiction | discriminate].
Qed.

Lemma truthy_or_empty (v : option string) :
  match truthy v with Some h => h | None => "" end
  = match v with Some h => h | None => "" end.
Proof. now destruct v as [[| c rest] |]. Qed.

Lemma digits_step (a k : Z) (c : ascii) (rest : string) :
  digit c = Some k -> digits (Some a) (String c rest) = digits (Some (10 * a + k)) rest.
Proof. intros H. simpl. now rewrite H. Qed.

Lemma digits_first (k : Z) (c : ascii) (rest : string) :
  digit c = Some k -> digits None (String c rest) = digits (Some k) rest.
Proof. intros H. simpl. now rewrite H. Qed.

Lemma digits_of_uint_acc (d : Decimal.uint) (acc : positive) :
  digits (Some (Zpos acc)) (NilEmpty.string_of_uint d) = Some (Zpos (Pos.of_uint_acc d acc)).
Proof.
  revert acc.
  induction d; intros acc; cbn [NilEmpty.string_of_uint Pos.of_uint_acc];
    [reflexivity | ..].
  all: erewrite digits_step by reflexivity.
  all: rewrite <- IHd; f_equal; f_equal.
  all: try match goal with
           | |- context [code ?c - 48] =>
               let v := eval vm_compute in (code c - 48) in change (code c - 48) with v
           end.
  all: lia.
Qed.

Lemma digits_of_uint (d : Decimal.uint) :
  digits (Some 0) (NilEmpty.string_of_uint d) = Some (Z.of_N (Pos.of_uint d)).
Proof.
  induction d; cbn [NilEmpty.string_of_uint Pos.of_uint]; [reflexivity | ..].
  all: erewrite digits_step by reflexivity.
  all: try exact IHd.
  all: cbn [Z.of_N]; rewrite <- digits_of_uint_acc; reflexivity.
Qed.

(** [parseInt] reads back the decimal numeral of a natural number, rounded
    to a double. *)
Lemma parseInt_decimal (n : Z) : 0 <= n -> parseInt (decimal n) = toDouble n.
Proof.
  intros Hn. unfold decimal.
  assert (Hval : Z.of_N (Pos.of_uint (N.to_uint (Z.to_N n))) = n).
  { change (Pos.of_uint (N.to_uint (Z.to_N n))) with (N.of_uint (N.to_uint (Z.to_N n))).
    rewrite DecimalN.Unsigned.of_to. lia. }
  pose proof (digits_of_uint (N.to_uint (Z.to_N n))) as Hd. rewrite Hval in Hd.
  assert (Hnil : N.to_uint (Z.to_N n) <> Decimal.Nil).
  { destruct (Z.to_N n); [discriminate | apply DecimalPos.Unsigned.to_uint_nonnil]. }
  destruct (N.to_uint (Z.to_N n)) as [| d | d | d | d | d | d | d | d | d | d];
    [congruence | ..];
    cbn [NilZero.string_of_uint NilEmpty.string_of_uint] in *;
    erewrite digits_step in Hd by reflexivity;
    match type of Hd with
    | context [code ?c - 48] =>
        let v := eval vm_compute in (10 * 0 + (code c - 48)) in
        change (10 * 0 + (code c - 48)) with v in Hd
    end;
    unfold parseInt; cbn [trimStart];
    match goal with
    | |- context [isWhiteSpace ?c] => change (isWhiteSpace c) with false
    end; cbv iota;
    erewrite digits_first by reflexivity;
    match goal with
    | |- context [code ?c - 48] =>
        let v := eval vm_compute in (code c - 48) in change (code c - 48) with v
    end;
    rewrite Hd; reflexivity.
Qed.

Lemma toDouble_safe (n : Z) : 0 <= n < 2 ^ 53 -> toDouble n = Num n.
Proof.
  intros H. unfold toDouble, roundNat. rewrite Z.abs_eq by lia.
  destruct (Z.ltb_spec n (2 ^ 53)) as [_ | Hge]; [| lia].
  f_equal. destruct (Z.eq_dec n 0) as [-> | Hn]; [reflexivity |].
  rewrite Z.sgn_pos by lia. lia.
Qed.

Lemma string_of_uint_without_separator (d : Decimal.uint) :
  includes "-" (NilEmpty.string_of_uint d) = false.
Proof. induction d; cbn [NilEmpty.string_of_uint includes]; trivial. Qed.

Lemma decimal_without_separator (n : Z) : includes "-" (decimal n) = false.
Proof.
  unfold decimal. generalize (N.to_uint (Z.to_N n)). intros d.
  pose proof (string_of_uint_without_separator d) as H.
  destruct d; [reflexivity | exact H ..].
Qed.

(** C9, as the code has it. The id is cut at every "-" and the first two
    pieces are kept.  For [g ++ "-" ++ h] with no "-" in [g] the generation
    is [parseInt g] and the hash is [h] up to its first "-" (all of [h] when
    it has none); for a string with no "-" the generation is [parseInt] of
    the whole string, which is NaN when it does not start with a number,
    and the hash is empty.  Nothing is thrown.  [parseInt] reads the decimal
    numeral of a natural number back as that number rounded to a double,
    so the numeral of a generation below 2^53 followed by "-" and a hash
    without "-" parses to that generation and that hash. *)
Theorem parseRevisionId_keeps_two_pieces :
  (forall g h, includes "-" g = false ->
     parseRevisionId (g ++ "-" ++ h)
     = {| generation := parseInt g; hash := hd "" (split "-" h) |}) /\
  (forall h, includes "-" h = false -> hd "" (split "-" h) = h) /\
  (forall h1 h2, includes "-" h1 = false -> hd "" (split "-" (h1 ++ "-" ++ h2)) = h1) /\
  (forall s, includes "-" s = false ->
     parseRevisionId s = {| generation := parseInt s; hash := "" |}) /\
  (forall n, 0 <= n -> parseInt (decimal n) = toDouble n) /\
  (forall n h, 0 <= n < 2 ^ 53 -> includes "-" h = false ->
     parseRevisionId (decimal n ++ "-" ++ h) = {| generation := Num n; hash := h |}).
Proof.
  assert (Hfirst : forall g h, includes "-" g = false ->
            parseRevisionId (g ++ "-" ++ h)
            = {| generation := parseInt g; hash := hd "" (split "-" h) |}).
  { intros g h Hg. unfold parseRevisionId. rewrite (split_at_first_separator g h Hg).
    f_equal. rewrite truthy_or_empty.
    pose proof (split_nonempty "-" h). now destruct (split "-" h). }
  split; [exact Hfirst |].
  split.
  { intros h Hh. now rewrite split_without_separator. }
  split.
  { intros h1 h2 Hh. now rewrite split_at_first_separator. }
  split.
  { intros s Hs. unfold parseRevisionId. now rewrite split_without_separator. }
  split; [exact parseInt_decimal |].
  intros n h Hn Hh.
  rewrite (Hfirst _ _ (decimal_without_separator n)), parseInt_decimal by lia.
  rewrite toDouble_safe by exact Hn. now rewrite split_without_separator.
Qed.

Lemma parseRevisionId_keeps_two_pieces_witness :
  parseRevisionId ("2" ++ "-" ++ "21e1870b9fc3bf1417fe353e5cede6ad")
  = {| generation := Num 2; hash := "21e1870b9fc3bf1417fe353e5cede6ad" |} /\
  parseRevisionId "draft" = {| generation := NaN; hash := "" |}.
Proof.
  destruct parseRevisionId_keeps_two_pieces as (Hsplit & _ & _ & Hnone & _).
  split.
  - rewrite (Hsplit "2" "21e1870b9fc3bf1417fe353e5cede6ad" eq_refl). reflexivity.
  - rewrite (Hnone "draft" eq_refl). reflexivity.
Defined.

(** C9, as stated, fails twice: what follows a second "-" is dropped from
    the hash, and a string without "-" that starts with a number gets that
    number for generation, neither 0 nor an error. *)
Lemma parseRevisionId_is_not_a_split_at_the_first_separator :
  parseRevisionId ("2" ++ "-" ++ "ab-cd") = {| generation := Num 2; hash := "ab" |} /\
  hash (parseRevisionId ("2" ++ "-" ++ "ab-cd")) <> "ab-cd" /\
  includes "-" "7" = false /\
  parseRevisionId "7" = {| generation := Num 7; hash := "" |} /\
  generation (parseRevisionId "7") <> Num 0.
Proof. repeat split; try reflexivity; discriminate. Qed.

(** ** The order of a stored history *)

(** C7, evaluated on the code. After a generation-1 event and then its
    generation-2 successor were admitted into a new store, the history that
    [getRevisions] returns lists the successor first: winner selection has
    sorted the stored array in place, under every collation. *)
Theorem history_is_left_sorted_by_winner_selection :
  forall lc : string -> string -> number,
    let s := admitAll lc [Samples.firstEvent; Samples.secondEvent] newStore in
    map DocumentRevision.eventId (getRevisions "doc" s) = ["e2"; "e1"] /\
    map DocumentRevision.revisionId (getRevisions "doc" s) = ["2-bbb"; "1-aaa"] /\
    map DocumentRevision.eventId (getRevisions "doc" s)
    <> map Event.id [Samples.firstEvent; Samples.secondEvent].
Proof.
  intros lc s. repeat split; try reflexivity. discriminate.
Qed.

(** ** A second changes query while one is pending *)

Import Relay.

Lemma settle_pending_last (v : PromiseState) (ps : list PromiseState) :
  settle (List.length ps) v (ps ++ [Pending]) = (ps ++ [v])%list.
Proof.
  induction ps as [| q rest IH]; [reflexivity |].
  simpl. destruct q; now rewrite IH.
Qed.

Lemma nth_settle_other (p q : nat) (v : PromiseState) (ps : list PromiseState) :
  p <> q -> nth q (settle p v ps) Pending = nth q ps Pending.
Proof.
  revert p q. induction ps as [| x rest IH]; intros p q H; [now destruct p |].
  destruct p as [| p], q as [| q]; try congruence.
  - destruct x; reflexivity.
  - destruct x; reflexivity.
  - simpl. destruct x; apply IH; congruence.
Qed.



(** X29. What becomes of the displaced query.  On an open connection the
    second [fetchChanges] writes its callbacks over the pending slot of the
    first: the next [CHANGES] message resolves the new promise and leaves
    the earlier one as it was, and the earlier query's timeout then finds
    the slot empty and does nothing. *)
Theorem second_fetchChanges_displaces_the_first :
  forall (options : ChangesOptions) (c : Client) (earlier : nat),
    isOpen c = true ->
    pendingChangesRef c = Some earlier ->
    (earlier < List.length (promises c))%nat ->
    let later := List.length (promises c) in
    let c' := snd (fetchChanges options c) in
    fst (fetchChanges options c) = Returned later /\
    promiseState later c' = Pending /\
    pendingChangesRef c' = Some later /\
    pendingChangesRef c' <> Some earlier /\
    promiseState earlier c' = promiseState earlier c /\
    sent c' = (sent c ++ [SendChanges options])%list /\
    forall result : ChangesResult,
      let c'' := handleMessage (CHANGES result) c' in
      promiseState later c'' = ResolvedChanges result /\
      promiseState earlier c'' = promiseState earlier c /\
      pendingChangesRef c'' = None /\
      runTimer (ChangesTimeout earlier) c'' = c''.
Proof.
  intros options c earlier Hopen Hpending Hearlier later c'.
  subst c'. unfold fetchChanges. rewrite Hopen. cbn [negb fst snd].
  unfold promiseState. cbn [promises pendingChangesRef sent].
  fold later.
  assert (Hlast : nth later (promises c ++ [Pending]) Pending = Pending).
  { subst later. rewrite app_nth2, Nat.sub_diag; [reflexivity | lia]. }
  assert (Hkeep : nth earlier (promises c ++ [Pending]) Pending
                  = nth earlier (promises c) Pending).
  { now rewrite app_nth1. }
  repeat split; trivial.
  - intros [= E]. lia.
  - cbn [handleMessage pendingChangesRef promises]. subst later.
    rewrite settle_pending_last, app_nth2, Nat.sub_diag; [reflexivity | lia].
  - cbn [handleMessage pendingChangesRef promises].
    rewrite nth_settle_other by lia. exact Hkeep.
Qed.

Lemma second_fetchChanges_displaces_the_first_witness :
  let c := snd (fetchChanges Samples.fromStart Samples.idleClient) in
  pendingChangesRef c = Some 0%nat /\
  fst (fetchChanges Samples.fromSeven c) = Returned 1%nat /\
  pendingChangesRef (snd (fetchChanges Samples.fromSeven c)) = Some 1%nat /\
  promiseState 1 (snd (fetchChanges Samples.fromSeven c)) = Pending.
Proof.
  intros c.
  destruct (second_fetchChanges_displaces_the_first Samples.fromSeven c 0%nat
              eq_refl eq_refl ltac:(vm_compute; lia))
    as (Hret & Hstate & Hslot & _).
  split; [reflexivity |]. split; [exact Hret |]. split; [exact Hslot | exact Hstate].
Defined.


Import StoreCalls UseNipDbDelete.

(** * Further properties of the code *)

(** ** Revision ids: writing and reading back *)

Lemma roundNat_safe (n : Z) : 0 <= n < 2 ^ 53 -> roundNat n = Some n.
Proof.
  intros H. unfold roundNat. destruct (Z.ltb_spec n (2 ^ 53)); [reflexivity | lia].
Qed.

Lemma roundNat_large (n v : Z) : 2 ^ 53 <= n -> roundNat n = Some v -> 2 ^ 53 <= v.
Proof.
  intros Hn. unfold roundNat.
  destruct (Z.ltb_spec n (2 ^ 53)) as [Hlt | _]; [lia |].
  assert (Hpos : 0 < n) by lia.
  pose proof (Z.log2_spec n Hpos) as [Hlow _].
  assert (Hlog : 53 <= Z.log2 n).
  { apply Z.log2_le_pow2; lia. }
  set (e := Z.log2 n - 52) in *.
  assert (He : 1 <= e) by (subst e; lia).
  set (q := Z.shiftr n e).
  assert (Hq : 2 ^ 52 <= q).
  { subst q. rewrite Z.shiftr_div_pow2 by lia.
    apply Z.div_le_lower_bound; [apply Z.pow_pos_nonneg; lia |].
    rewrite Z.mul_comm, <- Z.pow_add_r by lia.
    replace (52 + e) with (Z.log2 n) by (subst e; lia). exact Hlow. }
  cbv zeta. fold e. fold q.
  match goal with
  | |- context [if ?c then q + 1 else q] =>
      set (q' := if c then q + 1 else q);
      assert (Hq' : 2 ^ 52 <= q') by (subst q'; destruct c; lia)
  end.
  destruct (2 ^ 1024 <=? Z.shiftl q' e); [discriminate |].
  intros [= <-]. rewrite Z.shiftl_mul_pow2 by lia.
  assert (2 ^ 1 <= 2 ^ e) by (apply Z.pow_le_mono_r; lia).
  change (2 ^ 53) with (2 ^ 52 * 2 ^ 1). nia.
Qed.

Lemma shortest_safe (fuel : nat) (x p : Z) :
  0 < x < 2 ^ 53 -> 0 <= p -> fst (shortest fuel x p x) = x.
Proof.
  intros Hx. revert p. induction fuel as [| fuel IH]; intros p Hp; [reflexivity |].
  cbn [shortest].
  set (m := 10 ^ (p + 1)).
  assert (Hm : 0 < m) by (apply Z.pow_pos_nonneg; lia).
  set (lo := x / m * m).
  assert (Hlo : 0 <= lo <= x).
  { subst lo. pose proof (Z.mul_div_le x m Hm). split; [| lia].
    apply Z.mul_nonneg_nonneg; [apply Z.div_pos |]; lia. }
  assert (Hhi : x < lo + m).
  { subst lo. pose proof (Z.mod_pos_bound x m Hm).
    pose proof (Z.div_mod x m ltac:(lia)). lia. }
  rewrite (roundNat_safe lo) by lia.
  assert (HokHi : match roundNat (lo + m) with
                  | Some v => v =? x
                  | None => false
                  end = false).
  { destruct (roundNat (lo + m)) as [v |] eqn:E; [| reflexivity].
    apply Z.eqb_neq. destruct (Z.lt_ge_cases (lo + m) (2 ^ 53)) as [Hs | Hl].
    - rewrite roundNat_safe in E by lia. injection E as <-. lia.
    - pose proof (roundNat_large _ _ Hl E). lia. }
  rewrite HokHi. rewrite andb_false_r.
  destruct ((lo =? x) && (0 <? lo)) eqn:Eok; [| reflexivity].
  apply andb_true_iff in Eok. destruct Eok as [Eq _]. apply Z.eqb_eq in Eq.
  rewrite Eq. apply IH. lia.
Qed.

Lemma of_uint_acc_lower (d : Decimal.uint) (acc : positive) :
  Zpos acc * 10 ^ Z.of_nat (String.length (NilEmpty.string_of_uint d))
  <= Zpos (Pos.of_uint_acc d acc).
Proof.
  revert acc.
  induction d; intros acc; cbn [NilEmpty.string_of_uint Pos.of_uint_acc String.length];
    [rewrite Z.pow_0_r; lia | ..].
  all: rewrite Nat2Z.inj_succ, Z.pow_succ_r by lia.
  all: match goal with
       | |- _ <= Zpos (Pos.of_uint_acc _ ?a) => pose proof (IHd a) as IH
       end.
  all: match goal with
       | |- context [10 ^ ?k] => assert (HP : 0 <= 10 ^ k) by (apply Z.pow_nonneg; lia)
       end.
  all: nia.
Qed.

Lemma to_uint_head (p : positive) (d : Decimal.uint) : Pos.to_uint p <> Decimal.D0 d.
Proof.
  intros E.
  pose proof (DecimalN.Unsigned.to_of (Pos.to_uint p)) as H.
  change (N.of_uint (Pos.to_uint p)) with (Pos.of_uint (Pos.to_uint p)) in H.
  rewrite DecimalPos.Unsigned.of_to in H. cbn [N.to_uint] in H.
  rewrite E, DecimalFacts.unorm_D0 in H.
  destruct (Decimal.uint_eq_dec d Decimal.Nil) as [-> | Hd].
  - now apply (DecimalPos.Unsigned.to_uint_nonzero p).
  - pose proof (DecimalFacts.nb_digits_unorm d Hd) as Hn.
    rewrite <- H in Hn. cbn [Decimal.nb_digits] in Hn. lia.
Qed.

Lemma decimal_length (x : Z) : 0 < x < 2 ^ 53 -> (String.length (decimal x) <= 21)%nat.
Proof.
  intros Hx. unfold decimal.
  destruct x as [| p | p]; try lia. cbn [Z.to_N N.to_uint].
  pose proof (DecimalPos.Unsigned.of_to p) as Hval.
  pose proof (to_uint_head p) as Hhead.
  destruct (Pos.to_uint p) as [| d | d | d | d | d | d | d | d | d | d];
    [cbn; lia | now destruct (Hhead d) | ..];
    cbn [Pos.of_uint] in Hval; injection Hval as Hval;
    cbn [NilZero.string_of_uint NilEmpty.string_of_uint String.length];
    match type of Hval with
    | Pos.of_uint_acc _ ?k = _ => pose proof (of_uint_acc_lower d k) as Hlow
    end;
    rewrite Hval in Hlow;
    destruct (Nat.le_gt_cases (String.length (NilEmpty.string_of_uint d)) 20)
      as [Hle | Hgt]; try lia;
    exfalso;
    assert (Hpow : 10 ^ 21 <= 10 ^ Z.of_nat (String.length (NilEmpty.string_of_uint d)))
      by (apply Z.pow_le_mono_r; lia);
    assert (H53 : 2 ^ 53 < 10 ^ 21) by reflexivity;
    nia.
Qed.

(** A generation that a double holds exactly is printed as its decimal
    numeral. *)
Lemma toString_safe (n : Z) : 0 <= n < 2 ^ 53 -> toString (Num n) = decimal n.
Proof.
  intros Hn. destruct n as [| p | p]; [reflexivity | | lia].
  cbn [toString]. unfold positiveToString.
  pose proof (shortest_safe 400 (Zpos p) 0 ltac:(lia) ltac:(lia)) as Hs.
  destruct (shortest 400 (Z.pos p) 0 (Z.pos p)) as [v q]. cbn [fst] in Hs. subst v.
  pose proof (decimal_length (Zpos p) ltac:(lia)) as Hlen.
  destruct (Z.leb_spec (Z.of_nat (String.length (decimal (Z.pos p)))) 21); [reflexivity | lia].
Qed.

Lemma hexDigit_is_hex (n : Z) : 0 <= n < 16 -> Hex.isHexDigit (hexDigit n) = true.
Proof.
  intros H. destruct n as [| p | p]; [reflexivity | | lia].
  do 4 (destruct p as [p | p |]; try reflexivity); lia.
Qed.

Lemma bytesToHex_is_hex (bytes : list Z) :
  Forall (fun b => 0 <= b < 256) bytes -> Hex.allHex (bytesToHex bytes) = true.
Proof.
  induction 1 as [| b rest Hb _ IH]; [reflexivity |].
  cbn [bytesToHex Hex.allHex]. rewrite IH, !hexDigit_is_hex; [reflexivity | |].
  - change 15 with (Z.ones 4). rewrite Z.land_ones by lia.
    apply Z.mod_pos_bound. lia.
  - rewrite Z.shiftr_div_pow2 by lia. change (2 ^ 4) with 16.
    split; [apply Z.div_pos; lia | apply Z.div_lt_upper_bound; lia].
Qed.

Lemma bigEndian_bytes (count : nat) (x : Z) :
  Forall (fun b => 0 <= b < 256) (Sha256.bigEndian count x).
Proof.
  unfold Sha256.bigEndian. apply Forall_map, Forall_forall. intros i _.
  change 255 with (Z.ones 8). rewrite Z.land_ones by lia.
  apply Z.mod_pos_bound. lia.
Qed.

Lemma sha256_bytes (msg : list Z) : Forall (fun b => 0 <= b < 256) (Sha256.sha256 msg).
Proof.
  unfold Sha256.sha256. apply Forall_flat_map, Forall_forall.
  intros w _. apply bigEndian_bytes.
Qed.

Lemma prefix_is_hex (n : nat) (s : string) :
  Hex.allHex s = true -> Hex.allHex (prefix n s) = true.
Proof.
  unfold prefix. revert s. induction n as [| n IH]; intros s H.
  - now destruct s.
  - destruct s as [| c rest]; [reflexivity |]. cbn [Hex.allHex] in H.
    apply andb_true_iff in H. destruct H as [Hc Hrest].
    cbn [String.substring Hex.allHex]. now rewrite Hc, IH.
Qed.

Lemma hex_without_separator (s : string) :
  Hex.allHex s = true -> includes "-" s = false.
Proof.
  induction s as [| c rest IH]; [reflexivity |].
  cbn [Hex.allHex includes]. intros H. apply andb_true_iff in H. destruct H as [Hc Hrest].
  rewrite (IH Hrest), orb_false_r.
  destruct (Ascii.eqb_spec c "-") as [-> | _]; [discriminate | reflexivity].
Qed.

Lemma computeRevisionHash_length (prevRev : option string) (content : string) :
  String.length (computeRevisionHash prevRev content) = 32%nat.
Proof.
  unfold computeRevisionHash.
  destruct (truthy prevRev); apply prefix_length; rewrite sha256Hex_length; lia.
Qed.

(** X1. The hash of a revision is made of 32 lowercase hexadecimal digits,
    whatever the previous revision and the content are. *)
Theorem computeRevisionHash_is_hex :
  forall (prevRev : option string) (content : string),
    Hex.allHex (computeRevisionHash prevRev content) = true /\
    String.length (computeRevisionHash prevRev content) = 32%nat /\
    includes "-" (computeRevisionHash prevRev content) = false.
Proof.
  intros prevRev content.
  assert (H : Hex.allHex (computeRevisionHash prevRev content) = true).
  { unfold computeRevisionHash, sha256Hex.
    destruct (truthy prevRev); apply prefix_is_hex, bytesToHex_is_hex, sha256_bytes. }
  split; [exact H |]. split; [apply computeRevisionHash_length |].
  now apply hex_without_separator.
Qed.

Lemma parse_created (n : Z) (prevRev : option string) (content : string) :
  0 <= n < 2 ^ 53 ->
  parseRevisionId (createRevisionId (Num n) prevRev content)
  = {| generation := Num n; hash := computeRevisionHash prevRev content |}.
Proof.
  intros Hn. unfold createRevisionId. rewrite toString_safe by exact Hn.
  set (h := computeRevisionHash prevRev content).
  assert (Hhex : includes "-" h = false).
  { apply hex_without_separator. unfold h, computeRevisionHash, sha256Hex.
    destruct (truthy prevRev); apply prefix_is_hex, bytesToHex_is_hex, sha256_bytes. }
  assert (Hne : h <> "").
  { intros E. pose proof (computeRevisionHash_length prevRev content) as L.
    fold h in L. rewrite E in L. discriminate. }
  unfold parseRevisionId.
  rewrite (split_at_first_separator _ _ (decimal_without_separator n)).
  rewrite (split_without_separator _ Hhex). cbn [nth_error].
  rewrite (truthy_nonempty _ Hne), parseInt_decimal, toDouble_safe by lia.
  reflexivity.
Qed.

(** X2. A revision id written by [createRevisionId] for a generation from 0
    to 2^53 - 1 is read back by [parseRevisionId] as that generation and the
    hash that was computed. *)
Theorem parseRevisionId_of_createRevisionId :
  forall (n : Z) (prevRev : option string) (content : string),
    0 <= n < 2 ^ 53 ->
    parseRevisionId (createRevisionId (Num n) prevRev content)
    = {| generation := Num n; hash := computeRevisionHash prevRev content |}.
Proof. exact parse_created. Qed.

Lemma parseRevisionId_of_createRevisionId_witness :
  parseRevisionId (createRevisionId (Num 7) (Some "6-0123456789abcdef0123456789abcdef") "body")
  = {| generation := Num 7;
       hash := computeRevisionHash (Some "6-0123456789abcdef0123456789abcdef") "body" |}.
Proof. apply parseRevisionId_of_createRevisionId. lia. Defined.

(** ** Tags: writing and reading back *)

Lemma parent_tags_are_v (prevs : list string) (rest : list (list string)) :
  filter (tagNamed "v") (map (fun prevRev => ["v"; prevRev]) prevs ++ rest)
  = (map (fun prevRev => ["v"; prevRev]) prevs ++ filter (tagNamed "v") rest)%list.
Proof. induction prevs as [| p ps IH]; [reflexivity |]. simpl. now f_equal. Qed.

Lemma parent_tags_not_deleted (prevs : list string) (rest : list (list string)) :
  existsb (tagNamed "deleted") (map (fun prevRev => ["v"; prevRev]) prevs ++ rest)
  = existsb (tagNamed "deleted") rest.
Proof. induction prevs as [| p ps IH]; [reflexivity |]. cbn. exact IH. Qed.

Lemma parent_tag_values (prevs : list string) :
  map (fun t => nth_error t 1) (map (fun prevRev => ["v"; prevRev]) prevs) = map Some prevs.
Proof. induction prevs as [| p ps IH]; [reflexivity |]. simpl. now f_equal. Qed.

Lemma eventToRevision_of_tags (event : Event.t) (docId revisionId : string)
    (prevs : list string) (deleted : bool) :
  40000 <= Event.kind event < 50000 ->
  Event.tags event = createDocumentTags docId revisionId prevs deleted ->
  docId <> "" -> revisionId <> "" ->
  truthy (findTagValue "d" (Event.tags event)) = Some docId /\
  eventToRevision event
  = Some {| DocumentRevision.revisionId := revisionId;
            DocumentRevision.content := Event.content event;
            DocumentRevision.prevRevisionIds := map Some prevs;
            DocumentRevision.createdAt := Event.created_at event;
            DocumentRevision.eventId := Event.id event;
            DocumentRevision.deleted := deleted |}.
Proof.
  intros Hkind Htags Hdoc Hrev. unfold eventToRevision. rewrite Htags.
  replace ((Event.kind event <? 40000) || (50000 <=? Event.kind event)) with false
    by (symmetry; apply orb_false_iff; split; [apply Z.ltb_ge | apply Z.leb_gt]; lia).
  unfold createDocumentTags.
  change (findTagValue "d" ([["d"; docId]; ["i"; revisionId]] ++ _)) with (Some docId).
  change (findTagValue "i" ([["d"; docId]; ["i"; revisionId]] ++ _)) with (Some revisionId).
  rewrite !truthy_nonempty by assumption. split; [reflexivity |].
  f_equal. f_equal.
  - change (filter (tagNamed "v") ([["d"; docId]; ["i"; revisionId]] ++ ?l))
      with (filter (tagNamed "v") l).
    rewrite parent_tags_are_v. now destruct deleted; cbn; rewrite List.app_nil_r, parent_tag_values.
  - change (existsb (tagNamed "deleted") ([["d"; docId]; ["i"; revisionId]] ++ ?l))
      with (existsb (tagNamed "deleted") l).
    rewrite parent_tags_not_deleted. now destruct deleted.
Qed.

(** X3. An event of a kind from 40000 to 49999 whose tags were made by
    [createDocumentTags] from a non-empty document id and a non-empty
    revision id is decoded by [eventToRevision] into that revision id, those
    parents in their order and that deletion mark, under that document id;
    an empty document id or revision id makes the event undecodable. *)
Theorem eventToRevision_of_createDocumentTags :
  forall (event : Event.t) (docId revisionId : string) (prevs : list string)
         (deleted : bool),
    40000 <= Event.kind event < 50000 ->
    Event.tags event = createDocumentTags docId revisionId prevs deleted ->
    (docId <> "" -> revisionId <> "" ->
     truthy (findTagValue "d" (Event.tags event)) = Some docId /\
     eventToRevision event
     = Some {| DocumentRevision.revisionId := revisionId;
               DocumentRevision.content := Event.content event;
               DocumentRevision.prevRevisionIds := map Some prevs;
               DocumentRevision.createdAt := Event.created_at event;
               DocumentRevision.eventId := Event.id event;
               DocumentRevision.deleted := deleted |}) /\
    (docId = "" \/ revisionId = "" -> eventToRevision event = None).
Proof.
  intros event docId revisionId prevs deleted Hkind Htags. split.
  - intros Hdoc Hrev. now apply (eventToRevision_of_tags event docId revisionId prevs deleted).
  - intros Hempty. unfold eventToRevision. rewrite Htags.
    destruct ((Event.kind event <? 40000) || (50000 <=? Event.kind event)); [reflexivity |].
    unfold createDocumentTags.
    change (findTagValue "d" ([["d"; docId]; ["i"; revisionId]] ++ _)) with (Some docId).
    change (findTagValue "i" ([["d"; docId]; ["i"; revisionId]] ++ _)) with (Some revisionId).
    destruct Hempty as [-> | ->]; [reflexivity |].
    now destruct (truthy (Some docId)).
Qed.

Lemma eventToRevision_of_createDocumentTags_witness :
  eventToRevision Samples.thirdEvent
  = Some {| DocumentRevision.revisionId := "3-ddd";
            DocumentRevision.content := "four";
            DocumentRevision.prevRevisionIds := [Some "2-bbb"];
            DocumentRevision.createdAt := 1700000000;
            DocumentRevision.eventId := "e4";
            DocumentRevision.deleted := false |}.
Proof.
  refine (proj2 (proj1 (eventToRevision_of_createDocumentTags Samples.thirdEvent
                         "doc" "3-ddd" ["2-bbb"] false _ eq_refl) _ _)).
  - cbn. lia.
  - discriminate.
  - discriminate.
Defined.

(** ** Conflicts between two revisions *)

Lemma areInConflict_iff (rev1 rev2 : DocumentRevision.t) :
  areInConflict rev1 rev2 = true <->
  (DocumentRevision.prevRevisionIds rev1 = [] /\
   DocumentRevision.prevRevisionIds rev2 = [] /\
   DocumentRevision.revisionId rev1 <> DocumentRevision.revisionId rev2)
  \/ exists parent, In parent (DocumentRevision.prevRevisionIds rev1) /\
                    In parent (DocumentRevision.prevRevisionIds rev2).
Proof.
  unfold areInConflict.
  assert (Hshare : forall parents1 parents2,
             existsb (fun parent => setHas parent (fold_left setAdd parents1 [])) parents2
             = true <-> exists parent, In parent parents1 /\ In parent parents2).
  { intros parents1 parents2. rewrite existsb_exists. split.
    - intros (p & Hin2 & Hhas). apply setHas_in, in_fold_setAdd in Hhas.
      destruct Hhas as [[] | Hin1]. now exists p.
    - intros (p & Hin1 & Hin2). exists p. split; [exact Hin2 |].
      apply setHas_in, in_fold_setAdd. now right. }
  destruct (DocumentRevision.prevRevisionIds rev1) as [| p1 ps1] eqn:E1;
    destruct (DocumentRevision.prevRevisionIds rev2) as [| p2 ps2] eqn:E2.
  - rewrite negb_true_iff, String.eqb_neq. split.
    + intros H. left. now repeat split.
    + intros [(_ & _ & H) | (p & [] & _)]. exact H.
  - rewrite Hshare. split; [now right | intros [(_ & H & _) | H]; [discriminate | exact H]].
  - rewrite Hshare. split; [now right | intros [(H & _) | H]; [discriminate | exact H]].
  - rewrite Hshare. split; [now right | intros [(H & _) | H]; [discriminate | exact H]].
Qed.

(** X4. [areInConflict] does not depend on the order of its arguments. *)
Theorem areInConflict_symmetric :
  forall rev1 rev2 : DocumentRevision.t,
    areInConflict rev1 rev2 = areInConflict rev2 rev1.
Proof.
  intros rev1 rev2.
  destruct (areInConflict rev1 rev2) eqn:E12, (areInConflict rev2 rev1) eqn:E21;
    try reflexivity; exfalso.
  - apply areInConflict_iff in E12.
    assert (H : areInConflict rev2 rev1 = true); [| congruence].
    apply areInConflict_iff. destruct E12 as [(H1 & H2 & Hne) | (p & H1 & H2)].
    + left. repeat split; trivial. congruence.
    + right. now exists p.
  - apply areInConflict_iff in E21.
    assert (H : areInConflict rev1 rev2 = true); [| congruence].
    apply areInConflict_iff. destruct E21 as [(H1 & H2 & Hne) | (p & H1 & H2)].
    + left. repeat split; trivial. congruence.
    + right. now exists p.
Qed.

(** X5. Two revisions are in conflict exactly when they are two different
    roots (no parent on either side, different revision ids) or name a
    common parent; so a revision that has a parent is in conflict with
    itself, and a root never is. *)
Theorem areInConflict_meaning :
  forall rev1 rev2 : DocumentRevision.t,
    (areInConflict rev1 rev2 = true <->
     (DocumentRevision.prevRevisionIds rev1 = [] /\
      DocumentRevision.prevRevisionIds rev2 = [] /\
      DocumentRevision.revisionId rev1 <> DocumentRevision.revisionId rev2)
     \/ exists parent, In parent (DocumentRevision.prevRevisionIds rev1) /\
                       In parent (DocumentRevision.prevRevisionIds rev2)) /\
    (areInConflict rev1 rev1 = true <-> DocumentRevision.prevRevisionIds rev1 <> []).
Proof.
  intros rev1 rev2. split; [apply areInConflict_iff |].
  rewrite areInConflict_iff. split.
  - intros [(_ & _ & Hne) | (p & Hin & _)]; [congruence |].
    intros E. now rewrite E in Hin.
  - intros Hne. right.
    destruct (DocumentRevision.prevRevisionIds rev1) as [| p ps]; [congruence |].
    exists p. split; now left.
Qed.

(** ** The winning revision *)

Lemma sign_toDouble (z : Z) : sign (toDouble z) = (z ?= 0).
Proof.
  unfold toDouble. destruct (roundNat (Z.abs z)) as [v |] eqn:E.
  - assert (Hv : Z.abs z = 0 /\ v = 0 \/ 0 < Z.abs z /\ 0 < v).
    { destruct (Z.lt_ge_cases (Z.abs z) (2 ^ 53)) as [Hs | Hl].
      - rewrite roundNat_safe in E by lia. injection E as <-. lia.
      - pose proof (roundNat_large _ _ Hl E). lia. }
    cbn [sign]. destruct z as [| p | p]; cbn [Z.sgn Z.abs] in *.
    + reflexivity.
    + destruct Hv as [[H _] | [_ Hv]]; [discriminate |].
      destruct v; try lia. reflexivity.
    + destruct Hv as [[H _] | [_ Hv]]; [discriminate |].
      destruct v; try lia. reflexivity.
  - destruct z as [| p | p]; try reflexivity.
    rewrite roundNat_safe in E by (cbn; lia). discriminate.
Qed.

(** The first element of a sorted array is not beaten by any other, for a
    transitive relation that the comparator decides. *)
Lemma sort_head {A : Type} (cmp : A -> A -> number) (P : A -> Prop) (R : A -> A -> Prop) :
  (forall x, P x -> R x x) ->
  (forall x y z, R x y -> R y z -> R x z) ->
  (forall x y, P x -> P y -> sign (cmp x y) <> Gt -> R x y) ->
  (forall x y, P x -> P y -> sign (cmp x y) = Gt -> R y x) ->
  forall l, Forall P l -> l <> [] ->
    exists h rest, sort cmp l = h :: rest /\ In h l /\ P h /\ forall r, In r l -> R h r.
Proof.
  intros Hrefl Htrans Hle Hgt.
  induction l as [| x l IH]; intros HP Hne; [congruence |].
  inversion HP as [| ? ? Hx Hl]; subst.
  destruct l as [| y l'].
  { exists x, []. repeat split; [now left | exact Hx |]. intros r [<- | []]. now apply Hrefl. }
  destruct (IH Hl ltac:(discriminate)) as (h & rest & Hs & Hin & Hh & Hbest).
  change (sort cmp (x :: y :: l')) with (insert cmp x (sort cmp (y :: l'))).
  rewrite Hs. cbn [insert].
  destruct (sign (cmp x h)) eqn:E.
  - exists x, (h :: rest). repeat split; [now left | exact Hx |].
    assert (Hxh : R x h) by (apply Hle; trivial; congruence).
    intros r [<- | Hr]; [now apply Hrefl | eapply Htrans; eauto].
  - exists x, (h :: rest). repeat split; [now left | exact Hx |].
    assert (Hxh : R x h) by (apply Hle; trivial; congruence).
    intros r [<- | Hr]; [now apply Hrefl | eapply Htrans; eauto].
  - exists h, (insert cmp x rest). repeat split; [now right | exact Hh |].
    intros r [<- | Hr]; [now apply Hgt | now apply Hbest].
Qed.

Lemma strictEq_Num (a b : Z) : strictEq (Num a) (Num b) = (a =? b).
Proof. reflexivity. Qed.

Lemma strictEq_sym (a b : number) : strictEq a b = strictEq b a.
Proof.
  destruct a as [| s | x], b as [| t | y]; cbn; try reflexivity.
  - now destruct s, t.
  - apply Z.eqb_sym.
Qed.

Lemma compare_differing (lc : string -> string -> number) (x y : DocumentRevision.t)
    (gx gy : Z) :
  generation (parseRevisionId (DocumentRevision.revisionId x)) = Num gx ->
  generation (parseRevisionId (DocumentRevision.revisionId y)) = Num gy ->
  gx <> gy ->
  sign (compareRevisions lc x y) = (gy ?= gx).
Proof.
  intros Hx Hy Hne. unfold compareRevisions. rewrite Hx, Hy, strictEq_Num.
  destruct (Z.eqb_spec gy gx) as [E | _]; [congruence |].
  cbn [negb sub]. rewrite sign_toDouble. symmetry. apply Z.compare_sub.
Qed.

Lemma compare_tied (lc : string -> string -> number) (x y : DocumentRevision.t) (g : Z) :
  generation (parseRevisionId (DocumentRevision.revisionId x)) = Num g ->
  generation (parseRevisionId (DocumentRevision.revisionId y)) = Num g ->
  compareRevisions lc x y
  = lc (hash (parseRevisionId (DocumentRevision.revisionId y)))
       (hash (parseRevisionId (DocumentRevision.revisionId x))).
Proof.
  intros Hx Hy. unfold compareRevisions. rewrite Hx, Hy, strictEq_Num, Z.eqb_refl.
  reflexivity.
Qed.

Lemma highest_generation_first (lc : string -> string -> number)
    (revisions : list DocumentRevision.t) :
  revisions <> [] ->
  Forall (fun r => exists g,
            generation (parseRevisionId (DocumentRevision.revisionId r)) = Num g)
         revisions ->
  exists winner rest g,
    sort (compareRevisions lc) revisions = winner :: rest /\
    In winner revisions /\
    generation (parseRevisionId (DocumentRevision.revisionId winner)) = Num g /\
    (forall r g', In r revisions ->
       generation (parseRevisionId (DocumentRevision.revisionId r)) = Num g' -> g' <= g).
Proof.
  intros Hne Hnum.
  set (gen := fun r => generation (parseRevisionId (DocumentRevision.revisionId r))).
  set (genZ := fun r => match gen r with Num g => g | _ => 0 end).
  destruct (sort_head (compareRevisions lc)
              (fun r => exists g, gen r = Num g)
              (fun x y => genZ y <= genZ x))
    with (l := revisions) as (h & rest & Hs & Hin & (g & Hg) & Hbest); trivial.
  - intros x _. lia.
  - intros x y z Hxy Hyz. lia.
  - intros x y (gx & Hx) (gy & Hy) Hsign. unfold genZ. rewrite Hx, Hy.
    destruct (Z.eq_dec gx gy) as [-> | Hd]; [lia |].
    rewrite (compare_differing lc x y gx gy Hx Hy Hd) in Hsign.
    destruct (Z.compare_spec gy gx); lia || congruence.
  - intros x y (gx & Hx) (gy & Hy) Hsign. unfold genZ. rewrite Hx, Hy.
    destruct (Z.eq_dec gx gy) as [-> | Hd]; [lia |].
    rewrite (compare_differing lc x y gx gy Hx Hy Hd) in Hsign.
    apply Z.compare_gt_iff in Hsign. lia.
  - exists h, rest, g. repeat split; trivial.
    intros r g' Hr Hg'. pose proof (Hbest r Hr) as Hle. unfold genZ in Hle.
    fold (gen r) in Hg'. now rewrite Hg, Hg' in Hle.
Qed.

(** X6. Among revisions whose generations are numbers, the revision that
    [selectWinningRevision] returns is one of them and no other has a higher
    generation, whatever the collation; the array it leaves is a
    rearrangement of the one it was given. *)
Theorem winner_has_highest_generation :
  forall (lc : string -> string -> number) (revisions : list DocumentRevision.t),
    revisions <> [] ->
    Forall (fun r => exists g,
              generation (parseRevisionId (DocumentRevision.revisionId r)) = Num g)
           revisions ->
    exists winner g,
      fst (selectWinningRevision lc revisions) = Some winner /\
      In winner revisions /\
      generation (parseRevisionId (DocumentRevision.revisionId winner)) = Num g /\
      (forall r g', In r revisions ->
         generation (parseRevisionId (DocumentRevision.revisionId r)) = Num g' -> g' <= g) /\
      Permutation revisions (snd (selectWinningRevision lc revisions)).
Proof.
  intros lc revisions Hne Hnum.
  destruct (highest_generation_first lc revisions Hne Hnum)
    as (winner & rest & g & Hs & Hin & Hg & Hbest).
  exists winner, g. unfold selectWinningRevision. cbn [fst snd]. rewrite Hs.
  repeat split; trivial.
  rewrite <- Hs. apply sort_perm.
Qed.

Lemma winner_has_highest_generation_witness :
  exists winner,
    fst (selectWinningRevision Samples.codeUnitCompare
           (getRevisions "doc"
              (admitAll Samples.codeUnitCompare
                 [Samples.firstEvent; Samples.secondEvent; Samples.thirdEvent] newStore)))
    = Some winner /\
    DocumentRevision.revisionId winner = "3-ddd".
Proof.
  destruct (winner_has_highest_generation Samples.codeUnitCompare
              (getRevisions "doc"
                 (admitAll Samples.codeUnitCompare
                    [Samples.firstEvent; Samples.secondEvent; Samples.thirdEvent] newStore)))
    as (winner & g & Hw & _).
  - discriminate.
  - repeat constructor; eexists; reflexivity.
  - exists winner. split; [exact Hw |].
    vm_compute in Hw. now injection Hw as <-.
Defined.

Lemma string_compare_trans (a b c : string) :
  String.compare a b <> Gt -> String.compare b c <> Gt -> String.compare a c <> Gt.
Proof.
  intros Hab Hbc.
  destruct (String.compare a b) eqn:Eab; try congruence.
  - apply String.compare_eq_iff in Eab. now subst.
  - destruct (String.compare b c) eqn:Ebc; try congruence.
    + apply String.compare_eq_iff in Ebc. subst. now rewrite Eab.
    + apply OrderedTypeEx.String_as_OT.cmp_lt in Eab, Ebc.
      pose proof (OrderedTypeEx.String_as_OT.lt_trans _ _ _ Eab Ebc) as Hac.
      apply OrderedTypeEx.String_as_OT.cmp_lt in Hac.
      unfold OrderedTypeEx.String_as_OT.cmp in Hac. now rewrite Hac.
Qed.

Lemma string_compare_refl (a : string) : String.compare a a = Eq.
Proof. now apply OrderedTypeEx.String_as_OT.cmp_eq. Qed.

(** X7. When [localeCompare] orders strings as their code units do, the
    revision that [selectWinningRevision] returns among revisions with
    numeric generations has the highest generation and, among those of that
    generation, a hash that none exceeds. *)
Theorem winner_has_highest_hash :
  forall (lc : string -> string -> number) (revisions : list DocumentRevision.t),
    (forall a b, sign (lc a b) = String.compare a b) ->
    revisions <> [] ->
    Forall (fun r => exists g,
              generation (parseRevisionId (DocumentRevision.revisionId r)) = Num g)
           revisions ->
    exists winner,
      fst (selectWinningRevision lc revisions) = Some winner /\
      In winner revisions /\
      forall r, In r revisions ->
        generation (parseRevisionId (DocumentRevision.revisionId r))
        = generation (parseRevisionId (DocumentRevision.revisionId winner)) ->
        gt (hash (parseRevisionId (DocumentRevision.revisionId r)))
           (hash (parseRevisionId (DocumentRevision.revisionId winner))) = false.
Proof.
  intros lc revisions Hlc Hne Hnum.
  set (gen := fun r => generation (parseRevisionId (DocumentRevision.revisionId r))).
  set (genZ := fun r => match gen r with Num g => g | _ => 0 end).
  set (hashOf := fun r => hash (parseRevisionId (DocumentRevision.revisionId r))).
  destruct (sort_head (compareRevisions lc)
              (fun r => exists g, gen r = Num g)
              (fun x y => genZ y < genZ x \/
                          (genZ y = genZ x /\ String.compare (hashOf y) (hashOf x) <> Gt)))
    with (l := revisions) as (h & rest & Hs & Hin & (g & Hg) & Hbest); trivial.
  - intros x _. right. split; [reflexivity |]. now rewrite string_compare_refl.
  - intros x y z [Hxy | [Exy Hxy]] [Hyz | [Eyz Hyz]]; try (left; lia).
    right. split; [lia |]. eapply string_compare_trans; eauto.
  - intros x y (gx & Hx) (gy & Hy) Hsign. unfold genZ. rewrite Hx, Hy.
    destruct (Z.eq_dec gx gy) as [-> | Hd].
    + right. split; [reflexivity |].
      rewrite (compare_tied lc x y gy Hx Hy), Hlc in Hsign. exact Hsign.
    + left. rewrite (compare_differing lc x y gx gy Hx Hy Hd) in Hsign.
      destruct (Z.compare_spec gy gx); lia || congruence.
  - intros x y (gx & Hx) (gy & Hy) Hsign. unfold genZ. rewrite Hx, Hy.
    destruct (Z.eq_dec gx gy) as [-> | Hd].
    + right. split; [reflexivity |].
      rewrite (compare_tied lc x y gy Hx Hy), Hlc in Hsign.
      fold (hashOf y) (hashOf x) in Hsign.
      rewrite String.compare_antisym, Hsign. discriminate.
    + left. rewrite (compare_differing lc x y gx gy Hx Hy Hd) in Hsign.
      apply Z.compare_gt_iff in Hsign. lia.
  - exists h. unfold selectWinningRevision. cbn [fst]. rewrite Hs.
    repeat split; trivial.
    intros r Hr Hsame. fold (gen r) (gen h) in Hsame.
    destruct (Hbest r Hr) as [Hlt | [_ Hcmp]].
    + unfold genZ in Hlt. rewrite Hsame in Hlt. lia.
    + fold (hashOf r) (hashOf h). unfold gt, String.ltb.
      rewrite String.compare_antisym.
      destruct (String.compare (hashOf r) (hashOf h)); congruence || reflexivity.
Qed.

Lemma winner_has_highest_hash_witness :
  exists winner,
    fst (selectWinningRevision Samples.codeUnitCompare
           [{| DocumentRevision.revisionId := "2-bbb"; DocumentRevision.content := "two";
               DocumentRevision.prevRevisionIds := [Some "1-aaa"];
               DocumentRevision.createdAt := 0; DocumentRevision.eventId := "e2";
               DocumentRevision.deleted := false |};
            {| DocumentRevision.revisionId := "2-ccc"; DocumentRevision.content := "three";
               DocumentRevision.prevRevisionIds := [Some "1-aaa"];
               DocumentRevision.createdAt := 0; DocumentRevision.eventId := "e3";
               DocumentRevision.deleted := false |}])
    = Some winner /\
    DocumentRevision.revisionId winner = "2-ccc".
Proof.
  destruct (winner_has_highest_hash Samples.codeUnitCompare
              [{| DocumentRevision.revisionId := "2-bbb"; DocumentRevision.content := "two";
                  DocumentRevision.prevRevisionIds := [Some "1-aaa"];
                  DocumentRevision.createdAt := 0; DocumentRevision.eventId := "e2";
                  DocumentRevision.deleted := false |};
               {| DocumentRevision.revisionId := "2-ccc"; DocumentRevision.content := "three";
                  DocumentRevision.prevRevisionIds := [Some "1-aaa"];
                  DocumentRevision.createdAt := 0; DocumentRevision.eventId := "e3";
                  DocumentRevision.deleted := false |}])
    as (winner & Hw & _).
  - intros a b. unfold Samples.codeUnitCompare. now destruct (String.compare a b).
  - discriminate.
  - repeat constructor; eexists; reflexivity.
  - exists winner. split; [exact Hw |].
    vm_compute in Hw. now injection Hw as <-.
Defined.

(** ** What one admission does to the store *)

Lemma addRevision_effect (lc : string -> string -> number) (event : Event.t)
    (s : DocumentStore) :
  snd (addRevision lc event s) = s
  \/ exists revision dTag winning rest,
       eventToRevision event = Some revision /\
       truthy (findTagValue "d" (Event.tags event)) = Some dTag /\
       existsb (fun r => String.eqb (DocumentRevision.eventId r) (Event.id event))
               (getRevisions dTag s) = false /\
       conflictReason dTag (referencedRevisions (getRevisions dTag s) revision)
         (parseRevisionId (DocumentRevision.revisionId revision)) (getRevisions dTag s)
       = None /\
       sort (compareRevisions lc)
            (filter (survives (referencedRevisions (getRevisions dTag s) revision)
                       (parseRevisionId (DocumentRevision.revisionId revision)))
                    (getRevisions dTag s) ++ [revision])
       = winning :: rest /\
       fst (addRevision lc event s) = {| accepted := true; reason := None |} /\
       revisions (snd (addRevision lc event s))
       = JsMap.set dTag (winning :: rest) (revisions s) /\
       documents (snd (addRevision lc event s))
       = JsMap.set dTag (documentOf dTag winning) (documents s) /\
       listeners (snd (addRevision lc event s)) = listeners s /\
       cachedDocuments (snd (addRevision lc event s))
       = filter (fun d => negb (Document.deleted d))
                (JsMap.values (documents (snd (addRevision lc event s)))) /\
       invoked (snd (addRevision lc event s)) = (invoked s ++ listeners s)%list.
Proof.
  destruct (eventToRevision event) as [revision |] eqn:Hrev.
  2: { left. unfold addRevision. rewrite Hrev. reflexivity. }
  destruct (truthy (findTagValue "d" (Event.tags event))) as [dTag |] eqn:Hd.
  2: { left. unfold addRevision. rewrite Hrev, Hd. reflexivity. }
  destruct (existsb (fun r => String.eqb (DocumentRevision.eventId r) (Event.id event))
                    (getRevisions dTag s)) eqn:Hk.
  { left. rewrite (addRevision_known lc event revision dTag s Hrev Hd Hk).
    reflexivity. }
  destruct (conflictReason dTag (referencedRevisions (getRevisions dTag s) revision)
              (parseRevisionId (DocumentRevision.revisionId revision))
              (getRevisions dTag s)) as [why |] eqn:Hc.
  { left. rewrite (addRevision_rejected lc event revision dTag s Hrev Hd why Hk Hc).
    reflexivity. }
  right.
  destruct (addRevision_admitted lc event revision dTag s Hrev Hd Hk Hc)
    as (winning & rest & s' & Hf & Hadd & Hrevs & Hdocs & Hl & Hcache & Hinv).
  exists revision, dTag, winning, rest. rewrite Hadd. cbn [fst snd].
  rewrite <- Hf. repeat split; trivial.
Qed.

Lemma survivors_have_distinct_events (keep : DocumentRevision.t -> bool)
    (history : list DocumentRevision.t) :
  NoDup (map DocumentRevision.eventId history) ->
  NoDup (map DocumentRevision.eventId (filter keep history)).
Proof.
  induction history as [| x rest IH]; intros H; [constructor |].
  cbn in *. inversion H as [| ? ? Hx Hrest]; subst.
  destruct (keep x); [| now apply IH].
  cbn. constructor; [| now apply IH].
  rewrite in_map_iff in *. intros (y & Hy & Hin). apply Hx.
  exists y. split; [exact Hy |]. now apply filter_In in Hin.
Qed.

Lemma survivors_other_generation (dTag : string) (refs : list (option string))
    (np : RevisionId) (history : list DocumentRevision.t) :
  conflictReason dTag refs np history = None ->
  forall e, In e history -> survives refs np e = true ->
    strictEq (generation (parseRevisionId (DocumentRevision.revisionId e)))
             (generation np) = false.
Proof.
  induction history as [| x rest IH]; intros Hc e Hin Hs; [destruct Hin |].
  cbn [conflictReason] in Hc.
  destruct Hin as [<- | Hin].
  - unfold survives in Hs.
    destruct (strictEq (generation (parseRevisionId (DocumentRevision.revisionId x)))
                       (generation np)); [| reflexivity].
    destruct (setHas (Some (DocumentRevision.revisionId x)) refs); [discriminate |].
    rewrite Hs in Hc. discriminate.
  - apply IH; trivial.
    destruct (strictEq (generation (parseRevisionId (DocumentRevision.revisionId x)))
                       (generation np)); [| exact Hc].
    destruct (setHas (Some (DocumentRevision.revisionId x)) refs); [discriminate |].
    destruct (gt (hash (parseRevisionId (DocumentRevision.revisionId x))) (hash np));
      [discriminate | exact Hc].
Qed.

Lemma existsb_eventId_false (id : string) (history : list DocumentRevision.t) :
  existsb (fun r => String.eqb (DocumentRevision.eventId r) id) history = false ->
  ~ In id (map DocumentRevision.eventId history).
Proof.
  intros H Hin. apply in_map_iff in Hin. destruct Hin as (r & Hr & Hin).
  assert (E : existsb (fun r => String.eqb (DocumentRevision.eventId r) id) history = true).
  { apply existsb_exists. exists r. split; [exact Hin |]. rewrite Hr. apply String.eqb_refl. }
  congruence.
Qed.

(** The array that an admission sorts: distinct event ids, one revision a
    generation, when the history was so. *)
Lemma admitted_array (dTag : string) (history : list DocumentRevision.t)
    (revision : DocumentRevision.t) :
  let refs := referencedRevisions history revision in
  let np := parseRevisionId (DocumentRevision.revisionId revision) in
  let array := (filter (survives refs np) history ++ [revision])%list in
  NoDup (map DocumentRevision.eventId history) ->
  (forall a b, In a history -> In b history ->
     strictEq (generation (parseRevisionId (DocumentRevision.revisionId a)))
              (generation (parseRevisionId (DocumentRevision.revisionId b))) = true ->
     a = b) ->
  existsb (fun r => String.eqb (DocumentRevision.eventId r)
                               (DocumentRevision.eventId revision)) history = false ->
  conflictReason dTag refs np history = None ->
  NoDup (map DocumentRevision.eventId array) /\
  (forall a b, In a array -> In b array ->
     strictEq (generation (parseRevisionId (DocumentRevision.revisionId a)))
              (generation (parseRevisionId (DocumentRevision.revisionId b))) = true ->
     a = b).
Proof.
  intros refs np array Hids Hone Hnew Hc. split.
  - subst array. rewrite map_app. cbn [map].
    apply NoDup_app.
    + now apply survivors_have_distinct_events.
    + constructor; [intros [] | constructor].
    + intros id Hin [<- | []].
      apply (existsb_eventId_false _ _ Hnew).
      apply in_map_iff in Hin. destruct Hin as (r & Hr & Hin).
      apply in_map_iff. exists r. split; [exact Hr |]. now apply filter_In in Hin.
  - intros a b Ha Hb Hgen. subst array.
    apply in_app_iff in Ha, Hb. cbn [In] in Ha, Hb.
    destruct Ha as [Ha | [<- | []]], Hb as [Hb | [<- | []]].
    + apply filter_In in Ha, Hb. now apply Hone.
    + apply filter_In in Ha. destruct Ha as [Ha Hs].
      pose proof (survivors_other_generation dTag refs np history Hc a Ha Hs) as Hf.
      fold np in Hgen. congruence.
    + apply filter_In in Hb. destruct Hb as [Hb Hs].
      pose proof (survivors_other_generation dTag refs np history Hc b Hb Hs) as Hf.
      rewrite strictEq_sym in Hgen. fold np in Hgen. congruence.
    + reflexivity.
Qed.

(** ** Stores reached from a new one *)

Lemma set_keys {V : Type} (k : string) (v : V) (m : JsMap.t V) :
  forall k', In k' (map fst (JsMap.set k v m)) <-> k' = k \/ In k' (map fst m).
Proof.
  induction m as [| [k0 v0] rest IH]; intros k'; cbn.
  - intuition congruence.
  - destruct (String.eqb_spec k0 k) as [-> | Hne]; cbn.
    + intuition congruence.
    + rewrite IH. intuition congruence.
Qed.

Lemma set_keys_NoDup {V : Type} (k : string) (v : V) (m : JsMap.t V) :
  NoDup (map fst m) -> NoDup (map fst (JsMap.set k v m)).
Proof.
  induction m as [| [k0 v0] rest IH]; intros H; cbn.
  - constructor; [intros [] | constructor].
  - cbn in H. inversion H as [| ? ? Hk0 Hrest]; subst.
    destruct (String.eqb_spec k0 k) as [-> | Hne]; cbn.
    + now constructor.
    + constructor; [| now apply IH].
      rewrite set_keys. intuition congruence.
Qed.

Lemma get_in {V : Type} (m : JsMap.t V) (k : string) (v : V) :
  JsMap.get k m = Some v -> In (k, v) m.
Proof.
  induction m as [| [k0 v0] rest IH]; cbn; [discriminate |].
  destruct (String.eqb_spec k0 k) as [-> | Hne].
  - intros [= ->]. now left.
  - intros H. right. now apply IH.
Qed.

Lemma in_get {V : Type} (m : JsMap.t V) (k : string) (v : V) :
  NoDup (map fst m) -> In (k, v) m -> JsMap.get k m = Some v.
Proof.
  induction m as [| [k0 v0] rest IH]; cbn; intros Hnd Hin; [destruct Hin |].
  inversion Hnd as [| ? ? Hk0 Hrest]; subst.
  destruct Hin as [[= -> ->] | Hin].
  - now rewrite String.eqb_refl.
  - destruct (String.eqb_spec k0 k) as [-> | Hne]; [| now apply IH].
    exfalso. apply Hk0. apply in_map_iff. now exists (k, v).
Qed.

Lemma consistent_new : consistent newStore.
Proof.
  repeat split; try reflexivity; try constructor.
  intros docId a b [].
Qed.

Lemma consistent_addRevision (lc : string -> string -> number) (event : Event.t)
    (s : DocumentStore) :
  consistent s -> consistent (snd (addRevision lc event s)).
Proof.
  intros (Hmirror & Hcache & Hkeys & Hids & Hone).
  destruct (addRevision_effect lc event s)
    as [-> | (revision & dTag & winning & rest & Hrev & Hd & Hk & Hc & Hsort & _
                & Hrevs & Hdocs & _ & Hcache' & _)];
    [repeat split; trivial |].
  set (s' := snd (addRevision lc event s)) in *.
  assert (Hhist : forall docId,
             getRevisions docId s'
             = if String.eqb dTag docId then winning :: rest else getRevisions docId s).
  { intros docId. unfold getRevisions. rewrite Hrevs.
    destruct (String.eqb_spec dTag docId) as [<- | Hne]; [now rewrite get_set_same |].
    rewrite get_set_other by congruence. reflexivity. }
  rewrite <- (eventToRevision_eventId _ _ Hrev) in Hk.
  destruct (admitted_array dTag (getRevisions dTag s) revision (Hids dTag) (Hone dTag) Hk Hc)
    as (Hids' & Hone').
  pose proof (sort_perm (compareRevisions lc)
                (filter (survives (referencedRevisions (getRevisions dTag s) revision)
                           (parseRevisionId (DocumentRevision.revisionId revision)))
                        (getRevisions dTag s) ++ [revision])) as Hperm.
  rewrite Hsort in Hperm.
  repeat split.
  - intros docId. rewrite Hhist. unfold getDocument. rewrite Hdocs.
    destruct (String.eqb_spec dTag docId) as [<- | Hne]; [now rewrite get_set_same |].
    rewrite get_set_other by congruence. apply Hmirror.
  - exact Hcache'.
  - rewrite Hdocs. now apply set_keys_NoDup.
  - intros docId. rewrite Hhist.
    destruct (String.eqb dTag docId); [| apply Hids].
    eapply Permutation_NoDup; [apply Permutation_map, Hperm | exact Hids'].
  - intros docId a b. rewrite Hhist.
    destruct (String.eqb dTag docId); [| apply Hone].
    intros Ha Hb. apply Hone'; eapply Permutation_in; try apply Permutation_sym; eauto.
Qed.

Lemma consistent_call (lc : string -> string -> number) (c : Call) (s : DocumentStore) :
  consistent s -> consistent (call lc c s).
Proof.
  destruct c as [event | listener | listener |]; cbn [call].
  - apply consistent_addRevision.
  - intros H. exact H.
  - intros H. exact H.
  - intros _. repeat split; try reflexivity; try constructor.
    intros docId a b [].
Qed.

Lemma consistent_calls (lc : string -> string -> number) (cs : list Call)
    (s : DocumentStore) :
  consistent s -> consistent (calls lc cs s).
Proof.
  revert s. induction cs as [| c cs IH]; intros s H; [exact H |].
  apply IH, consistent_call, H.
Qed.

Lemma reached_consistent (lc : string -> string -> number) (cs : list Call) :
  consistent (calls lc cs newStore).
Proof. apply consistent_calls, consistent_new. Qed.

(** X8. In every store reached from a new one by calls of its methods, each
    document is the copy of the first revision of its history, and an id has
    a document exactly when its history is not empty. *)
Theorem document_mirrors_history :
  forall (lc : string -> string -> number) (cs : list Call) (docId : string),
    let s := calls lc cs newStore in
    getDocument docId s
    = match getRevisions docId s with
      | [] => None
      | winning :: _ => Some (documentOf docId winning)
      end.
Proof.
  intros lc cs docId s. destruct (reached_consistent lc cs) as (H & _). apply H.
Qed.

Lemma consistent_snapshot (s : DocumentStore) (doc : Document.t) :
  consistent s ->
  In doc (getAllDocuments s) <->
  getDocument (Document.id doc) s = Some doc /\ Document.deleted doc = false.
Proof.
  intros (Hmirror & Hcache & Hkeys & _).
  unfold getAllDocuments. rewrite Hcache, filter_In, negb_true_iff.
  unfold JsMap.values. rewrite in_map_iff. split.
  - intros [[[k d] [Hd Hin]] Hlive]. cbn in Hd. subst d.
    split; [| exact Hlive].
    pose proof (in_get _ _ _ Hkeys Hin) as Hget.
    assert (Hid : Document.id doc = k).
    { pose proof (Hmirror k) as Hm. unfold getDocument in Hm. rewrite Hget in Hm.
      destruct (getRevisions k s); [discriminate |]. now injection Hm as ->. }
    rewrite Hid. exact Hget.
  - intros [Hget Hlive]. split; [| exact Hlive].
    exists (Document.id doc, doc). split; [reflexivity |]. now apply get_in.
Qed.

(** X9. In every store reached from a new one, the snapshot that
    [getAllDocuments] returns holds exactly the current documents that are
    not deleted, each under its own id. *)
Theorem snapshot_lists_live_documents :
  forall (lc : string -> string -> number) (cs : list Call) (doc : Document.t),
    let s := calls lc cs newStore in
    In doc (getAllDocuments s) <->
    getDocument (Document.id doc) s = Some doc /\ Document.deleted doc = false.
Proof.
  intros lc cs doc s. apply consistent_snapshot, reached_consistent.
Qed.

(** X10. In every store reached from a new one, no two revisions of a
    history carry the same event id. *)
Theorem event_ids_are_unique :
  forall (lc : string -> string -> number) (cs : list Call) (docId : string),
    NoDup (map DocumentRevision.eventId (getRevisions docId (calls lc cs newStore))).
Proof.
  intros lc cs docId. destruct (reached_consistent lc cs) as (_ & _ & _ & H & _). apply H.
Qed.

(** X11. In every store reached from a new one, a history holds at most one
    revision of each generation: two of its revisions whose generations are
    equal numbers are the same revision. *)
Theorem one_revision_per_generation :
  forall (lc : string -> string -> number) (cs : list Call) (docId : string)
         (a b : DocumentRevision.t),
    In a (getRevisions docId (calls lc cs newStore)) ->
    In b (getRevisions docId (calls lc cs newStore)) ->
    strictEq (generation (parseRevisionId (DocumentRevision.revisionId a)))
             (generation (parseRevisionId (DocumentRevision.revisionId b))) = true ->
    a = b.
Proof.
  intros lc cs docId a b. destruct (reached_consistent lc cs) as (_ & _ & _ & _ & H).
  apply H.
Qed.

Lemma one_revision_per_generation_witness :
  let history :=
    getRevisions "doc"
      (calls Samples.codeUnitCompare
         [AddRevision Samples.firstEvent; AddRevision Samples.secondEvent;
          AddRevision Samples.rivalEvent] newStore) in
  let rival :=
    {| DocumentRevision.revisionId := "2-ccc"; DocumentRevision.content := "three";
       DocumentRevision.prevRevisionIds := [Some "1-aaa"];
       DocumentRevision.createdAt := Event.created_at Samples.rivalEvent;
       DocumentRevision.eventId := "e3"; DocumentRevision.deleted := false |} in
  In rival history /\
  nth_error history 0 = Some rival.
Proof.
  intros history rival.
  assert (Hin : In rival history) by (vm_compute; now left).
  split; [exact Hin |].
  destruct history as [| first rest] eqn:E; [destruct Hin |].
  cbn [nth_error]. f_equal.
  apply (one_revision_per_generation Samples.codeUnitCompare
           [AddRevision Samples.firstEvent; AddRevision Samples.secondEvent;
            AddRevision Samples.rivalEvent] "doc" first rival).
  - fold history. rewrite E. now left.
  - fold history. rewrite E. exact Hin.
  - assert (Hf : nth_error history 0 = Some first) by now rewrite E.
    vm_compute in Hf. injection Hf as <-. reflexivity.
Defined.

(** ** The collation never decides what a store holds *)

Lemma insert_ext {A : Type} (c1 c2 : A -> A -> number) (x : A) (sorted : list A) :
  (forall y, In y sorted -> c1 x y = c2 x y) ->
  insert c1 x sorted = insert c2 x sorted.
Proof.
  induction sorted as [| y rest IH]; intros H; [reflexivity |].
  cbn [insert]. rewrite <- (H y) by now left.
  rewrite IH by (intros z Hz; apply H; now right). reflexivity.
Qed.

Lemma sort_ext {A : Type} (c1 c2 : A -> A -> number) (l : list A) :
  NoDup l ->
  (forall a b, In a l -> In b l -> a <> b -> c1 a b = c2 a b) ->
  sort c1 l = sort c2 l.
Proof.
  induction l as [| x l IH]; intros Hnd H; [reflexivity |].
  inversion Hnd as [| ? ? Hx Hl]; subst.
  change (sort c1 (x :: l)) with (insert c1 x (sort c1 l)).
  change (sort c2 (x :: l)) with (insert c2 x (sort c2 l)).
  rewrite <- IH; [| exact Hl | intros a b Ha Hb; apply H; now right].
  apply insert_ext. intros y Hy.
  assert (Hin : In y l).
  { eapply Permutation_in; [apply Permutation_sym, sort_perm | exact Hy]. }
  apply H; [now left | now right | intros ->; contradiction].
Qed.

Lemma addRevision_ext (lc lc' : string -> string -> number) (event : Event.t)
    (s : DocumentStore) :
  consistent s -> addRevision lc event s = addRevision lc' event s.
Proof.
  intros (_ & _ & _ & Hids & Hone).
  destruct (eventToRevision event) as [revision |] eqn:Hrev.
  2: { unfold addRevision. rewrite Hrev. reflexivity. }
  destruct (truthy (findTagValue "d" (Event.tags event))) as [dTag |] eqn:Hd.
  2: { unfold addRevision. rewrite Hrev, Hd. reflexivity. }
  destruct (existsb (fun r => String.eqb (DocumentRevision.eventId r) (Event.id event))
                    (getRevisions dTag s)) eqn:Hk.
  { rewrite (addRevision_known lc event revision dTag s Hrev Hd Hk).
    now rewrite (addRevision_known lc' event revision dTag s Hrev Hd Hk). }
  destruct (conflictReason dTag (referencedRevisions (getRevisions dTag s) revision)
              (parseRevisionId (DocumentRevision.revisionId revision))
              (getRevisions dTag s)) as [why |] eqn:Hc.
  { rewrite (addRevision_rejected lc event revision dTag s Hrev Hd why Hk Hc).
    now rewrite (addRevision_rejected lc' event revision dTag s Hrev Hd why Hk Hc). }
  destruct (addRevision_admitted lc event revision dTag s Hrev Hd Hk Hc)
    as (w & r & s1 & Hf & -> & Hr1 & Hd1 & Hl1 & Hc1 & Hi1).
  destruct (addRevision_admitted lc' event revision dTag s Hrev Hd Hk Hc)
    as (w' & r' & s2 & Hf' & -> & Hr2 & Hd2 & Hl2 & Hc2 & Hi2).
  assert (Hsame : w :: r = w' :: r').
  { rewrite <- Hf, <- Hf'.
    pose proof Hk as Hk'. rewrite <- (eventToRevision_eventId _ _ Hrev) in Hk'.
    destruct (admitted_array dTag (getRevisions dTag s) revision (Hids dTag) (Hone dTag) Hk' Hc)
      as (Hids' & Hone').
    apply sort_ext.
    - exact (NoDup_map_inv _ _ Hids').
    - intros a b Ha Hb Hne. unfold compareRevisions.
      destruct (strictEq (generation (parseRevisionId (DocumentRevision.revisionId b)))
                         (generation (parseRevisionId (DocumentRevision.revisionId a))))
        eqn:E; [| reflexivity].
      exfalso. apply Hne. symmetry. now apply Hone'. }
  injection Hsame as <- <-.
  f_equal. rewrite Hf in Hr1. rewrite Hf' in Hr2.
  destruct s1 as [d1 r1 l1 c1 i1], s2 as [d2 r2 l2 c2 i2]. cbn in *. congruence.
Qed.

Lemma calls_ext (lc lc' : string -> string -> number) (cs : list Call) (s : DocumentStore) :
  consistent s -> calls lc cs s = calls lc' cs s.
Proof.
  revert s. induction cs as [| c cs IH]; intros s H; [reflexivity |].
  unfold calls. cbn [fold_left].
  assert (E : call lc c s = call lc' c s).
  { destruct c; cbn [call]; try reflexivity. now rewrite (addRevision_ext lc lc'). }
  rewrite E. apply IH. rewrite <- E. now apply consistent_call.
Qed.

(** X12. [localeCompare] never decides what a store holds: starting from a
    new store, the same calls give the same store under any two collations,
    because the arrays that [addRevision] sorts never hold two revisions of
    one generation. *)
Theorem store_is_independent_of_collation :
  forall (lc lc' : string -> string -> number) (cs : list Call),
    calls lc cs newStore = calls lc' cs newStore.
Proof.
  intros lc lc' cs. apply calls_ext, consistent_new.
Qed.

(** ** One document at a time *)

Lemma truthy_some (v : option string) (d : string) : truthy v = Some d -> v = Some d.
Proof. destruct v as [[| c rest] |]; cbn; congruence. Qed.

(** X13. [addRevision] reads and writes one document only: the history and
    the document of every id other than the event's [d] tag are as before. *)
Theorem addRevision_touches_one_document :
  forall (lc : string -> string -> number) (event : Event.t) (s : DocumentStore)
         (docId : string),
    findTagValue "d" (Event.tags event) <> Some docId ->
    getRevisions docId (snd (addRevision lc event s)) = getRevisions docId s /\
    getDocument docId (snd (addRevision lc event s)) = getDocument docId s.
Proof.
  intros lc event s docId Hother.
  destruct (addRevision_effect lc event s)
    as [-> | (revision & dTag & winning & rest & _ & Hd & _ & _ & _ & _
                & Hrevs & Hdocs & _)]; [now split |].
  apply truthy_some in Hd.
  assert (Hne : docId <> dTag) by congruence.
  unfold getRevisions, getDocument. rewrite Hrevs, Hdocs.
  now rewrite !get_set_other by exact Hne.
Qed.

Lemma addRevision_touches_one_document_witness :
  let lc := Samples.codeUnitCompare in
  let s := admitAll lc [Samples.sampleEvent 40001 "e1" "1-aaa" [] "one";
                        finalizeEvent 40001 "else"
                          (createDocumentTags "other" "1-zzz" [] false)
                          Samples.signedHello] newStore in
  findTagValue "d" (Event.tags Samples.secondEvent) <> Some "other" /\
  getRevisions "other" (snd (addRevision lc Samples.secondEvent s)) = getRevisions "other" s /\
  getDocument "other" (snd (addRevision lc Samples.secondEvent s)) = getDocument "other" s /\
  getRevisions "doc" (snd (addRevision lc Samples.secondEvent s)) <> getRevisions "doc" s.
Proof.
  intros lc s.
  assert (Hother : findTagValue "d" (Event.tags Samples.secondEvent) <> Some "other")
    by discriminate.
  destruct (addRevision_touches_one_document lc Samples.secondEvent s "other" Hother)
    as [Hrevs Hdoc].
  split; [exact Hother |]. split; [exact Hrevs |]. split; [exact Hdoc |].
  vm_compute. discriminate.
Defined.

(** ** Listeners *)

Lemma calls_app (lc : string -> string -> number) (cs cs' : list Call) (s : DocumentStore) :
  calls lc (cs ++ cs') s = calls lc cs' (calls lc cs s).
Proof. unfold calls. apply fold_left_app. Qed.

Lemma addRevision_listeners (lc : string -> string -> number) (event : Event.t)
    (s : DocumentStore) :
  listeners (snd (addRevision lc event s)) = listeners s /\
  (invoked (snd (addRevision lc event s)) = invoked s \/
   invoked (snd (addRevision lc event s)) = (invoked s ++ listeners s)%list).
Proof.
  destruct (addRevision_effect lc event s)
    as [-> | (revision & dTag & winning & rest & _ & _ & _ & _ & _ & _
                & _ & _ & Hl & _ & Hi)]; [now split; [| left] |].
  split; [exact Hl | now right].
Qed.

Lemma count_occ_absent (l : nat) (ls : list nat) :
  ~ In l ls -> count_occ Nat.eq_dec ls l = 0%nat.
Proof. apply count_occ_not_In. Qed.

Lemma silent_listener (lc : string -> string -> number) (l : nat) (cs : list Call) :
  (forall c, In c cs -> c <> Subscribe l) ->
  forall s, ~ In l (listeners s) ->
    ~ In l (listeners (calls lc cs s)) /\
    count_occ Nat.eq_dec (invoked (calls lc cs s)) l = count_occ Nat.eq_dec (invoked s) l.
Proof.
  induction cs as [| c cs IH]; intros Hcs s Hl; [now split |].
  assert (Hstep : ~ In l (listeners (call lc c s)) /\
                  count_occ Nat.eq_dec (invoked (call lc c s)) l
                  = count_occ Nat.eq_dec (invoked s) l).
  { destruct c as [event | l' | l' |]; cbn [call].
    - destruct (addRevision_listeners lc event s) as [-> [-> | ->]]; [now split |].
      split; [exact Hl |]. rewrite count_occ_app, (count_occ_absent l (listeners s) Hl). lia.
    - split; [| reflexivity]. cbn.
      destruct (existsb (Nat.eqb l') (listeners s)); [exact Hl |].
      rewrite in_app_iff. intros [H | [-> | []]]; [contradiction |].
      apply (Hcs (Subscribe l)); [now left | reflexivity].
    - split; [| reflexivity]. cbn. rewrite filter_In. tauto.
    - split; [exact Hl |]. cbn.
      rewrite count_occ_app, (count_occ_absent l (listeners s) Hl). lia. }
  destruct Hstep as [Hl' Hcount].
  destruct (IH (fun c' Hc' => Hcs c' (or_intror Hc')) (call lc c s) Hl') as [Hl'' Hcount'].
  split; [exact Hl'' |]. change (calls lc (c :: cs) s) with (calls lc cs (call lc c s)).
  now rewrite Hcount'.
Qed.

(** X14. A listener that was unsubscribed is not called again until it is
    subscribed again: whatever the store then admits or clears, the number
    of its calls stays what it was. *)
Theorem unsubscribed_listener_is_not_called :
  forall (lc : string -> string -> number) (cs cs' : list Call) (l : nat)
         (s : DocumentStore),
    (forall c, In c cs' -> c <> Subscribe l) ->
    count_occ Nat.eq_dec (invoked (calls lc (cs ++ Unsubscribe l :: cs') s)) l
    = count_occ Nat.eq_dec (invoked (calls lc cs s)) l.
Proof.
  intros lc cs cs' l s Hcs'.
  rewrite calls_app. change (calls lc (Unsubscribe l :: cs') ?s0)
    with (calls lc cs' (unsubscribe l s0)).
  assert (Hl : ~ In l (listeners (unsubscribe l (calls lc cs s)))).
  { cbn. rewrite filter_In, Nat.eqb_refl. intros [_ H]. discriminate. }
  destruct (silent_listener lc l cs' Hcs' _ Hl) as [_ ->]. reflexivity.
Qed.

Lemma unsubscribed_listener_is_not_called_witness :
  let lc := Samples.codeUnitCompare in
  let before := [Subscribe 7%nat; AddRevision Samples.firstEvent] in
  let after := [AddRevision Samples.secondEvent; Clear] in
  (forall c, In c after -> c <> Subscribe 7%nat) /\
  count_occ Nat.eq_dec (invoked (calls lc before newStore)) 7%nat = 1%nat /\
  count_occ Nat.eq_dec
    (invoked (calls lc (before ++ Unsubscribe 7%nat :: after) newStore)) 7%nat = 1%nat.
Proof.
  intros lc before after.
  assert (Hafter : forall c, In c after -> c <> Subscribe 7%nat).
  { intros c [<- | [<- | []]]; discriminate. }
  split; [exact Hafter |]. split; [reflexivity |].
  rewrite (unsubscribed_listener_is_not_called lc before after 7%nat newStore Hafter).
  reflexivity.
Defined.

Lemma listeners_NoDup (lc : string -> string -> number) (cs : list Call) :
  forall s, NoDup (listeners s) -> NoDup (listeners (calls lc cs s)).
Proof.
  induction cs as [| c cs IH]; intros s H; [exact H |].
  change (calls lc (c :: cs) s) with (calls lc cs (call lc c s)). apply IH.
  destruct c as [event | l' | l' |]; cbn [call].
  - now destruct (addRevision_listeners lc event s) as [-> _].
  - cbn. destruct (existsb (Nat.eqb l') (listeners s)) eqn:E; [exact H |].
    apply NoDup_app; [exact H | repeat constructor; intros [] |].
    intros a Ha [Ea | []].
    assert (E' : existsb (Nat.eqb l') (listeners s) = true).
    { apply existsb_exists. exists a. split; [exact Ha | rewrite Ea; apply Nat.eqb_refl]. }
    congruence.
  - cbn. now apply NoDup_filter.
  - exact H.
Qed.

(** X15. The listeners are a set: in a store reached from a new one, however
    often a listener was subscribed, an [addRevision] either leaves the
    store as it was or calls that listener exactly once. *)
Theorem subscribed_listener_is_called_once :
  forall (lc : string -> string -> number) (cs : list Call) (event : Event.t) (l : nat),
    let s := calls lc cs newStore in
    In l (listeners s) ->
    snd (addRevision lc event s) = s \/
    count_occ Nat.eq_dec (invoked (snd (addRevision lc event s))) l
    = S (count_occ Nat.eq_dec (invoked s) l).
Proof.
  intros lc cs event l s Hl.
  destruct (addRevision_effect lc event s)
    as [-> | (revision & dTag & winning & rest & _ & _ & _ & _ & _ & _
                & _ & _ & _ & _ & Hi)]; [now left |].
  right. rewrite Hi, count_occ_app.
  assert (Hnd : NoDup (listeners s)) by (apply listeners_NoDup; constructor).
  pose proof (proj1 (NoDup_count_occ Nat.eq_dec (listeners s)) Hnd l) as Hle.
  pose proof (proj1 (count_occ_In Nat.eq_dec (listeners s) l) Hl) as Hge.
  lia.
Qed.

Lemma subscribed_listener_is_called_once_witness :
  let lc := Samples.codeUnitCompare in
  let cs := [Subscribe 7%nat; Subscribe 7%nat; AddRevision Samples.firstEvent] in
  In 7%nat (listeners (calls lc cs newStore)) /\
  count_occ Nat.eq_dec
    (invoked (snd (addRevision lc Samples.secondEvent (calls lc cs newStore)))) 7%nat
  = 2%nat.
Proof.
  intros lc cs.
  assert (Hl : In 7%nat (listeners (calls lc cs newStore))) by (now left).
  split; [exact Hl |].
  destruct (subscribed_listener_is_called_once lc cs Samples.secondEvent 7%nat Hl)
    as [Hsame | Hcount].
  - apply (f_equal invoked) in Hsame. vm_compute in Hsame. discriminate.
  - rewrite Hcount. reflexivity.
Defined.

(** ** A revision of a newer generation *)

Lemma conflictReason_none (dTag : string) (refs : list (option string)) (np : RevisionId)
    (history : list DocumentRevision.t) :
  (forall r, In r history ->
     strictEq (generation (parseRevisionId (DocumentRevision.revisionId r)))
              (generation np) = false) ->
  conflictReason dTag refs np history = None.
Proof.
  induction history as [| x rest IH]; intros H; [reflexivity |].
  cbn [conflictReason]. rewrite (H x) by now left.
  apply IH. intros r Hr. apply H. now right.
Qed.

Lemma survives_all (refs : list (option string)) (np : RevisionId)
    (history : list DocumentRevision.t) :
  (forall r, In r history ->
     strictEq (generation (parseRevisionId (DocumentRevision.revisionId r)))
              (generation np) = false) ->
  filter (survives refs np) history = history.
Proof.
  induction history as [| x rest IH]; intros H; [reflexivity |].
  cbn [filter]. unfold survives at 1. rewrite (H x) by now left.
  f_equal. apply IH. intros r Hr. apply H. now right.
Qed.

Lemma newest_first (lc : string -> string -> number) (revision : DocumentRevision.t)
    (g : Z) (history : list DocumentRevision.t) :
  generation (parseRevisionId (DocumentRevision.revisionId revision)) = Num g ->
  (forall r, In r history ->
     exists g', generation (parseRevisionId (DocumentRevision.revisionId r)) = Num g' /\
                g' < g) ->
  sort (compareRevisions lc) (history ++ [revision])
  = revision :: sort (compareRevisions lc) history.
Proof.
  intros Hg. induction history as [| x rest IH]; intros H; [reflexivity |].
  change (sort (compareRevisions lc) ((x :: rest) ++ [revision]))
    with (insert (compareRevisions lc) x (sort (compareRevisions lc) (rest ++ [revision]))).
  rewrite IH by (intros r Hr; apply H; now right).
  destruct (H x (or_introl eq_refl)) as (gx & Hx & Hlt).
  cbn [insert]. rewrite (compare_differing lc x revision gx g Hx Hg) by lia.
  replace (g ?= gx) with Gt by (symmetry; apply Z.compare_gt_iff; lia).
  reflexivity.
Qed.

Lemma newer_admitted (lc : string -> string -> number) (event : Event.t)
    (revision : DocumentRevision.t) (dTag : string) (g : Z) (s : DocumentStore) :
  eventToRevision event = Some revision ->
  truthy (findTagValue "d" (Event.tags event)) = Some dTag ->
  generation (parseRevisionId (DocumentRevision.revisionId revision)) = Num g ->
  (forall r, In r (getRevisions dTag s) ->
     DocumentRevision.eventId r <> Event.id event /\
     exists g', generation (parseRevisionId (DocumentRevision.revisionId r)) = Num g' /\
                g' < g) ->
  exists s',
    addRevision lc event s = ({| accepted := true; reason := None |}, s') /\
    getDocument dTag s' = Some (documentOf dTag revision) /\
    getRevisions dTag s'
    = revision :: sort (compareRevisions lc) (getRevisions dTag s) /\
    cachedDocuments s'
    = filter (fun d => negb (Document.deleted d)) (JsMap.values (documents s')) /\
    documents s' = JsMap.set dTag (documentOf dTag revision) (documents s).
Proof.
  intros Hrev Hd Hg Hold.
  assert (Hk : existsb (fun r => String.eqb (DocumentRevision.eventId r) (Event.id event))
                       (getRevisions dTag s) = false).
  { destruct (existsb _ _) eqn:E; [| reflexivity].
    apply existsb_exists in E. destruct E as (r & Hr & E).
    apply String.eqb_eq in E. now destruct (Hold r Hr). }
  assert (Hgen : forall r, In r (getRevisions dTag s) ->
            strictEq (generation (parseRevisionId (DocumentRevision.revisionId r)))
                     (generation (parseRevisionId (DocumentRevision.revisionId revision)))
            = false).
  { intros r Hr. destruct (Hold r Hr) as (_ & g' & -> & Hlt).
    rewrite Hg, strictEq_Num. apply Z.eqb_neq. lia. }
  pose proof (conflictReason_none dTag
                (referencedRevisions (getRevisions dTag s) revision) _ _ Hgen) as Hc.
  destruct (addRevision_admitted lc event revision dTag s Hrev Hd Hk Hc)
    as (w & rest & s' & Hf & Hadd & Hrevs & Hdocs & _ & Hcache & _).
  rewrite (survives_all _ _ _ Hgen) in Hf, Hrevs.
  rewrite (newest_first lc revision g) in Hf, Hrevs
    by (trivial; intros r Hr; now destruct (Hold r Hr)).
  injection Hf as <- <-.
  exists s'. split; [exact Hadd |].
  split; [unfold getDocument; rewrite Hdocs; apply get_set_same |].
  split; [unfold getRevisions at 1; now rewrite Hrevs, get_set_same |].
  split; [exact Hcache | exact Hdocs].
Qed.

(** X16. A well-formed event that the history does not hold, and whose
    generation is above every generation of the history, is accepted: its
    revision becomes the document and the first of the history, and the
    revisions that were there all stay behind it. *)
Theorem newer_generation_becomes_the_document :
  forall (lc : string -> string -> number) (event : Event.t)
         (revision : DocumentRevision.t) (dTag : string) (g : Z) (s : DocumentStore),
    eventToRevision event = Some revision ->
    truthy (findTagValue "d" (Event.tags event)) = Some dTag ->
    generation (parseRevisionId (DocumentRevision.revisionId revision)) = Num g ->
    (forall r, In r (getRevisions dTag s) ->
       DocumentRevision.eventId r <> Event.id event /\
       exists g', generation (parseRevisionId (DocumentRevision.revisionId r)) = Num g' /\
                  g' < g) ->
    accepted (fst (addRevision lc event s)) = true /\
    getDocument dTag (snd (addRevision lc event s)) = Some (documentOf dTag revision) /\
    exists rest,
      getRevisions dTag (snd (addRevision lc event s)) = revision :: rest /\
      Permutation (getRevisions dTag s) rest.
Proof.
  intros lc event revision dTag g s Hrev Hd Hg Hold.
  destruct (newer_admitted lc event revision dTag g s Hrev Hd Hg Hold)
    as (s' & -> & Hdoc & Hhist & _).
  cbn [fst snd accepted]. split; [reflexivity |]. split; [exact Hdoc |].
  exists (sort (compareRevisions lc) (getRevisions dTag s)).
  split; [exact Hhist | apply sort_perm].
Qed.

Lemma newer_generation_becomes_the_document_witness :
  let lc := Samples.codeUnitCompare in
  let s := admitAll lc [Samples.firstEvent; Samples.secondEvent] newStore in
  accepted (fst (addRevision lc Samples.thirdEvent s)) = true /\
  option_map Document.revisionId
    (getDocument "doc" (snd (addRevision lc Samples.thirdEvent s))) = Some "3-ddd" /\
  List.length (getRevisions "doc" (snd (addRevision lc Samples.thirdEvent s))) = 3%nat.
Proof.
  intros lc s.
  destruct (newer_generation_becomes_the_document lc Samples.thirdEvent
              {| DocumentRevision.revisionId := "3-ddd"; DocumentRevision.content := "four";
                 DocumentRevision.prevRevisionIds := [Some "2-bbb"];
                 DocumentRevision.createdAt := 1700000000;
                 DocumentRevision.eventId := "e4"; DocumentRevision.deleted := false |}
              "doc" 3 s)
    as (Hacc & Hdoc & rest & Hhist & Hperm).
  - reflexivity.
  - reflexivity.
  - reflexivity.
  - intros r Hr. vm_compute in Hr.
    destruct Hr as [<- | [<- | []]]; (split; [discriminate |]).
    + exists 2. split; [reflexivity | lia].
    + exists 1. split; [reflexivity | lia].
  - split; [exact Hacc |]. rewrite Hdoc, Hhist. split; [reflexivity |].
    cbn [List.length]. now rewrite <- (Permutation_length Hperm).
Defined.

(** ** The histories of a reached store *)

(** What holds of the empty history, and of every array an admission
    stores when it held of the history before, holds of every history of a
    store reached from a new one. *)
Lemma reached_history (lc : string -> string -> number)
    (P : string -> list DocumentRevision.t -> Prop) :
  (forall docId, P docId []) ->
  (forall event revision dTag history,
     eventToRevision event = Some revision ->
     truthy (findTagValue "d" (Event.tags event)) = Some dTag ->
     P dTag history ->
     P dTag (sort (compareRevisions lc)
               (filter (survives (referencedRevisions history revision)
                          (parseRevisionId (DocumentRevision.revisionId revision)))
                       history ++ [revision]))) ->
  forall cs docId, P docId (getRevisions docId (calls lc cs newStore)).
Proof.
  intros Hnil Hstep cs.
  assert (H : forall s, (forall docId, P docId (getRevisions docId s)) ->
                        forall docId, P docId (getRevisions docId (calls lc cs s))).
  { induction cs as [| c cs IH]; intros s Hs; [exact Hs |].
    change (calls lc (c :: cs) s) with (calls lc cs (call lc c s)). apply IH.
    destruct c as [event | l | l |]; cbn [call];
      [| exact Hs | exact Hs | intros docId; apply Hnil].
    destruct (addRevision_effect lc event s)
      as [-> | (revision & dTag & winning & rest & Hrev & Hd & _ & _ & Hsort & _
                  & Hrevs & _)]; [exact Hs |].
    intros docId. unfold getRevisions at 1. rewrite Hrevs.
    destruct (String.eqb_spec dTag docId) as [<- | Hne].
    - rewrite get_set_same, <- Hsort. now apply (Hstep event).
    - rewrite get_set_other by congruence. apply Hs. }
  apply H. intros docId. apply Hnil.
Qed.

Lemma reached_highest (lc : string -> string -> number) (cs : list Call) (docId : string) :
  forall first rest,
    getRevisions docId (calls lc cs newStore) = first :: rest ->
    docId <> "" /\
    (Forall (fun r => exists g,
               generation (parseRevisionId (DocumentRevision.revisionId r)) = Num g)
            (getRevisions docId (calls lc cs newStore)) ->
     exists g,
       generation (parseRevisionId (DocumentRevision.revisionId first)) = Num g /\
       forall r g', In r (getRevisions docId (calls lc cs newStore)) ->
         generation (parseRevisionId (DocumentRevision.revisionId r)) = Num g' ->
         g' <= g).
Proof.
  refine (reached_history lc
    (fun docId history =>
       forall first rest, history = first :: rest ->
         docId <> "" /\
         (Forall (fun r => exists g,
                    generation (parseRevisionId (DocumentRevision.revisionId r)) = Num g)
                 history ->
          exists g,
            generation (parseRevisionId (DocumentRevision.revisionId first)) = Num g /\
            forall r g', In r history ->
              generation (parseRevisionId (DocumentRevision.revisionId r)) = Num g' ->
              g' <= g)) _ _ cs docId).
  - discriminate.
  - clear. intros event revision dTag history Hrev Hd _ first rest Hsort. split.
    + intros ->.
      destruct (findTagValue "d" (Event.tags event)) as [[| c r] |]; discriminate.
    + intros Hnum.
      set (array := (filter (survives (referencedRevisions history revision)
                               (parseRevisionId (DocumentRevision.revisionId revision)))
                            history ++ [revision])%list) in *.
      assert (Hne : array <> []) by (unfold array; now destruct (filter _ _)).
      assert (Hnum' : Forall (fun r => exists g,
                generation (parseRevisionId (DocumentRevision.revisionId r)) = Num g) array).
      { rewrite Forall_forall in *. intros r Hr. apply Hnum.
        now apply sort_in. }
      destruct (highest_generation_first lc array Hne Hnum')
        as (w & rest' & g & Hs & _ & Hg & Hbest).
      rewrite Hs in Hsort. injection Hsort as E1 E2. subst w rest'.
      exists g. split; [exact Hg |]. intros r g' Hr. apply Hbest.
      eapply Permutation_in; [apply Permutation_sym, sort_perm |]. exact Hr.
Qed.

Lemma reached_highest_first (lc : string -> string -> number) (cs : list Call)
    (docId : string) (first : DocumentRevision.t) (rest : list DocumentRevision.t) :
  getRevisions docId (calls lc cs newStore) = first :: rest ->
  Forall (fun r => exists g,
            generation (parseRevisionId (DocumentRevision.revisionId r)) = Num g)
         (first :: rest) ->
  docId <> "" /\
  exists g,
    generation (parseRevisionId (DocumentRevision.revisionId first)) = Num g /\
    forall r, In r rest ->
      exists g', generation (parseRevisionId (DocumentRevision.revisionId r)) = Num g' /\
                 g' < g.
Proof.
  intros Hhist Hnum.
  destruct (reached_highest lc cs docId first rest Hhist) as (Hdoc & Hbest).
  rewrite Hhist in Hbest.
  split; [exact Hdoc |].
  destruct (Hbest Hnum) as (g & Hg & Hle). exists g. split; [exact Hg |].
  intros r Hr.
  pose proof (proj1 (Forall_forall _ _) Hnum r (or_intror Hr)) as (g' & Hg').
  exists g'. split; [exact Hg' |].
  pose proof (Hle r g' (or_intror Hr) Hg') as Hle'.
  destruct (Z.eq_dec g' g) as [-> | Hne]; [| lia].
  exfalso.
  destruct (reached_consistent lc cs) as (_ & _ & _ & Hids & Hone).
  assert (E : r = first).
  { apply (Hone docId); rewrite ?Hhist; [now right | now left |].
    now rewrite Hg, Hg', strictEq_Num, Z.eqb_refl. }
  subst r. specialize (Hids docId). rewrite Hhist in Hids. cbn in Hids.
  inversion Hids as [| ? ? Hnot _]; subst. apply Hnot. now apply in_map.
Qed.

(** X17. In a store reached from a new one, when the generations of a
    history are all numbers, the current document is the revision of the
    highest generation: every other revision of the history has a lower
    one. *)
Theorem document_has_highest_generation :
  forall (lc : string -> string -> number) (cs : list Call) (docId : string)
         (doc : Document.t),
    let s := calls lc cs newStore in
    getDocument docId s = Some doc ->
    Forall (fun r => exists g,
              generation (parseRevisionId (DocumentRevision.revisionId r)) = Num g)
           (getRevisions docId s) ->
    exists g,
      generation (parseRevisionId (Document.revisionId doc)) = Num g /\
      forall r, In r (getRevisions docId s) ->
        DocumentRevision.eventId r = Document.eventId doc \/
        exists g', generation (parseRevisionId (DocumentRevision.revisionId r)) = Num g' /\
                   g' < g.
Proof.
  intros lc cs docId doc s Hdoc Hnum.
  destruct (reached_consistent lc cs) as (Hmirror & _).
  fold s in Hmirror. rewrite Hmirror in Hdoc.
  destruct (getRevisions docId s) as [| first rest] eqn:Hhist; [discriminate |].
  injection Hdoc as <-.
  destruct (reached_highest_first lc cs docId first rest Hhist Hnum) as (_ & g & Hg & Hlow).
  exists g. split; [exact Hg |].
  intros r [<- | Hr]; [now left | right; now apply Hlow].
Qed.

Lemma document_has_highest_generation_witness :
  let s := calls Samples.codeUnitCompare
             [AddRevision Samples.thirdEvent; AddRevision Samples.firstEvent;
              AddRevision Samples.secondEvent] newStore in
  exists doc g,
    getDocument "doc" s = Some doc /\
    Document.revisionId doc = "3-ddd" /\
    generation (parseRevisionId (Document.revisionId doc)) = Num g /\
    forall r, In r (getRevisions "doc" s) ->
      DocumentRevision.eventId r = Document.eventId doc \/
      exists g', generation (parseRevisionId (DocumentRevision.revisionId r)) = Num g' /\
                 g' < g.
Proof.
  intros s.
  destruct (getDocument "doc" s) as [doc |] eqn:Hdoc; [| vm_compute in Hdoc; discriminate].
  destruct (document_has_highest_generation Samples.codeUnitCompare
              [AddRevision Samples.thirdEvent; AddRevision Samples.firstEvent;
               AddRevision Samples.secondEvent] "doc" doc Hdoc)
    as (g & Hg & Hlow).
  - repeat constructor; eexists; reflexivity.
  - exists doc, g. split; [reflexivity |]. split; [| now split].
    vm_compute in Hdoc. now injection Hdoc as <-.
Defined.

(** ** Creating, updating and deleting through the hook *)

Lemma createRevisionId_nonempty (n : number) (prevRev : option string) (content : string) :
  createRevisionId n prevRev content <> "".
Proof.
  unfold createRevisionId. destruct (toString n); discriminate.
Qed.

Lemma values_set_in {V : Type} (k : string) (v : V) (m : JsMap.t V) :
  In v (JsMap.values (JsMap.set k v m)).
Proof.
  unfold JsMap.values. apply in_map_iff. exists (k, v). split; [reflexivity |].
  apply get_in, get_set_same.
Qed.

Lemma DOC_KIND_is_a_document_kind : 40000 <= DOC_KIND < 50000.
Proof. unfold DOC_KIND. lia. Qed.

(** The revision that follows the current document of a reached store is
    admitted in front of its history. *)
Lemma successor_admitted (lc : string -> string -> number) (cs : list Call)
    (docId content : string) (deleted : bool) (signed : Signed)
    (currentDoc : Document.t) (g : Z) :
  let s := calls lc cs newStore in
  let revisionId :=
    createRevisionId
      (add (generation (parseRevisionId (Document.revisionId currentDoc))) (Num 1))
      (Some (Document.revisionId currentDoc)) content in
  let event :=
    finalizeEvent DOC_KIND content
      (createDocumentTags docId revisionId [Document.revisionId currentDoc] deleted)
      signed in
  let revision :=
    {| DocumentRevision.revisionId := revisionId;
       DocumentRevision.content := content;
       DocumentRevision.prevRevisionIds := [Some (Document.revisionId currentDoc)];
       DocumentRevision.createdAt := created_at signed;
       DocumentRevision.eventId := id signed;
       DocumentRevision.deleted := deleted |} in
  getDocument docId s = Some currentDoc ->
  Forall (fun r => exists g',
            generation (parseRevisionId (DocumentRevision.revisionId r)) = Num g')
         (getRevisions docId s) ->
  generation (parseRevisionId (Document.revisionId currentDoc)) = Num g ->
  0 <= g < 2 ^ 53 - 1 ->
  ~ In (id signed) (map DocumentRevision.eventId (getRevisions docId s)) ->
  revisionId
  = createRevisionId (Num (g + 1)) (Some (Document.revisionId currentDoc)) content /\
  exists s',
    addRevision lc event s = ({| accepted := true; reason := None |}, s') /\
    getDocument docId s' = Some (documentOf docId revision) /\
    getRevisions docId s'
    = revision :: sort (compareRevisions lc) (getRevisions docId s) /\
    cachedDocuments s'
    = filter (fun d => negb (Document.deleted d)) (JsMap.values (documents s')) /\
    documents s' = JsMap.set docId (documentOf docId revision) (documents s).
Proof.
  intros s revisionId event revision Hdoc Hnum Hg Hrange Hfresh.
  assert (Hid : revisionId
                = createRevisionId (Num (g + 1)) (Some (Document.revisionId currentDoc))
                    content).
  { unfold revisionId. rewrite Hg. cbn [add]. now rewrite toDouble_safe by lia. }
  split; [exact Hid |].
  destruct (reached_consistent lc cs) as (Hmirror & _).
  fold s in Hmirror.
  assert (Hex : exists first rest,
             getRevisions docId s = first :: rest /\ documentOf docId first = currentDoc).
  { rewrite Hmirror in Hdoc.
    destruct (getRevisions docId s) as [| first rest]; [discriminate |].
    injection Hdoc as Hcur. now exists first, rest. }
  destruct Hex as (first & rest & Hhist & Hcur).
  destruct (reached_highest_first lc cs docId first rest Hhist)
    as (Hne & g0 & Hg0 & Hlow).
  { fold s. now rewrite <- Hhist. }
  assert (g0 = g).
  { rewrite <- Hcur in Hg. cbn [documentOf Document.revisionId] in Hg. congruence. }
  subst g0.
  destruct (eventToRevision_of_tags event docId revisionId
              [Document.revisionId currentDoc] deleted)
    as (Hd & Hrev); trivial.
  { apply DOC_KIND_is_a_document_kind. }
  { apply createRevisionId_nonempty. }
  change (Event.content event) with content in Hrev.
  change (Event.created_at event) with (created_at signed) in Hrev.
  change (Event.id event) with (id signed) in Hrev.
  change (map Some [Document.revisionId currentDoc])
    with [Some (Document.revisionId currentDoc)] in Hrev.
  fold revision in Hrev.
  apply (newer_admitted lc event revision docId (g + 1) s Hrev Hd).
  - cbn [revision DocumentRevision.revisionId]. rewrite Hid.
    now rewrite parse_created by lia.
  - intros r Hr. split.
    + intros E. apply Hfresh. change (Event.id event) with (id signed) in E.
      rewrite <- E. now apply in_map.
    + rewrite Hhist in Hr. destruct Hr as [<- | Hr].
      * exists g. split; [exact Hg0 | lia].
      * destruct (Hlow r Hr) as (g' & Hg' & Hlt). exists g'. split; [exact Hg' | lia].
Qed.

(** X18. With a public key, [createDocument] of a non-empty id that has no
    history publishes generation 1 and returns the document it made: that
    content, no parents, not deleted, the event's id and time; the document
    is in the snapshot and its history is that one revision. *)
Theorem createDocument_of_a_new_id :
  forall (lc : string -> string -> number) (publicKey : option string)
         (docId content : string) (signed : Signed) (s : DocumentStore),
    truthy publicKey <> None ->
    docId <> "" ->
    getRevisions docId s = [] ->
    let doc :=
      {| Document.id := docId; Document.content := content;
         Document.revisionId := createRevisionId (Num 1) None content;
         Document.prevRevisionIds := [];
         Document.createdAt := created_at signed;
         Document.eventId := id signed;
         Document.deleted := false |} in
    let answer := createDocument lc publicKey docId content (Returned signed) s in
    fst answer = Returned (Some doc) /\
    getDocument docId (snd answer) = Some doc /\
    In doc (getAllDocuments (snd answer)) /\
    map DocumentRevision.revisionId (getRevisions docId (snd answer))
    = [createRevisionId (Num 1) None content].
Proof.
  intros lc publicKey docId content signed s Hkey Hdoc Hnew doc answer.
  set (revisionId := createRevisionId (Num 1) None content).
  set (event := finalizeEvent DOC_KIND content
                  (createDocumentTags docId revisionId [] false) signed).
  destruct (eventToRevision_of_tags event docId revisionId [] false)
    as (Hd & Hrev); trivial.
  { apply DOC_KIND_is_a_document_kind. }
  { apply createRevisionId_nonempty. }
  destruct (newer_admitted lc event _ docId 1 s Hrev Hd)
    as (s' & Hadd & Hget & Hhist & Hcache & Hdocs).
  { cbn [DocumentRevision.revisionId]. unfold revisionId.
    now rewrite parse_created by lia. }
  { rewrite Hnew. intros r []. }
  assert (Hanswer : answer = (Returned (Some doc), s')).
  { unfold answer, createDocument.
    destruct (truthy publicKey); [| congruence].
    fold revisionId. fold event. rewrite Hadd. cbn [accepted negb].
    now rewrite Hget. }
  rewrite Hanswer. cbn [fst snd].
  split; [reflexivity |]. split; [exact Hget |]. split.
  - unfold getAllDocuments. rewrite Hcache, Hdocs. apply filter_In.
    split; [apply values_set_in | reflexivity].
  - rewrite Hhist, Hnew. reflexivity.
Qed.

Lemma createDocument_of_a_new_id_witness :
  let answer :=
    createDocument Samples.codeUnitCompare (Some "npub") "note" "hello"
      (Returned Samples.signedHello) newStore in
  truthy (Some "npub") <> None /\
  "note" <> "" /\
  getRevisions "note" newStore = [] /\
  option_map Document.content (getDocument "note" (snd answer)) = Some "hello".
Proof.
  intros answer.
  assert (Hkey : truthy (Some "npub") <> None) by discriminate.
  assert (Hdoc : "note" <> "") by discriminate.
  destruct (createDocument_of_a_new_id Samples.codeUnitCompare (Some "npub") "note" "hello"
              Samples.signedHello newStore Hkey Hdoc eq_refl)
    as (_ & Hget & _).
  split; [exact Hkey |]. split; [exact Hdoc |]. split; [reflexivity |].
  fold answer in Hget. now rewrite Hget.
Defined.

Lemma updateDocument_undisturbed (lc : string -> string -> number)
    (publicKey : option string) (docId content : string) (published : outcome Signed)
    (store : DocumentStore) :
  UseNipDbAwait.updateDocument lc publicKey docId content published store store
  = updateDocument lc publicKey docId content published store.
Proof. reflexivity. Qed.

Lemma deleteDocument_undisturbed (lc : string -> string -> number)
    (publicKey : option string) (docId : string) (published : outcome Signed)
    (store : DocumentStore) :
  UseNipDbAwait.deleteDocument lc publicKey docId published store store
  = deleteDocument lc publicKey docId published store.
Proof. reflexivity. Qed.

(** An update can lose to what was admitted while [publish] was awaited: a
    rival of the next generation with a greater hash makes the call throw,
    and the store keeps the rival. *)
Example updateDocument_after_a_rival :
  let lc := Samples.codeUnitCompare in
  let store := calls lc [AddRevision Samples.firstEvent] newStore in
  let rival := Samples.sampleEvent 40001 "e7" "2-zzz" ["1-aaa"] "theirs" in
  let resumed := calls lc [AddRevision rival] store in
  let answer :=
    UseNipDbAwait.updateDocument lc (Some "npub") "doc" "world"
      (Returned Samples.signedWorld) store resumed in
  fst answer
  = Thrown ("Document " ++ quote ++ "doc" ++ quote
              ++ " already has a winning revision at generation 2") /\
  snd answer = resumed.
Proof. vm_compute. split; reflexivity. Qed.

(** X19. With a public key, [updateDocument] succeeds whenever the document
    it read before awaiting [publish] is still the current one when
    [publish] settles, in a store then reached from a new one whose history
    of that document has numeric generations, the current one below
    2^53 - 1, and does not hold the published event.  It returns the
    document of the next generation with the new content and the replaced
    revision as its only parent, and the history keeps every revision it
    had, behind the new one. *)
Theorem updateDocument_succeeds :
  forall (lc : string -> string -> number) (publicKey : option string)
         (cs : list Call) (docId content : string) (signed : Signed)
         (currentDoc : Document.t) (g : Z) (store : DocumentStore),
    let resumed := calls lc cs newStore in
    truthy publicKey <> None ->
    getDocument docId store = Some currentDoc ->
    getDocument docId resumed = Some currentDoc ->
    Forall (fun r => exists g',
              generation (parseRevisionId (DocumentRevision.revisionId r)) = Num g')
           (getRevisions docId resumed) ->
    generation (parseRevisionId (Document.revisionId currentDoc)) = Num g ->
    0 <= g < 2 ^ 53 - 1 ->
    ~ In (id signed) (map DocumentRevision.eventId (getRevisions docId resumed)) ->
    let doc :=
      {| Document.id := docId; Document.content := content;
         Document.revisionId :=
           createRevisionId (Num (g + 1)) (Some (Document.revisionId currentDoc)) content;
         Document.prevRevisionIds := [Some (Document.revisionId currentDoc)];
         Document.createdAt := created_at signed;
         Document.eventId := id signed;
         Document.deleted := false |} in
    let answer :=
      UseNipDbAwait.updateDocument lc publicKey docId content (Returned signed)
        store resumed in
    fst answer = Returned (Some doc) /\
    getDocument docId (snd answer) = Some doc /\
    In doc (getAllDocuments (snd answer)) /\
    exists first rest,
      getRevisions docId (snd answer) = first :: rest /\
      DocumentRevision.eventId first = id signed /\
      Permutation (getRevisions docId resumed) rest.
Proof.
  intros lc publicKey cs docId content signed currentDoc g store resumed Hkey Hread Hdoc
         Hnum Hg Hrange Hfresh doc answer.
  destruct (successor_admitted lc cs docId content false signed currentDoc g
              Hdoc Hnum Hg Hrange Hfresh)
    as (Hid & s' & Hadd & Hget & Hhist & Hcache & Hdocs).
  fold resumed in Hadd, Hhist, Hdocs.
  assert (Hanswer : answer = (Returned (Some doc), s')).
  { unfold answer, UseNipDbAwait.updateDocument.
    destruct (truthy publicKey); [| congruence].
    rewrite Hread, Hadd. cbn [accepted negb]. rewrite Hget.
    unfold documentOf. cbn. now rewrite Hid. }
  assert (Hdoc' : getDocument docId s' = Some doc).
  { rewrite Hget. unfold documentOf. cbn. now rewrite Hid. }
  rewrite Hanswer. cbn [fst snd].
  split; [reflexivity |]. split; [exact Hdoc' |]. split.
  - unfold getAllDocuments. rewrite Hcache, Hdocs. apply filter_In. split.
    + replace doc with (documentOf docId
        {| DocumentRevision.revisionId :=
             createRevisionId
               (add (generation (parseRevisionId (Document.revisionId currentDoc))) (Num 1))
               (Some (Document.revisionId currentDoc)) content;
           DocumentRevision.content := content;
           DocumentRevision.prevRevisionIds := [Some (Document.revisionId currentDoc)];
           DocumentRevision.createdAt := created_at signed;
           DocumentRevision.eventId := id signed;
           DocumentRevision.deleted := false |}).
      * apply values_set_in.
      * unfold documentOf. cbn. now rewrite Hid.
    + reflexivity.
  - eexists _, _. split; [exact Hhist |]. split; [reflexivity | apply sort_perm].
Qed.

Lemma updateDocument_succeeds_witness :
  let lc := Samples.codeUnitCompare in
  let store := calls lc [AddRevision Samples.firstEvent] newStore in
  let other :=
    finalizeEvent 40001 "else" (createDocumentTags "other" "1-zzz" [] false)
      Samples.signedHello in
  let cs := [AddRevision Samples.firstEvent; AddRevision other] in
  let answer :=
    UseNipDbAwait.updateDocument lc (Some "npub") "doc" "world"
      (Returned Samples.signedWorld) store (calls lc cs newStore) in
  option_map Document.revisionId (getDocument "doc" store) = Some "1-aaa" /\
  getDocument "doc" (calls lc cs newStore) = getDocument "doc" store /\
  option_map Document.content (getDocument "doc" (snd answer)) = Some "world" /\
  option_map Document.prevRevisionIds (getDocument "doc" (snd answer))
  = Some [Some "1-aaa"] /\
  List.length (getRevisions "doc" (snd answer)) = 2%nat.
Proof.
  intros lc store other cs answer.
  assert (Hsame : getDocument "doc" (calls lc cs newStore) = getDocument "doc" store)
    by reflexivity.
  assert (Hcur : exists currentDoc,
             getDocument "doc" store = Some currentDoc /\
             Document.revisionId currentDoc = "1-aaa").
  { eexists. split; reflexivity. }
  destruct Hcur as (currentDoc & Hcur & Hid).
  destruct (updateDocument_succeeds lc (Some "npub") cs "doc" "world" Samples.signedWorld
              currentDoc 1 store)
    as (_ & Hget & _ & first & rest & Hhist & _ & Hperm).
  - discriminate.
  - exact Hcur.
  - now rewrite Hsame.
  - repeat constructor. exists 1. reflexivity.
  - now rewrite Hid.
  - lia.
  - vm_compute. intros [E | []]. discriminate.
  - fold answer in Hget, Hhist.
    split; [rewrite Hcur; cbn [option_map]; now rewrite Hid |].
    split; [exact Hsame |].
    rewrite Hget, Hhist, Hid.
    split; [reflexivity |]. split; [reflexivity |].
    cbn [List.length]. now rewrite <- (Permutation_length Hperm).
Defined.

(** X20. Under the same conditions [deleteDocument] succeeds: when the
    document it read before awaiting [publish] is still the current one when
    [publish] settles, the document becomes a tombstone of the next
    generation with empty content, [getDocument] still returns it, and the
    snapshot loses that document and nothing else of what the store held
    when [publish] settled. *)
Theorem deleteDocument_leaves_a_tombstone :
  forall (lc : string -> string -> number) (publicKey : option string)
         (cs : list Call) (docId : string) (signed : Signed)
         (currentDoc : Document.t) (g : Z) (store : DocumentStore),
    let resumed := calls lc cs newStore in
    truthy publicKey <> None ->
    getDocument docId store = Some currentDoc ->
    getDocument docId resumed = Some currentDoc ->
    Forall (fun r => exists g',
              generation (parseRevisionId (DocumentRevision.revisionId r)) = Num g')
           (getRevisions docId resumed) ->
    generation (parseRevisionId (Document.revisionId currentDoc)) = Num g ->
    0 <= g < 2 ^ 53 - 1 ->
    ~ In (id signed) (map DocumentRevision.eventId (getRevisions docId resumed)) ->
    let answer :=
      UseNipDbAwait.deleteDocument lc publicKey docId (Returned signed) store resumed in
    fst answer = Returned tt /\
    getDocument docId (snd answer)
    = Some {| Document.id := docId; Document.content := "";
              Document.revisionId :=
                createRevisionId (Num (g + 1)) (Some (Document.revisionId currentDoc)) "";
              Document.prevRevisionIds := [Some (Document.revisionId currentDoc)];
              Document.createdAt := created_at signed;
              Document.eventId := id signed;
              Document.deleted := true |} /\
    forall d, In d (getAllDocuments (snd answer)) <->
              In d (getAllDocuments resumed) /\ Document.id d <> docId.
Proof.
  intros lc publicKey cs docId signed currentDoc g store resumed Hkey Hread Hdoc Hnum Hg
         Hrange Hfresh answer.
  destruct (successor_admitted lc cs docId "" true signed currentDoc g
              Hdoc Hnum Hg Hrange Hfresh)
    as (Hid & s' & Hadd & Hget & Hhist & Hcache & Hdocs).
  fold resumed in Hadd, Hhist, Hdocs.
  assert (Hanswer : answer = (Returned tt, s')).
  { unfold answer, UseNipDbAwait.deleteDocument.
    destruct (truthy publicKey); [| congruence].
    now rewrite Hread, Hadd. }
  assert (Hs : consistent resumed) by apply reached_consistent.
  assert (Hs' : consistent s').
  { replace s' with (snd (addRevision lc
      (finalizeEvent DOC_KIND ""
         (createDocumentTags docId
            (createRevisionId
               (add (generation (parseRevisionId (Document.revisionId currentDoc))) (Num 1))
               (Some (Document.revisionId currentDoc)) "")
            [Document.revisionId currentDoc] true) signed) resumed))
      by now rewrite Hadd.
    now apply consistent_addRevision. }
  rewrite Hanswer. cbn [fst snd].
  split; [reflexivity |]. split.
  { rewrite Hget. unfold documentOf. cbn. now rewrite Hid. }
  intros d. rewrite (consistent_snapshot s' d Hs'), (consistent_snapshot resumed d Hs).
  destruct (String.eqb_spec (Document.id d) docId) as [E | Hne].
  - rewrite E, Hget. split.
    + intros [Hd Hlive]. injection Hd as <-. discriminate.
    + intros [_ Hne]. congruence.
  - unfold getDocument. rewrite Hdocs, get_set_other by exact Hne. tauto.
Qed.

Lemma deleteDocument_leaves_a_tombstone_witness :
  let lc := Samples.codeUnitCompare in
  let store := calls lc [AddRevision Samples.firstEvent] newStore in
  let other :=
    finalizeEvent 40001 "else" (createDocumentTags "other" "1-zzz" [] false)
      Samples.signedHello in
  let cs := [AddRevision Samples.firstEvent; AddRevision other] in
  let answer :=
    UseNipDbAwait.deleteDocument lc (Some "npub") "doc" (Returned Samples.signedWorld)
      store (calls lc cs newStore) in
  getDocument "doc" (calls lc cs newStore) = getDocument "doc" store /\
  map Document.id (getAllDocuments (calls lc cs newStore)) = ["doc"; "other"] /\
  fst answer = Returned tt /\
  option_map Document.deleted (getDocument "doc" (snd answer)) = Some true /\
  map Document.id (getAllDocuments (snd answer)) = ["other"].
Proof.
  intros lc store other cs answer.
  assert (Hsame : getDocument "doc" (calls lc cs newStore) = getDocument "doc" store)
    by reflexivity.
  assert (Hcur : exists currentDoc,
             getDocument "doc" store = Some currentDoc /\
             Document.revisionId currentDoc = "1-aaa").
  { eexists. split; reflexivity. }
  destruct Hcur as (currentDoc & Hcur & Hid).
  destruct (deleteDocument_leaves_a_tombstone lc (Some "npub") cs "doc" Samples.signedWorld
              currentDoc 1 store)
    as (Hret & Hget & Hsnap).
  - discriminate.
  - exact Hcur.
  - now rewrite Hsame.
  - repeat constructor. exists 1. reflexivity.
  - now rewrite Hid.
  - lia.
  - vm_compute. intros [E | []]. discriminate.
  - fold answer in Hret, Hget, Hsnap.
    split; [exact Hsame |]. split; [reflexivity |]. split; [exact Hret |].
    split; [now rewrite Hget |].
    vm_compute. reflexivity.
Defined.

Lemma rejected_is_unchanged (lc : string -> string -> number) (event : Event.t)
    (s : DocumentStore) :
  accepted (fst (addRevision lc event s)) = false -> snd (addRevision lc event s) = s.
Proof.
  destruct (addRevision_effect lc event s)
    as [-> | (revision & dTag & winning & rest & _ & _ & _ & _ & _ & Hfst & _)];
    [reflexivity |].
  rewrite Hfst. discriminate.
Qed.

(** X21. [createDocument], [updateDocument] and [deleteDocument] change the
    store only when they return: whenever one of them throws, for a missing
    key, a missing document, a failed publication or a rejected revision,
    the store is as it was. *)
Theorem failed_operation_leaves_the_store :
  forall (lc : string -> string -> number) (publicKey : option string)
         (docId content : string) (published : outcome Signed) (s : DocumentStore),
    ((exists doc, fst (createDocument lc publicKey docId content published s) = Returned doc)
     \/ snd (createDocument lc publicKey docId content published s) = s) /\
    ((exists doc, fst (updateDocument lc publicKey docId content published s) = Returned doc)
     \/ snd (updateDocument lc publicKey docId content published s) = s) /\
    (fst (deleteDocument lc publicKey docId published s) = Returned tt
     \/ snd (deleteDocument lc publicKey docId published s) = s).
Proof.
  intros lc publicKey docId content published s.
  unfold createDocument, updateDocument, deleteDocument.
  destruct (truthy publicKey) as [key |]; [| now repeat split; right].
  repeat split.
  - destruct published as [signed | e]; [| now right].
    match goal with |- context [addRevision lc ?ev s] =>
      pose proof (rejected_is_unchanged lc ev s) as H;
      destruct (addRevision lc ev s) as [result s'] end.
    cbn [fst snd] in H. destruct (accepted result); cbn [negb fst snd].
    + left. eauto.
    + right. now apply H.
  - destruct (getDocument docId s) as [currentDoc |]; [| now right].
    destruct published as [signed | e]; [| now right].
    match goal with |- context [addRevision lc ?ev s] =>
      pose proof (rejected_is_unchanged lc ev s) as H;
      destruct (addRevision lc ev s) as [result s'] end.
    cbn [fst snd] in H. destruct (accepted result); cbn [negb fst snd].
    + left. eauto.
    + right. now apply H.
  - destruct (getDocument docId s) as [currentDoc |]; [| now right].
    destruct published as [signed | e]; [| now right].
    match goal with |- context [addRevision lc ?ev s] =>
      pose proof (rejected_is_unchanged lc ev s) as H;
      destruct (addRevision lc ev s) as [result s'] end.
    cbn [fst snd] in H. destruct (accepted result); cbn [negb fst snd].
    + now left.
    + right. now apply H.
Qed.

(** ** The timeout of an answered query *)

Lemma settle_settled (p : nat) (v : PromiseState) (ps : list PromiseState) :
  nth p ps Pending <> Pending -> settle p v ps = ps.
Proof.
  revert p. induction ps as [| x rest IH]; intros p H; [now destruct p |].
  destruct p as [| p].
  - cbn in H. destruct x; congruence || reflexivity.
  - cbn in H. cbn [settle]. destruct x; now rewrite IH.
Qed.

Lemma nth_last (v : PromiseState) (ps : list PromiseState) :
  nth (List.length ps) (ps ++ [v]) Pending = v.
Proof. now rewrite app_nth2, Nat.sub_diag by lia. Qed.

(** X22. A timeout is never cancelled, so the timeout of a query that was
    answered can fire while the next query is pending: it then empties the
    slot of that next query, whose promise stays pending for ever, through
    its own answer and its own timeout. *)
Theorem stale_timeout_strands_the_next_query :
  forall (first second : ChangesOptions) (answer late : ChangesResult) (c : Client),
    isOpen c = true ->
    let p := List.length (promises c) in
    let q := S p in
    let c1 := handleMessage (CHANGES answer) (snd (fetchChanges first c)) in
    let c2 := snd (fetchChanges second c1) in
    let c3 := runTimer (ChangesTimeout p) c2 in
    let c4 := handleMessage (CHANGES late) c3 in
    let c5 := runTimer (ChangesTimeout q) c4 in
    promiseState p c1 = ResolvedChanges answer /\
    fst (fetchChanges second c1) = Returned q /\
    pendingChangesRef c2 = Some q /\
    pendingChangesRef c3 = None /\
    promiseState p c3 = ResolvedChanges answer /\
    promiseState q c3 = Pending /\
    c4 = c3 /\
    c5 = c3.
Proof.
  intros first second answer late c Hopen p q c1 c2 c3 c4 c5.
  assert (H1 : c1 = {| ws := ws c; pendingChangesRef := None;
                       pendingLastSeqRef := pendingLastSeqRef c;
                       promises := promises c ++ [ResolvedChanges answer];
                       sent := sent c ++ [SendChanges first];
                       timers := timers c ++ [(30000, ChangesTimeout p)] |}).
  { unfold c1, fetchChanges. rewrite Hopen. cbn. now rewrite settle_pending_last. }
  assert (Hopen1 : isOpen c1 = true) by (rewrite H1; exact Hopen).
  assert (Hlen : List.length (promises c1) = q).
  { rewrite H1. cbn [promises]. rewrite length_app. cbn. unfold q, p. lia. }
  assert (H2 : c2 = {| ws := ws c; pendingChangesRef := Some q;
                       pendingLastSeqRef := pendingLastSeqRef c;
                       promises := (promises c ++ [ResolvedChanges answer]) ++ [Pending];
                       sent := (sent c ++ [SendChanges first]) ++ [SendChanges second];
                       timers := (timers c ++ [(30000, ChangesTimeout p)])
                                   ++ [(30000, ChangesTimeout q)] |}).
  { unfold c2, fetchChanges. rewrite Hopen1, Hlen. cbn [negb snd]. now rewrite H1. }
  assert (Hp : nth p ((promises c ++ [ResolvedChanges answer]) ++ [Pending]) Pending
               = ResolvedChanges answer).
  { rewrite app_nth1 by (rewrite length_app; cbn; unfold p; lia). apply nth_last. }
  assert (H3 : c3 = {| ws := ws c; pendingChangesRef := None;
                       pendingLastSeqRef := pendingLastSeqRef c;
                       promises := (promises c ++ [ResolvedChanges answer]) ++ [Pending];
                       sent := (sent c ++ [SendChanges first]) ++ [SendChanges second];
                       timers := (timers c ++ [(30000, ChangesTimeout p)])
                                   ++ [(30000, ChangesTimeout q)] |}).
  { unfold c3. rewrite H2. cbn. rewrite settle_settled; [reflexivity |].
    rewrite Hp. discriminate. }
  split; [rewrite H1; unfold promiseState; cbn [promises]; apply nth_last |].
  split; [unfold fetchChanges; rewrite Hopen1, Hlen; reflexivity |].
  split; [now rewrite H2 |].
  split; [now rewrite H3 |].
  split; [rewrite H3; exact Hp |].
  split.
  { rewrite H3. unfold promiseState. cbn [promises].
    replace q with (List.length (promises c ++ [ResolvedChanges answer]))
      by (rewrite length_app; cbn; unfold q, p; lia).
    apply nth_last. }
  assert (H4 : c4 = c3) by (unfold c4; rewrite H3; reflexivity).
  split; [exact H4 |].
  unfold c5. rewrite H4, H3. reflexivity.
Qed.

Lemma stale_timeout_strands_the_next_query_witness :
  let answer := {| changes := []; lastSeq := 7 |} in
  let late := {| changes := []; lastSeq := 9 |} in
  let c1 := handleMessage (CHANGES answer)
              (snd (fetchChanges Samples.fromStart Samples.idleClient)) in
  let c2 := snd (fetchChanges Samples.fromSeven c1) in
  let c3 := runTimer (ChangesTimeout 0) c2 in
  isOpen Samples.idleClient = true /\
  promiseState 0 c1 = ResolvedChanges answer /\
  promiseState 1 (runTimer (ChangesTimeout 1) (handleMessage (CHANGES late) c3)) = Pending.
Proof.
  intros answer late c1 c2 c3.
  assert (Hopen : isOpen Samples.idleClient = true) by reflexivity.
  destruct (stale_timeout_strands_the_next_query Samples.fromStart Samples.fromSeven
              answer late Samples.idleClient Hopen)
    as (Hfirst & _ & _ & _ & _ & Hq & H4 & H5).
  split; [exact Hopen |]. split; [exact Hfirst |].
  change (runTimer (ChangesTimeout 1) (handleMessage (CHANGES late) c3) = c3) in H5.
  rewrite H5. exact Hq.
Defined.

Ltac client_fields :=
  cbn [handleMessage snd pendingChangesRef pendingLastSeqRef promises ws sent timers].

Lemma settle_app (p : nat) (v : PromiseState) (ps qs : list PromiseState) :
  (p < List.length ps)%nat -> settle p v (ps ++ qs) = (settle p v ps ++ qs)%list.
Proof.
  revert p. induction ps as [| x rest IH]; intros p H; [cbn in H; lia |].
  destruct p as [| p].
  - now destruct x.
  - cbn in H. cbn [settle app]. destruct x; rewrite IH by lia; reflexivity.
Qed.

(** X23. The changes query and the sequence query do not disturb each
    other: with one of each pending, their answers may arrive in either
    order, each resolves its own promise, and the client ends the same. *)
Theorem changes_and_lastSeq_are_independent :
  forall (options : ChangesOptions) (result : ChangesResult) (seq : Z) (c : Client),
    isOpen c = true ->
    let p := List.length (promises c) in
    let q := S p in
    let c' := snd (getLastSeq (snd (fetchChanges options c))) in
    let done := handleMessage (LASTSEQ seq) (handleMessage (CHANGES result) c') in
    fst (fetchChanges options c) = Returned p /\
    fst (getLastSeq (snd (fetchChanges options c))) = Returned q /\
    promiseState p (handleMessage (LASTSEQ seq) c') = Pending /\
    promiseState q (handleMessage (CHANGES result) c') = Pending /\
    handleMessage (CHANGES result) (handleMessage (LASTSEQ seq) c') = done /\
    promiseState p done = ResolvedChanges result /\
    promiseState q done = ResolvedSeq seq /\
    pendingChangesRef done = None /\
    pendingLastSeqRef done = None.
Proof.
  intros options result seq c Hopen p q c' done.
  assert (H1 : fetchChanges options c
               = (Returned p,
                  {| ws := ws c; pendingChangesRef := Some p;
                     pendingLastSeqRef := pendingLastSeqRef c;
                     promises := promises c ++ [Pending];
                     sent := sent c ++ [SendChanges options];
                     timers := timers c ++ [(30000, ChangesTimeout p)] |})).
  { unfold fetchChanges. now rewrite Hopen. }
  assert (Hq : List.length (promises c ++ [Pending]) = q)
    by (rewrite length_app; cbn; unfold q, p; lia).
  assert (H2 : getLastSeq (snd (fetchChanges options c))
               = (Returned q,
                  {| ws := ws c; pendingChangesRef := Some p;
                     pendingLastSeqRef := Some q;
                     promises := (promises c ++ [Pending]) ++ [Pending];
                     sent := (sent c ++ [SendChanges options]) ++ [SendLastSeq];
                     timers := (timers c ++ [(30000, ChangesTimeout p)])
                                 ++ [(10000, LastSeqTimeout q)] |})).
  { rewrite H1. unfold getLastSeq, isOpen. cbn [snd ws promises]. rewrite Hq.
    unfold isOpen in Hopen. now rewrite Hopen. }
  assert (Hlen : forall v, List.length (promises c ++ [v]) = q)
    by (intros v; rewrite length_app; cbn; unfold q, p; lia).
  assert (Hp : forall w, settle p (ResolvedChanges result)
                           ((promises c ++ [Pending]) ++ [w])
                         = ((promises c ++ [ResolvedChanges result]) ++ [w])%list).
  { intros w. rewrite settle_app by (rewrite length_app; cbn; unfold p; lia).
    unfold p. now rewrite settle_pending_last. }
  assert (Hs : forall v, settle q (ResolvedSeq seq) ((promises c ++ [v]) ++ [Pending])
                         = ((promises c ++ [v]) ++ [ResolvedSeq seq])%list).
  { intros v. rewrite <- (Hlen v). apply settle_pending_last. }
  assert (Hdone : done = {| ws := ws c; pendingChangesRef := None;
                            pendingLastSeqRef := None;
                            promises := (promises c ++ [ResolvedChanges result])
                                          ++ [ResolvedSeq seq];
                            sent := (sent c ++ [SendChanges options]) ++ [SendLastSeq];
                            timers := (timers c ++ [(30000, ChangesTimeout p)])
                                        ++ [(10000, LastSeqTimeout q)] |}).
  { unfold done, c'. rewrite H2. client_fields. client_fields. now rewrite Hp, Hs. }
  split; [now rewrite H1 |]. split; [now rewrite H2 |].
  unfold c'. rewrite H2. cbn [snd].
  split.
  { unfold promiseState. client_fields. rewrite Hs.
    rewrite app_nth1 by (rewrite length_app; cbn; unfold p; lia). apply nth_last. }
  split.
  { unfold promiseState. client_fields.
    rewrite Hp, <- (Hlen (ResolvedChanges result)).
    apply nth_last. }
  split.
  { rewrite Hdone. client_fields. client_fields. now rewrite Hs, Hp. }
  rewrite Hdone. unfold promiseState. cbn [promises pendingChangesRef pendingLastSeqRef].
  split.
  { rewrite app_nth1 by (rewrite length_app; cbn; unfold p; lia). apply nth_last. }
  split; [| now split].
  rewrite <- (Hlen (ResolvedChanges result)). apply nth_last.
Qed.

Lemma changes_and_lastSeq_are_independent_witness :
  let result := {| changes := []; lastSeq := 7 |} in
  let c' := snd (getLastSeq (snd (fetchChanges Samples.fromStart Samples.idleClient))) in
  isOpen Samples.idleClient = true /\
  promiseState 0 (handleMessage (CHANGES result) (handleMessage (LASTSEQ 7) c'))
  = ResolvedChanges result /\
  promiseState 1 (handleMessage (CHANGES result) (handleMessage (LASTSEQ 7) c'))
  = ResolvedSeq 7.
Proof.
  intros result c'.
  assert (Hopen : isOpen Samples.idleClient = true) by reflexivity.
  destruct (changes_and_lastSeq_are_independent Samples.fromStart result 7
              Samples.idleClient Hopen)
    as (_ & _ & _ & _ & Hswap & Hp & Hq & _).
  fold c' in Hswap. rewrite Hswap.
  split; [exact Hopen |]. split; [exact Hp | exact Hq].
Defined.

(** * The relay session *)

Import RelaySession.

(** ** Publishing *)

Lemma get_delete_same {V : Type} (k : string) (m : JsMap.t V) :
  JsMap.get k (delete k m) = None.
Proof.
  induction m as [| [k' v] rest IH]; [reflexivity |].
  cbn. destruct (String.eqb_spec k' k) as [-> | Hne]; cbn; [exact IH |].
  destruct (String.eqb_spec k' k); [congruence | exact IH].
Qed.

Lemma get_delete_other {V : Type} (k k0 : string) (m : JsMap.t V) :
  k0 <> k -> JsMap.get k0 (delete k m) = JsMap.get k0 m.
Proof.
  intros Hne. induction m as [| [k' v] rest IH]; [reflexivity |].
  cbn. destruct (String.eqb_spec k' k) as [-> | Hk]; cbn.
  - destruct (String.eqb_spec k k0); [congruence | exact IH].
  - destruct (String.eqb k' k0); [reflexivity | exact IH].
Qed.

Lemma publish_settles (v : outcome Event.t) (ps : list (option (outcome Event.t))) :
  RelaySession.settle (List.length ps) v (ps ++ [None]) = (ps ++ [Some v])%list.
Proof.
  induction ps as [| q rest IH]; [reflexivity |].
  cbn. destruct q; now rewrite IH.
Qed.

(** X24. On an open socket and with a secret key, [publish] sends the
    finalized event on the current socket and returns a pending promise;
    the relay's [OK] for that event id resolves the promise with the event
    when it reports success and rejects it with the relay's message when it
    does not, and the timeout that fires later changes nothing. *)
Theorem publish_is_settled_by_OK :
  forall (Filter : Type) (eventTemplate : EventTemplate) (key : list Z) (now : Z)
         (signature : Signature) (success : bool) (message : string)
         (s : Session Filter),
    isOpen s = true ->
    let event := finalizeEvent eventTemplate now signature in
    let promise := List.length (promises s) in
    let s1 := snd (publish eventTemplate (Some key) now signature s) in
    let s2 := handleMessage (Message.OK (Event.id event) success message) s1 in
    fst (publish eventTemplate (Some key) now signature s) = Returned promise /\
    nth_error (promises s1) promise = Some None /\
    (exists socket, wsRef s = Some socket /\
                    sent s1 = (sent s ++ [(socket, EVENT event)])%list) /\
    nth_error (promises s2) promise
    = Some (Some (if success then Returned event else Thrown message)) /\
    publishTimeout (Event.id event) promise s2 = s2.
Proof.
  intros Filter eventTemplate key now signature success message s Hopen
         event promise s1 s2.
  assert (Hsocket : exists socket, wsRef s = Some socket).
  { unfold isOpen in Hopen. destruct (wsRef s) as [i |]; [now exists i | discriminate]. }
  destruct Hsocket as (socket & Hsocket).
  assert (H1 : publish eventTemplate (Some key) now signature s
               = (Returned promise,
                  {| sockets := sockets s; wsRef := Some socket;
                     subscriptionsRef := subscriptionsRef s;
                     changesSubscriptionsRef := changesSubscriptionsRef s;
                     pendingPublishRef :=
                       JsMap.set (Event.id event) (promise, event) (pendingPublishRef s);
                     promises := promises s ++ [None];
                     sent := sent s ++ [(socket, EVENT event)];
                     timers := timers s ++ [(10000, (Event.id event, promise))];
                     called := called s;
                     connectionState := connectionState s;
                     isConnected := isConnected s |})).
  { unfold publish. fold event. rewrite Hopen. cbn [negb]. fold promise.
    unfold send, withTimers, withSent, withPublishes. cbn. now rewrite Hsocket. }
  assert (H2 : s2 = {| sockets := sockets s; wsRef := Some socket;
                       subscriptionsRef := subscriptionsRef s;
                       changesSubscriptionsRef := changesSubscriptionsRef s;
                       pendingPublishRef :=
                         delete (Event.id event)
                           (JsMap.set (Event.id event) (promise, event)
                              (pendingPublishRef s));
                       promises :=
                         promises s
                           ++ [Some (if success then Returned event else Thrown message)];
                       sent := sent s ++ [(socket, EVENT event)];
                       timers := timers s ++ [(10000, (Event.id event, promise))];
                       called := called s;
                       connectionState := connectionState s;
                       isConnected := isConnected s |}).
  { unfold s2, s1. rewrite H1. cbn [snd handleMessage pendingPublishRef].
    rewrite get_set_same. unfold withPublishes. cbn. unfold promise.
    now rewrite publish_settles. }
  split; [now rewrite H1 |].
  split.
  { unfold s1. rewrite H1. cbn [snd promises]. unfold promise.
    now rewrite nth_error_app2, Nat.sub_diag by lia. }
  split.
  { exists socket. split; [exact Hsocket |]. unfold s1. now rewrite H1. }
  split.
  { rewrite H2. cbn [promises]. unfold promise.
    now rewrite nth_error_app2, Nat.sub_diag by lia. }
  rewrite H2. unfold publishTimeout, JsMap.has. cbn [pendingPublishRef].
  now rewrite get_delete_same.
Qed.

Lemma publish_is_settled_by_OK_witness :
  let eventTemplate :=
    {| kind := 40001; content := "hello"; tags := [["d"; "note"]]; created_at := None |} in
  let signature := {| id := "ea"; pubkey := "npub"; sig := "sig-a" |} in
  let s : Session string := step (Opened 0) (connect initial) in
  let s1 := snd (publish eventTemplate (Some [1; 2; 3]) 1700000000999 signature s) in
  isOpen s = true /\
  nth_error (promises s1) 0 = Some None /\
  option_map (option_map (fun v => match v with
                                   | Returned event => Event.created_at event
                                   | Thrown _ => 0
                                   end))
    (nth_error (promises (handleMessage (Message.OK "ea" true "") s1)) 0)
  = Some (Some 1700000000).
Proof.
  intros eventTemplate signature s s1.
  assert (Hopen : isOpen s = true) by reflexivity.
  destruct (publish_is_settled_by_OK string eventTemplate [1; 2; 3] 1700000000999
              signature true "" s Hopen)
    as (_ & Hpending & _ & Hsettled & _).
  split; [exact Hopen |]. split; [exact Hpending |].
  change (nth_error (promises (handleMessage (Message.OK "ea" true "") s1)) 0
          = Some (Some (Returned (finalizeEvent eventTemplate 1700000000999 signature))))
    in Hsettled.
  rewrite Hsettled. reflexivity.
Defined.

(** ** Subscriptions *)

Lemma nth_error_setReadyState (i j : nat) (state : ReadyState) (l : list ReadyState) :
  nth_error (setReadyState i state l) j
  = if Nat.eqb i j then option_map (fun _ => state) (nth_error l j) else nth_error l j.
Proof.
  revert i j. induction l as [| x rest IH]; intros i j.
  - destruct i, j; cbn; try reflexivity. now destruct (Nat.eqb i j).
  - destruct i as [| i], j as [| j]; cbn; try reflexivity. apply IH.
Qed.

(** What the hook keeps true of its subscriptions: each is filed under its
    own id, and while the current socket is open each has been requested
    on it. *)
Lemma requested_step {Filter : Type} (a : Action) (s : Session Filter) :
  ((forall subId sub, JsMap.get subId (subscriptionsRef s) = Some sub ->
      Subscription.id sub = subId) /\
   (forall i subId sub,
      wsRef s = Some i -> nth_error (sockets s) i = Some OPEN ->
      JsMap.get subId (subscriptionsRef s) = Some sub ->
      In (i, REQ subId (Subscription.filters sub)) (sent s))) ->
  (forall subId sub, JsMap.get subId (subscriptionsRef (step a s)) = Some sub ->
      Subscription.id sub = subId) /\
  (forall i subId sub,
      wsRef (step a s) = Some i -> nth_error (sockets (step a s)) i = Some OPEN ->
      JsMap.get subId (subscriptionsRef (step a s)) = Some sub ->
      In (i, REQ subId (Subscription.filters sub)) (sent (step a s))).
Proof.
  intros [Hid Hreq].
  assert (Hopen : forall i, wsRef s = Some i -> nth_error (sockets s) i = Some OPEN ->
                            isOpen s = true).
  { intros i Hi Ho. unfold isOpen. now rewrite Hi, Ho. }
  destruct a as [| | subId0 filters0 onEvent0 onEose0 | subId0
                 | subId0 options0 onEvent0 onEose0 | subId0
                 | eventTemplate sk now signature | j | j | j data | eventId promise];
    cbn [step].
  - (* connect *)
    unfold connect. destruct (isOpen s) eqn:E; [now split |].
    split; [exact Hid |]. cbn. intros i subId sub Hi Ho. injection Hi as Hi. subst i.
    rewrite nth_error_app2, Nat.sub_diag in Ho by lia. discriminate.
  - (* disconnect *)
    unfold disconnect. destruct (wsRef s) eqn:Hcur.
    + split; [exact Hid |]. cbn. discriminate.
    + split; [exact Hid |]. intros i subId sub Hi. congruence.
  - (* subscribe *)
    unfold subscribe.
    assert (Hget : forall subId sub,
               JsMap.get subId
                 (JsMap.set subId0 (Subscription.mk subId0 filters0 onEvent0 onEose0)
                    (subscriptionsRef s)) = Some sub ->
               (subId = subId0 /\
                sub = Subscription.mk subId0 filters0 onEvent0 onEose0) \/
               JsMap.get subId (subscriptionsRef s) = Some sub).
    { intros subId sub. destruct (String.eqb_spec subId subId0) as [-> | Hne].
      - rewrite get_set_same. intros [= <-]. now left.
      - rewrite get_set_other by exact Hne. now right. }
    change (isOpen (withSubscriptions s
              (JsMap.set subId0 (Subscription.mk subId0 filters0 onEvent0 onEose0)
                 (subscriptionsRef s)))) with (isOpen s).
    destruct (isOpen s) eqn:E.
    + unfold send. cbn [wsRef withSubscriptions].
      destruct (wsRef s) as [cur |] eqn:Hcur; cbn.
      * split.
        -- intros subId sub Hs.
           destruct (Hget subId sub Hs) as [[-> ->] | Hold]; [reflexivity | now apply Hid].
        -- intros i subId sub Hi Ho Hs. apply in_or_app.
           destruct (Hget subId sub Hs) as [[-> ->] | Hold].
           ++ right. left. cbn. congruence.
           ++ left. apply Hreq; trivial. congruence.
      * unfold isOpen in E. rewrite Hcur in E. discriminate.
    + cbn. split.
      * intros subId sub Hs.
        destruct (Hget subId sub Hs) as [[-> ->] | Hold]; [reflexivity | now apply Hid].
      * intros i subId sub Hi Ho _. specialize (Hopen i Hi Ho). congruence.
  - (* unsubscribe *)
    unfold unsubscribe.
    assert (Hget : forall subId sub,
               JsMap.get subId (delete subId0 (subscriptionsRef s)) = Some sub ->
               JsMap.get subId (subscriptionsRef s) = Some sub).
    { intros subId sub. destruct (String.eqb_spec subId subId0) as [-> | Hne].
      - now rewrite get_delete_same.
      - now rewrite get_delete_other by exact Hne. }
    change (isOpen (withSubscriptions s (delete subId0 (subscriptionsRef s))))
      with (isOpen s).
    destruct (isOpen s); [unfold send; cbn [wsRef withSubscriptions];
                          destruct (wsRef s) as [cur |] eqn:Hcur |]; cbn.
    + split; [intros subId sub Hs; apply Hid, Hget, Hs |].
      intros i subId sub Hi Ho Hs. apply in_or_app. left.
      apply Hreq; trivial; [congruence | now apply Hget].
    + split; [intros subId sub Hs; apply Hid, Hget, Hs |].
      intros i subId sub Hi. congruence.
    + split; [intros subId sub Hs; apply Hid, Hget, Hs |].
      intros i subId sub Hi Ho Hs. apply Hreq; trivial. now apply Hget.
  - (* subscribeChanges *)
    unfold subscribeChanges.
    change (isOpen (withChangesSubscriptions s
              (JsMap.set subId0 (ChangesSubscription.mk subId0 onEvent0 onEose0)
                 (changesSubscriptionsRef s)))) with (isOpen s).
    destruct (isOpen s); [unfold send; cbn [wsRef withChangesSubscriptions];
                          destruct (wsRef s) as [cur |] eqn:Hcur |]; cbn.
    + split; [exact Hid |].
      intros i subId sub Hi Ho Hs. apply in_or_app. left. apply Hreq; trivial. congruence.
    + split; [exact Hid |]. intros i subId sub Hi. congruence.
    + split; [exact Hid | exact Hreq].
  - (* unsubscribeChanges *)
    unfold unsubscribeChanges.
    change (isOpen (withChangesSubscriptions s
              (delete subId0 (changesSubscriptionsRef s)))) with (isOpen s).
    destruct (isOpen s); [unfold send; cbn [wsRef withChangesSubscriptions];
                          destruct (wsRef s) as [cur |] eqn:Hcur |]; cbn.
    + split; [exact Hid |].
      intros i subId sub Hi Ho Hs. apply in_or_app. left. apply Hreq; trivial. congruence.
    + split; [exact Hid |]. intros i subId sub Hi. congruence.
    + split; [exact Hid | exact Hreq].
  - (* publish *)
    unfold publish. destruct sk as [key |]; [| now split].
    destruct (isOpen s); cbn [negb snd]; [| now split].
    unfold send. cbn [wsRef withPublishes].
    destruct (wsRef s) as [cur |] eqn:Hcur; cbn.
    + split; [exact Hid |].
      intros i subId sub Hi Ho Hs. apply in_or_app. left. apply Hreq; trivial. congruence.
    + split; [exact Hid |]. intros i subId sub Hi. congruence.
  - (* a socket opens *)
    destruct (nth_error (sockets s) j) as [[| | |] |] eqn:Hj; try now split.
    split; [exact Hid |]. cbn. intros i subId sub Hi Ho Hs.
    rewrite nth_error_setReadyState in Ho. apply in_or_app.
    destruct (Nat.eqb_spec j i) as [-> | Hne].
    + right. apply in_map_iff. exists sub. rewrite (Hid subId sub Hs).
      split; [reflexivity |].
      unfold JsMap.values. apply in_map_iff. exists (subId, sub).
      split; [reflexivity | now apply get_in].
    + left. now apply Hreq.
  - (* a socket closes *)
    destruct (nth_error (sockets s) j) as [[| | |] |] eqn:Hj; try (now split);
      (split; [exact Hid |]); cbn; intros i subId sub Hi Ho Hs;
      rewrite nth_error_setReadyState in Ho;
      (destruct (Nat.eqb_spec j i) as [-> | Hne];
       [rewrite Hj in Ho; discriminate | now apply Hreq]).
  - (* a message arrives *)
    destruct (nth_error (sockets s) j) as [[| | |] |]; try now split.
    destruct data as [subId0 event | eventId success message | subId0 | subId0 message
                      | message | subId0 change | subId0 lastSeq]; cbn [handleMessage].
    + destruct (JsMap.get subId0 (subscriptionsRef s)); now split.
    + destruct (JsMap.get eventId (pendingPublishRef s)) as [[promise event] |]; now split.
    + destruct (JsMap.get subId0 (subscriptionsRef s)) as [sub0 |]; [| now split].
      destruct (Subscription.onEose sub0); now split.
    + assert (Hget : forall subId sub,
                 JsMap.get subId (delete subId0 (subscriptionsRef s)) = Some sub ->
                 JsMap.get subId (subscriptionsRef s) = Some sub).
      { intros subId sub. destruct (String.eqb_spec subId subId0) as [-> | Hne].
        - now rewrite get_delete_same.
        - now rewrite get_delete_other by exact Hne. }
      split; cbn.
      * intros subId sub Hs. now apply Hid, Hget.
      * intros i subId sub Hi Ho Hs. apply Hreq; trivial. now apply Hget.
    + now split.
    + destruct (JsMap.get subId0 (changesSubscriptionsRef s)); now split.
    + destruct (JsMap.get subId0 (changesSubscriptionsRef s)) as [sub0 |]; [| now split].
      destruct (ChangesSubscription.onEose sub0); now split.
  - (* a timeout fires *)
    destruct (existsb _ (timers s)); [| now split].
    unfold publishTimeout. destruct (JsMap.has eventId (pendingPublishRef s)); now split.
Qed.

Lemma requested_run {Filter : Type} (actions : list (@Action Filter)) :
  forall s : Session Filter,
    ((forall subId sub, JsMap.get subId (subscriptionsRef s) = Some sub ->
        Subscription.id sub = subId) /\
     (forall i subId sub,
        wsRef s = Some i -> nth_error (sockets s) i = Some OPEN ->
        JsMap.get subId (subscriptionsRef s) = Some sub ->
        In (i, REQ subId (Subscription.filters sub)) (sent s))) ->
    (forall subId sub, JsMap.get subId (subscriptionsRef (run actions s)) = Some sub ->
        Subscription.id sub = subId) /\
    (forall i subId sub,
        wsRef (run actions s) = Some i ->
        nth_error (sockets (run actions s)) i = Some OPEN ->
        JsMap.get subId (subscriptionsRef (run actions s)) = Some sub ->
        In (i, REQ subId (Subscription.filters sub)) (sent (run actions s))).
Proof.
  induction actions as [| a actions IH]; intros s H; [exact H |].
  change (run (a :: actions) s) with (run actions (step a s)).
  apply IH, requested_step, H.
Qed.

(** X25. Whatever the hook was asked and whatever the sockets did since it
    was mounted, while its current socket is open every subscription it
    holds has been requested on that socket: those made before the socket
    opened were sent when it opened, the others when they were made. *)
Theorem subscriptions_are_requested_on_the_open_socket :
  forall (Filter : Type) (actions : list (@Action Filter)) (socket : nat)
         (subId : string) (sub : Subscription.t Filter),
    let s := run actions initial in
    wsRef s = Some socket ->
    nth_error (sockets s) socket = Some OPEN ->
    JsMap.get subId (subscriptionsRef s) = Some sub ->
    Subscription.id sub = subId /\
    In (socket, REQ subId (Subscription.filters sub)) (sent s).
Proof.
  intros Filter actions socket subId sub s Hcur Hopen Hsub.
  destruct (requested_run actions initial) as [Hid Hreq].
  { split; [intros k v Hk | intros i k v Hk]; discriminate Hk. }
  split; [now apply Hid | now apply Hreq].
Qed.

Lemma subscriptions_are_requested_on_the_open_socket_witness :
  let s : Session string :=
    run [Subscribe "early" ["{kinds:[40001]}"] 1%nat None; Connect; Opened 0;
         Subscribe "late" [] 2%nat (Some 3%nat)] initial in
  wsRef s = Some 0%nat /\
  nth_error (sockets s) 0 = Some OPEN /\
  In (0%nat, REQ "early" ["{kinds:[40001]}"]) (sent s) /\
  In (0%nat, REQ "late" []) (sent s).
Proof.
  intros s.
  assert (Hcur : wsRef s = Some 0%nat) by reflexivity.
  assert (Hopen : nth_error (sockets s) 0 = Some OPEN) by reflexivity.
  split; [exact Hcur |]. split; [exact Hopen |]. split.
  - apply (subscriptions_are_requested_on_the_open_socket string _ 0%nat "early"
             (Subscription.mk "early" ["{kinds:[40001]}"] 1%nat None) Hcur Hopen eq_refl).
  - apply (subscriptions_are_requested_on_the_open_socket string _ 0%nat "late"
             (Subscription.mk "late" [] 2%nat (Some 3%nat)) Hcur Hopen eq_refl).
Defined.

Lemma removed_stays_removed {Filter : Type} (subId : string)
    (actions : list (@Action Filter)) :
  (forall filters onEvent onEose, ~ In (Subscribe subId filters onEvent onEose) actions) ->
  forall s : Session Filter,
    JsMap.get subId (subscriptionsRef s) = None ->
    JsMap.get subId (subscriptionsRef (run actions s)) = None.
Proof.
  induction actions as [| a actions IH]; intros Hnot s Hs; [exact Hs |].
  change (run (a :: actions) s) with (run actions (step a s)).
  apply IH; [intros f e1 e2 Hin; apply (Hnot f e1 e2); now right |].
  assert (Hdel : forall k, JsMap.get subId (delete k (subscriptionsRef s)) = None).
  { intros k. destruct (String.eqb_spec subId k) as [-> | Hne];
      [apply get_delete_same | now rewrite get_delete_other]. }
  destruct a as [| | subId0 filters0 onEvent0 onEose0 | subId0
                 | subId0 options0 onEvent0 onEose0 | subId0
                 | eventTemplate sk now signature | j | j | j data | eventId promise];
    cbn [step].
  - unfold connect. now destruct (isOpen s).
  - unfold disconnect. now destruct (wsRef s).
  - assert (Hne : subId <> subId0).
    { intros ->. apply (Hnot filters0 onEvent0 onEose0). now left. }
    unfold subscribe, send. cbn [wsRef withSubscriptions].
    destruct (isOpen _); [destruct (wsRef s) |]; cbn;
      now rewrite get_set_other by exact Hne.
  - unfold unsubscribe, send. cbn [wsRef withSubscriptions].
    destruct (isOpen _); [destruct (wsRef s) |]; cbn; apply Hdel.
  - unfold subscribeChanges, send. cbn [wsRef withChangesSubscriptions].
    destruct (isOpen _); [destruct (wsRef s) |]; exact Hs.
  - unfold unsubscribeChanges, send. cbn [wsRef withChangesSubscriptions].
    destruct (isOpen _); [destruct (wsRef s) |]; exact Hs.
  - unfold publish. destruct sk; [| exact Hs].
    destruct (isOpen s); cbn [negb snd]; [| exact Hs].
    unfold send. cbn [wsRef withPublishes]. now destruct (wsRef s).
  - now destruct (nth_error (sockets s) j) as [[| | |] |].
  - now destruct (nth_error (sockets s) j) as [[| | |] |].
  - destruct (nth_error (sockets s) j) as [[| | |] |]; trivial.
    destruct data as [subId0 event | eventId0 success message | subId0 | subId0 message
                      | message | subId0 change | subId0 lastSeq]; cbn [handleMessage].
    + now destruct (JsMap.get subId0 (subscriptionsRef s)).
    + now destruct (JsMap.get eventId0 (pendingPublishRef s)) as [[p e] |].
    + destruct (JsMap.get subId0 (subscriptionsRef s)) as [sub0 |]; [| exact Hs].
      now destruct (Subscription.onEose sub0).
    + apply Hdel.
    + exact Hs.
    + now destruct (JsMap.get subId0 (changesSubscriptionsRef s)).
    + destruct (JsMap.get subId0 (changesSubscriptionsRef s)) as [sub0 |]; [| exact Hs].
      now destruct (ChangesSubscription.onEose sub0).
  - destruct (existsb _ (timers s)); [| exact Hs].
    unfold publishTimeout. now destruct (JsMap.has eventId (pendingPublishRef s)).
Qed.

(** X26. A subscription that was unsubscribed, or that the relay closed,
    gets nothing more: until the same id is subscribed again, whatever else
    happens, the events and the end-of-stored-events of that id call no
    one. *)
Theorem removed_subscription_is_not_called :
  forall (Filter : Type) (actions : list (@Action Filter)) (subId message : string)
         (event : Event.t) (s removed : Session Filter),
    removed = unsubscribe subId s \/
    removed = handleMessage (Message.CLOSED subId message) s ->
    (forall filters onEvent onEose,
       ~ In (Subscribe subId filters onEvent onEose) actions) ->
    handleMessage (Message.EVENT subId event) (run actions removed) = run actions removed /\
    handleMessage (Message.EOSE subId) (run actions removed) = run actions removed.
Proof.
  intros Filter actions subId message event s removed Hremoved Hnot.
  assert (Hgone : JsMap.get subId (subscriptionsRef removed) = None).
  { destruct Hremoved as [-> | ->].
    - unfold unsubscribe, send. cbn [wsRef withSubscriptions].
      destruct (isOpen _); [destruct (wsRef s) |]; cbn; apply get_delete_same.
    - cbn. apply get_delete_same. }
  pose proof (removed_stays_removed subId actions Hnot removed Hgone) as Hstill.
  cbn [handleMessage]. now rewrite Hstill.
Qed.

Lemma removed_subscription_is_not_called_witness :
  let s : Session string :=
    run [Connect; Opened 0; Subscribe "notes" [] 1%nat (Some 2%nat)] initial in
  let later := [Subscribe "other" [] 5%nat None; Received 0 (Message.NOTICE "hi")] in
  called (run (later ++ [Received 0 (Message.EVENT "notes" Samples.firstEvent)])
              (unsubscribe "notes" s)) = [] /\
  called (run [Received 0 (Message.EVENT "notes" Samples.firstEvent)] s)
  = [OnEvent 1 Samples.firstEvent].
Proof.
  intros s later.
  destruct (removed_subscription_is_not_called string later "notes" "" Samples.firstEvent
              s (unsubscribe "notes" s) (or_introl eq_refl))
    as [Hevent _].
  - intros filters onEvent onEose [H | [H | []]]; discriminate H.
  - split; [| reflexivity].
    unfold run. rewrite fold_left_app. fold (run later (unsubscribe "notes" s)).
    cbn [fold_left step].
    assert (Hopen : nth_error (sockets (run later (unsubscribe "notes" s))) 0 = Some OPEN)
      by reflexivity.
    rewrite Hopen, Hevent. reflexivity.
Defined.

(** ** A socket that was replaced *)

Lemma step_leaves_other_sockets {Filter : Type} (i : nat) (a : @Action Filter)
    (s : Session Filter) :
  a <> Opened i -> a <> Closed i ->
  wsRef s <> Some i ->
  (i < List.length (sockets s))%nat ->
  wsRef (step a s) <> Some i /\
  nth_error (sockets (step a s)) i = nth_error (sockets s) i.
Proof.
  intros Hopened Hclosed Hcur Hlen.
  assert (Hset : forall j state, j <> i ->
             nth_error (setReadyState j state (sockets s)) i = nth_error (sockets s) i).
  { intros j state Hne. rewrite nth_error_setReadyState.
    destruct (Nat.eqb_spec j i); [congruence | reflexivity]. }
  destruct a as [| | subId0 filters0 onEvent0 onEose0 | subId0
                 | subId0 options0 onEvent0 onEose0 | subId0
                 | eventTemplate sk now signature | j | j | j data | eventId promise];
    cbn [step].
  - unfold connect. destruct (isOpen s); [now split |]. cbn. split.
    + intros [= E]. lia.
    + now rewrite nth_error_app1 by exact Hlen.
  - unfold disconnect. destruct (wsRef s) as [cur |] eqn:E; [| split; congruence].
    cbn. split; [discriminate |].
    unfold close. destruct (nth_error (sockets s) cur) as [[| | |] |]; trivial;
      apply Hset; congruence.
  - unfold subscribe, send. cbn [wsRef withSubscriptions].
    destruct (isOpen _); [destruct (wsRef s) eqn:E |]; cbn; split; congruence.
  - unfold unsubscribe, send. cbn [wsRef withSubscriptions].
    destruct (isOpen _); [destruct (wsRef s) eqn:E |]; cbn; split; congruence.
  - unfold subscribeChanges, send. cbn [wsRef withChangesSubscriptions].
    destruct (isOpen _); [destruct (wsRef s) eqn:E |]; cbn; split; congruence.
  - unfold unsubscribeChanges, send. cbn [wsRef withChangesSubscriptions].
    destruct (isOpen _); [destruct (wsRef s) eqn:E |]; cbn; split; congruence.
  - unfold publish. destruct sk; [| now split].
    destruct (isOpen s); cbn [negb snd]; [| now split].
    unfold send. cbn [wsRef withPublishes].
    destruct (wsRef s) eqn:E; cbn; split; congruence.
  - destruct (nth_error (sockets s) j) as [[| | |] |]; try now split.
    cbn. split; [exact Hcur |]. apply Hset. congruence.
  - destruct (nth_error (sockets s) j) as [[| | |] |]; try (now split);
      cbn; (split; [exact Hcur |]); apply Hset; congruence.
  - destruct (nth_error (sockets s) j) as [[| | |] |]; try now split.
    destruct data as [subId0 event | eventId0 success message | subId0 | subId0 message
                      | message | subId0 change | subId0 lastSeq]; cbn [handleMessage].
    + now destruct (JsMap.get subId0 (subscriptionsRef s)).
    + now destruct (JsMap.get eventId0 (pendingPublishRef s)) as [[p e] |].
    + destruct (JsMap.get subId0 (subscriptionsRef s)) as [sub0 |]; [| now split].
      now destruct (Subscription.onEose sub0).
    + now split.
    + now split.
    + now destruct (JsMap.get subId0 (changesSubscriptionsRef s)).
    + destruct (JsMap.get subId0 (changesSubscriptionsRef s)) as [sub0 |]; [| now split].
      now destruct (ChangesSubscription.onEose sub0).
  - destruct (existsb _ (timers s)); [| now split].
    unfold publishTimeout. now destruct (JsMap.has eventId (pendingPublishRef s)).
Qed.

Lemma replaced_run {Filter : Type} (i : nat) (actions : list (@Action Filter)) :
  (forall a, In a actions -> a <> Opened i /\ a <> Closed i) ->
  forall s : Session Filter,
    wsRef s <> Some i ->
    nth_error (sockets s) i = Some CONNECTING ->
    wsRef (run actions s) <> Some i /\
    nth_error (sockets (run actions s)) i = Some CONNECTING.
Proof.
  induction actions as [| a actions IH]; intros Hnot s Hcur Hi; [now split |].
  change (run (a :: actions) s) with (run actions (step a s)).
  assert (Hlen : (i < List.length (sockets s))%nat).
  { apply nth_error_Some. congruence. }
  destruct (Hnot a (or_introl eq_refl)) as [Hopened Hclosed].
  destruct (step_leaves_other_sockets i a s Hopened Hclosed Hcur Hlen) as [Hcur' Hi'].
  apply IH; [intros a' Ha'; apply Hnot; now right | exact Hcur' | congruence].
Qed.

(** X27. [connect] called while the current socket is still connecting
    opens a second socket and forgets the first without closing it.
    Nothing the hook does afterwards closes the first socket or makes it
    current again; and when it opens it is sent every subscription, and the
    events that arrive on it are delivered to the subscribers like those of
    the current socket. *)
Theorem replaced_socket_stays_alive :
  forall (Filter : Type) (actions : list (@Action Filter)) (first : nat)
         (subId : string) (sub : Subscription.t Filter) (event : Event.t)
         (s : Session Filter),
    wsRef s = Some first ->
    nth_error (sockets s) first = Some CONNECTING ->
    (forall a, In a actions -> a <> Opened first /\ a <> Closed first) ->
    let s' := run actions (connect s) in
    JsMap.get subId (subscriptionsRef s') = Some sub ->
    wsRef (connect s) = Some (List.length (sockets s)) /\
    wsRef s' <> Some first /\
    nth_error (sockets s') first = Some CONNECTING /\
    nth_error (sockets (disconnect s')) first = Some CONNECTING /\
    let opened := step (Opened first) s' in
    In (first, REQ (Subscription.id sub) (Subscription.filters sub)) (sent opened) /\
    called (step (Received first (Message.EVENT subId event)) opened)
    = (called s' ++ [OnEvent (Subscription.onEvent sub) event])%list.
Proof.
  intros Filter actions first subId sub event s Hcur Hfirst Hnot s' Hsub.
  assert (Hconnect : connect s
                     = withSockets (withConnection s connecting (isConnected s))
                         (sockets s ++ [CONNECTING]) (Some (List.length (sockets s)))).
  { unfold connect, isOpen. now rewrite Hcur, Hfirst. }
  assert (Hlen : (first < List.length (sockets s))%nat).
  { apply nth_error_Some. congruence. }
  destruct (replaced_run first actions Hnot (connect s)) as [Hcur' Hfirst'].
  { rewrite Hconnect. cbn. intros [= E]. lia. }
  { rewrite Hconnect. cbn. now rewrite nth_error_app1 by exact Hlen. }
  fold s' in Hcur', Hfirst'.
  split; [now rewrite Hconnect |]. split; [exact Hcur' |]. split; [exact Hfirst' |].
  split.
  { unfold disconnect. destruct (wsRef s') as [cur |] eqn:E; [| exact Hfirst']. cbn.
    unfold close. destruct (nth_error (sockets s') cur) as [[| | |] |]; trivial;
      rewrite nth_error_setReadyState;
      (destruct (Nat.eqb_spec cur first); [congruence | exact Hfirst']). }
  cbn [step]. rewrite Hfirst'. split.
  - cbn. apply in_or_app. right. apply in_map_iff. exists sub. split; [reflexivity |].
    unfold JsMap.values. apply in_map_iff. exists (subId, sub).
    split; [reflexivity | now apply get_in].
  - cbn [onopen sockets withSent withConnection withSockets].
    rewrite nth_error_setReadyState, Nat.eqb_refl, Hfirst'. cbn. now rewrite Hsub.
Qed.

Lemma replaced_socket_stays_alive_witness :
  let s : Session string := run [Subscribe "notes" [] 1%nat None; Connect] initial in
  let s' := run [Opened 1] (connect s) in
  wsRef s = Some 0%nat /\
  sockets s' = [CONNECTING; OPEN] /\
  sockets (disconnect s') = [CONNECTING; CLOSING] /\
  called (run [Opened 0; Received 0 (Message.EVENT "notes" Samples.firstEvent);
               Received 1 (Message.EVENT "notes" Samples.firstEvent)] s')
  = [OnEvent 1 Samples.firstEvent; OnEvent 1 Samples.firstEvent].
Proof.
  intros s s'.
  destruct (replaced_socket_stays_alive string [Opened 1%nat] 0%nat "notes"
              (Subscription.mk "notes" [] 1%nat None) Samples.firstEvent s eq_refl eq_refl)
    as (_ & _ & _ & _ & _ & Hcalled).
  - intros a [<- | []]. split; discriminate.
  - reflexivity.
  - split; [reflexivity |]. split; [reflexivity |]. split; [reflexivity |].
    change (run [Opened 0; Received 0 (Message.EVENT "notes" Samples.firstEvent);
                 Received 1 (Message.EVENT "notes" Samples.firstEvent)] s')
      with (step (Received 1 (Message.EVENT "notes" Samples.firstEvent))
              (step (Received 0 (Message.EVENT "notes" Samples.firstEvent))
                 (step (Opened 0) s'))).
    fold s' in Hcalled.
    set (after := step (Received 0 (Message.EVENT "notes" Samples.firstEvent))
                    (step (Opened 0) s')) in *.
    assert (Hsockets : nth_error (sockets after) 1 = Some OPEN) by reflexivity.
    assert (Hsub : JsMap.get "notes" (subscriptionsRef after)
                   = Some (Subscription.mk "notes" [] 1%nat None)) by reflexivity.
    cbn [step]. rewrite Hsockets. cbn [handleMessage]. rewrite Hsub.
    cbn [called withCalled Subscription.onEvent]. rewrite Hcalled. reflexivity.
Defined.

(** ** Subscriptions to the changes feed *)

Lemma step_requests_changes {Filter : Type} (a : @Action Filter) (s : Session Filter)
    (socket : nat) (subId : string) (options : ChangesSubOptions) :
  In (socket, CHANGES_SUB subId options) (sent (step a s)) ->
  In (socket, CHANGES_SUB subId options) (sent s) \/
  exists onEvent onEose, a = SubscribeChanges subId options onEvent onEose.
Proof.
  destruct a as [| | subId0 filters0 onEvent0 onEose0 | subId0
                 | subId0 options0 onEvent0 onEose0 | subId0
                 | eventTemplate sk now signature | j | j | j data | eventId promise];
    cbn [step].
  - unfold connect. destruct (isOpen s); now left.
  - unfold disconnect. destruct (wsRef s); now left.
  - unfold subscribe, send. cbn [wsRef withSubscriptions].
    destruct (isOpen _); [destruct (wsRef s) |]; cbn; try (now left).
    rewrite in_app_iff. intros [H | [H | []]]; [now left | discriminate H].
  - unfold unsubscribe, send. cbn [wsRef withSubscriptions].
    destruct (isOpen _); [destruct (wsRef s) |]; cbn; try (now left).
    rewrite in_app_iff. intros [H | [H | []]]; [now left | discriminate H].
  - unfold subscribeChanges, send. cbn [wsRef withChangesSubscriptions].
    destruct (isOpen _); [destruct (wsRef s) |]; cbn; try (now left).
    rewrite in_app_iff. intros [H | [H | []]]; [now left |].
    right. injection H as _ -> ->. now exists onEvent0, onEose0.
  - unfold unsubscribeChanges, send. cbn [wsRef withChangesSubscriptions].
    destruct (isOpen _); [destruct (wsRef s) |]; cbn; try (now left).
    rewrite in_app_iff. intros [H | [H | []]]; [now left | discriminate H].
  - unfold publish. destruct sk; [| now left].
    destruct (isOpen s); cbn [negb snd]; [| now left].
    unfold send. cbn [wsRef withPublishes].
    destruct (wsRef s); cbn; try (now left).
    rewrite in_app_iff. intros [H | [H | []]]; [now left | discriminate H].
  - destruct (nth_error (sockets s) j) as [[| | |] |]; try now left.
    cbn. rewrite in_app_iff, in_map_iff. intros [H | (sub & H & _)]; [now left |].
    discriminate H.
  - destruct (nth_error (sockets s) j) as [[| | |] |]; now left.
  - destruct (nth_error (sockets s) j) as [[| | |] |]; try now left.
    destruct data as [subId0 event | eventId0 success message | subId0 | subId0 message
                      | message | subId0 change | subId0 lastSeq]; cbn [handleMessage];
      try now left.
    + destruct (JsMap.get subId0 (subscriptionsRef s)); now left.
    + destruct (JsMap.get eventId0 (pendingPublishRef s)) as [[p e] |]; now left.
    + destruct (JsMap.get subId0 (subscriptionsRef s)) as [sub0 |]; [| now left].
      destruct (Subscription.onEose sub0); now left.
    + destruct (JsMap.get subId0 (changesSubscriptionsRef s)); now left.
    + destruct (JsMap.get subId0 (changesSubscriptionsRef s)) as [sub0 |]; [| now left].
      destruct (ChangesSubscription.onEose sub0); now left.
  - destruct (existsb _ (timers s)); [| now left].
    unfold publishTimeout. destruct (JsMap.has eventId (pendingPublishRef s)); now left.
Qed.

Lemma run_requests_changes {Filter : Type} (subId : string)
    (actions : list (@Action Filter)) :
  (forall options onEvent onEose,
     ~ In (SubscribeChanges subId options onEvent onEose) actions) ->
  forall (s : Session Filter) socket options,
    In (socket, CHANGES_SUB subId options) (sent (run actions s)) ->
    In (socket, CHANGES_SUB subId options) (sent s).
Proof.
  induction actions as [| a actions IH]; intros Hnot s socket options Hin; [exact Hin |].
  change (run (a :: actions) s) with (run actions (step a s)) in Hin.
  apply IH in Hin; [| intros o e1 e2 H; apply (Hnot o e1 e2); now right].
  destruct (step_requests_changes a s socket subId options Hin) as [H | (e1 & e2 & ->)];
    [exact H |].
  exfalso. apply (Hnot options e1 e2). now left.
Qed.

(** X28. Unlike the event subscriptions, a subscription to the changes
    feed made while the socket is not open is never requested: the hook
    keeps it, but neither the opening of a socket nor anything else short
    of subscribing again sends its [CHANGES_SUB]. *)
Theorem changes_subscription_is_not_requested_later :
  forall (Filter : Type) (actions : list (@Action Filter)) (subId : string)
         (options : ChangesSubOptions) (onEvent : nat) (onEose : option nat)
         (s : Session Filter),
    isOpen s = false ->
    (forall options' onEvent' onEose',
       ~ In (SubscribeChanges subId options' onEvent' onEose') actions) ->
    let s' := subscribeChanges subId options onEvent onEose s in
    JsMap.get subId (changesSubscriptionsRef s')
    = Some (ChangesSubscription.mk subId onEvent onEose) /\
    forall socket options',
      In (socket, CHANGES_SUB subId options') (sent (run actions s')) ->
      In (socket, CHANGES_SUB subId options') (sent s).
Proof.
  intros Filter actions subId options onEvent onEose s Hclosed Hnot s'.
  assert (Hs' : s' = withChangesSubscriptions s
                       (JsMap.set subId (ChangesSubscription.mk subId onEvent onEose)
                          (changesSubscriptionsRef s))).
  { unfold s', subscribeChanges.
    change (isOpen (withChangesSubscriptions s _)) with (isOpen s). now rewrite Hclosed. }
  split; [rewrite Hs'; cbn; apply get_set_same |].
  intros socket options' Hin.
  apply (run_requests_changes subId actions Hnot) in Hin. now rewrite Hs' in Hin.
Qed.

Lemma changes_subscription_is_not_requested_later_witness :
  let options := {| since := Some 0; kinds := None; authors := None |} in
  let actions : list (@Action string) :=
    [Subscribe "notes" [] 1%nat None; Connect; Opened 0] in
  let s' := subscribeChanges "feed" options 2%nat None initial in
  isOpen (@initial string) = false /\
  sent (run actions s') = [(0%nat, REQ "notes" [])] /\
  ~ In (0%nat, CHANGES_SUB "feed" options) (sent (run actions s')).
Proof.
  intros options actions s'.
  assert (Hclosed : isOpen (@initial string) = false) by reflexivity.
  destruct (changes_subscription_is_not_requested_later string actions "feed" options
              2%nat None initial Hclosed)
    as [_ Hnever].
  - intros o e1 e2 [H | [H | [H | []]]]; discriminate H.
  - split; [exact Hclosed |]. split; [reflexivity |].
    intros Hin. exact (Hnever 0%nat options Hin).
Defined.
